(** * devapack release scripts: version bump, build stamp, manifest sync,
      binary provisioning and version-record relocation.

    A shallow embedding of the TypeScript sources under [scripts/] and of the
    fragment of the JavaScript runtime they rely on (strings of UTF-16 code
    units, integral Number arithmetic, backtracking regular expressions,
    [String.prototype.replace] templates, text files read and written as
    UTF-8), followed by the properties of the specification. *)

From Stdlib Require Import String Ascii.
From Stdlib Require Import ZArith NArith Bool Lia List DecimalPos DecimalN.
Import ListNotations.

Set Implicit Arguments.
Local Open Scope Z_scope.

(* ================================================================== *)
(** ** JavaScript strings *)
(* ================================================================== *)

(** A JavaScript string is a sequence of UTF-16 code units. *)
Definition codeunit := N.
Definition JSString := list codeunit.

(** ASCII literals of the sources. *)
Definition str (s : string) : JSString :=
  map N_of_ascii (list_ascii_of_string s).

Definition cu_eqb (a b : codeunit) : bool := N.eqb a b.

Fixpoint jsstr_eqb (a b : JSString) : bool :=
  match a, b with
  | [], [] => true
  | x :: a', y :: b' => cu_eqb x y && jsstr_eqb a' b'
  | _, _ => false
  end.

Module Char.
Definition dot : codeunit := 46%N.
Definition dash : codeunit := 45%N.
Definition quote : codeunit := 34%N.
Definition equals : codeunit := 61%N.
Definition dollar : codeunit := 36%N.
Definition underscore : codeunit := 95%N.
Definition zero : codeunit := 48%N.
End Char.

Definition in_range (lo hi c : codeunit) : bool :=
  (N.leb lo c && N.leb c hi)%bool.

(** [\d] : the ten ASCII digits. *)
Definition isDigit (c : codeunit) : bool := in_range 48%N 57%N c.

(** [\w] : ASCII letters, digits and the underscore. *)
Definition isWord (c : codeunit) : bool :=
  (in_range 97%N 122%N c || in_range 65%N 90%N c || isDigit c
   || cu_eqb c Char.underscore)%bool.

(** [\s] : the WhiteSpace and LineTerminator code points of ECMAScript. *)
Definition isWhiteSpace (c : codeunit) : bool :=
  (in_range 9%N 13%N c || cu_eqb c 32%N || cu_eqb c 160%N
   || cu_eqb c 5760%N || in_range 8192%N 8202%N c || cu_eqb c 8232%N
   || cu_eqb c 8233%N || cu_eqb c 8239%N || cu_eqb c 8287%N
   || cu_eqb c 12288%N || cu_eqb c 65279%N)%bool.

(** The classes [[\w.]] and [[^Q]], where Q is the double-quote character. *)
Definition isWordOrDot (c : codeunit) : bool :=
  (isWord c || cu_eqb c Char.dot)%bool.
Definition isNotQuote (c : codeunit) : bool := negb (cu_eqb c Char.quote).

(** Longest prefix whose code units satisfy [p], and the rest. *)
Fixpoint span (p : codeunit -> bool) (s : JSString) : JSString * JSString :=
  match s with
  | c :: t =>
      if p c then let (a, b) := span p t in (c :: a, b) else ([], s)
  | [] => ([], [])
  end.

(** [String.prototype.trim]. *)
Definition trimStart (s : JSString) : JSString := snd (span isWhiteSpace s).
Definition trim (s : JSString) : JSString :=
  rev (trimStart (rev (trimStart s))).

(* ================================================================== *)
(** ** Regular expressions: the fragment of the syntax the scripts use *)
(* ================================================================== *)

Module Regex.

(** Quantifiers [*] and [+] are only ever applied to character classes in
    the sources, [?] to a non-capturing group. *)
Inductive regex : Type :=
| Chr (c : codeunit)               (* a literal character *)
| Bol                              (* ^ *)
| Eol                              (* $ *)
| Seq (r1 r2 : regex)
| StarC (p : codeunit -> bool)     (* class*  (greedy) *)
| PlusC (p : codeunit -> bool)     (* class+  (greedy) *)
| Opt (r : regex)                  (* (?: r )?  (greedy) *)
| Grp (i : nat) (r : regex).       (* ( r ), the i-th capturing group *)

(** The matcher state: index of the next code unit and remaining input. *)
Definition input := (nat * JSString)%type.

(** Captures, most recent first; a group that took no part in the match is
    [undefined]. *)
Definition captures := list (nat * JSString).

Fixpoint capture (i : nat) (c : captures) : option JSString :=
  match c with
  | [] => None
  | (j, s) :: c' => if Nat.eqb i j then Some s else capture i c'
  end.

Section Matcher.
Variable R : Type.

Definition cont := input -> captures -> option R.

(** Greedy repetition of a class: take one more character if possible
    and fall back to the continuation when the longer attempt fails. *)
Fixpoint star (p : codeunit -> bool) (k : cont) (n : nat) (s : JSString)
  (c : captures) : option R :=
  match s with
  | a :: t =>
      if p a then
        match star p k (S n) t c with
        | Some r => Some r
        | None => k (n, s) c
        end
      else k (n, s) c
  | [] => k (n, s) c
  end.

(** Backtracking matcher in continuation-passing style. *)
Fixpoint rmatch (r : regex) (k : cont) (x : input) (c : captures)
  : option R :=
  match r with
  | Chr a =>
      match snd x with
      | b :: t => if cu_eqb a b then k (S (fst x), t) c else None
      | [] => None
      end
  | Bol => if Nat.eqb (fst x) 0 then k x c else None
  | Eol => match snd x with [] => k x c | _ :: _ => None end
  | Seq r1 r2 => rmatch r1 (rmatch r2 k) x c
  | StarC p => star p k (fst x) (snd x) c
  | PlusC p =>
      match snd x with
      | b :: t => if p b then star p k (S (fst x)) t c else None
      | [] => None
      end
  | Opt r' =>
      match rmatch r' k x c with
      | Some v => Some v
      | None => k x c
      end
  | Grp i r' =>
      rmatch r' (fun x' c' =>
        k x' ((i, firstn (fst x' - fst x) (snd x)) :: c')) x c
  end.
End Matcher.

(** The result of a successful match: text before the match, the matched
    text, the text after it, and the captures. *)
Record match_result : Type := MatchResult {
  before : JSString;
  matched : JSString;
  after : JSString;
  groups : captures
}.

Definition match_at (r : regex) (n : nat) (s : JSString)
  : option (JSString * JSString * captures) :=
  rmatch r (fun x' c' => Some (firstn (fst x' - n) s, snd x', c'))
    (n, s) [].

(** [RegExp.prototype.exec] for a regex without the [g] and [y] flags:
    the first index at which the pattern matches. *)
Fixpoint search (r : regex) (pre : JSString) (s : JSString)
  : option match_result :=
  match match_at r (length pre) s with
  | Some (m, post, c) => Some (MatchResult pre m post c)
  | None =>
      match s with
      | [] => None
      | a :: t => search r (pre ++ [a]) t
      end
  end.

Definition exec (r : regex) (s : JSString) : option match_result :=
  search r [] s.

End Regex.
Import Regex.

(** [/^(\d+)\.(\d+)\.(\d+)(?:-([\w.]+))?$/] (bump.ts) *)
Definition versionRegex : regex :=
  Seq Bol
  (Seq (Grp 1 (PlusC isDigit))
  (Seq (Chr Char.dot)
  (Seq (Grp 2 (PlusC isDigit))
  (Seq (Chr Char.dot)
  (Seq (Grp 3 (PlusC isDigit))
  (Seq (Opt (Seq (Chr Char.dash) (Grp 4 (PlusC isWordOrDot))))
       Eol)))))).

(** [/(version\s*=\s*Q)[^Q]*(Q)/], where Q stands for the double-quote
    character (sync.ts); the first group begins with the seven letters of
    the key. *)
Definition cargoVersionRegex : regex :=
  Seq (Grp 1 (Seq (Chr 118%N) (Seq (Chr 101%N) (Seq (Chr 114%N)
        (Seq (Chr 115%N) (Seq (Chr 105%N) (Seq (Chr 111%N) (Seq (Chr 110%N)
        (Seq (StarC isWhiteSpace)
        (Seq (Chr Char.equals)
        (Seq (StarC isWhiteSpace) (Chr Char.quote))))))))))))
  (Seq (StarC isNotQuote)
       (Grp 2 (Chr Char.quote))).

(* ================================================================== *)
(** ** Numbers: the integral values of the Number type *)
(* ================================================================== *)

Module Number.

(** A Number is an IEEE 754 binary64 value.  The scripts only ever form
    Numbers from digit strings and by adding 1, so the model carries the
    integral values exactly, with the rounding to a 53-bit significand
    written out, together with the infinities and NaN. *)
Inductive Number : Type :=
| Fin (z : Z)
| Inf (negative : bool)
| NaN.

Definition MAX_SAFE_INTEGER : Z := 2 ^ 53 - 1.

(** Round a non-negative integer to the nearest integer with a 53-bit
    significand, ties to even. *)
Definition round53 (n : Z) : Z :=
  let e := Z.log2 n - 52 in
  if e <=? 0 then n
  else
    let q := Z.shiftr n e in
    let r := Z.land n (Z.ones e) in
    let half := Z.shiftl 1 (e - 1) in
    let q' :=
      if r <? half then q
      else if half <? r then q + 1
      else if Z.even q then q else q + 1 in
    Z.shiftl q' e.

(** The Number value for a mathematical integer. *)
Definition ofZ (z : Z) : Number :=
  let r := round53 (Z.abs z) in
  if 2 ^ 1024 <=? r then Inf (z <? 0)
  else Fin (Z.sgn z * r).

(** [a + b] on Numbers. *)
Definition add (a b : Number) : Number :=
  match a, b with
  | NaN, _ | _, NaN => NaN
  | Inf s, Inf t => if Bool.eqb s t then Inf s else NaN
  | Inf s, Fin _ | Fin _, Inf s => Inf s
  | Fin x, Fin y => ofZ (x + y)
  end.

(** Decimal digits of a non-negative integer. *)
Fixpoint uint_digits (u : Decimal.uint) : JSString :=
  match u with
  | Decimal.Nil => []
  | Decimal.D0 u' => 48%N :: uint_digits u'
  | Decimal.D1 u' => 49%N :: uint_digits u'
  | Decimal.D2 u' => 50%N :: uint_digits u'
  | Decimal.D3 u' => 51%N :: uint_digits u'
  | Decimal.D4 u' => 52%N :: uint_digits u'
  | Decimal.D5 u' => 53%N :: uint_digits u'
  | Decimal.D6 u' => 54%N :: uint_digits u'
  | Decimal.D7 u' => 55%N :: uint_digits u'
  | Decimal.D8 u' => 56%N :: uint_digits u'
  | Decimal.D9 u' => 57%N :: uint_digits u'
  end.

Definition decimal (z : Z) : JSString := uint_digits (N.to_uint (Z.to_N z)).

(** The value of a string of decimal digits. *)
Definition digitsValue (s : JSString) : Z :=
  fold_left (fun acc c => acc * 10 + (Z.of_N c - 48)) s 0.

(** [+s] for a string [s] of decimal digits. *)
Definition ofDigits (s : JSString) : Number := ofZ (digitsValue s).

(** The decimal with the fewest significant digits that still rounds to
    [v]; among two candidates of that length, the one closer to [v]
    (Number::toString).  Up to [2^53] that decimal is [v] itself. *)
Definition shortest (v : Z) : Z :=
  if v <=? 2 ^ 53 then v
  else
    let d := Z.of_nat (length (decimal v)) in
    let candidate (k : nat) : option Z :=
      let p := 10 ^ (d - Z.of_nat k) in
      let lo := v / p * p in
      let hi := lo + p in
      match round53 lo =? v, round53 hi =? v with
      | true, true => Some (if v - lo <=? hi - v then lo else hi)
      | true, false => Some lo
      | false, true => Some hi
      | false, false => None
      end in
    match flat_map (fun k => match candidate k with
                             | Some c => [c] | None => [] end)
                   (seq 1 17) with
    | c :: _ => c
    | [] => v
    end.

Fixpoint stripZeros (rev_digits : JSString) : JSString :=
  match rev_digits with
  | c :: t => if cu_eqb c Char.zero then stripZeros t else rev_digits
  | [] => []
  end.

(** Number::toString (radix 10) on the values of the model. *)
Definition toString (x : Number) : JSString :=
  match x with
  | NaN => str "NaN"
  | Inf s => (if s then str "-" else []) ++ str "Infinity"
  | Fin z =>
      let sign := if z <? 0 then str "-" else [] in
      let ds := decimal (shortest (Z.abs z)) in
      if Z.abs z <? 10 ^ 21 then sign ++ ds
      else
        match rev (stripZeros (rev ds)) with
        | [] => sign ++ ds
        | [d1] =>
            sign ++ [d1] ++ str "e+" ++ decimal (Z.of_nat (length ds) - 1)
        | d1 :: more =>
            sign ++ [d1] ++ [Char.dot] ++ more ++ str "e+"
              ++ decimal (Z.of_nat (length ds) - 1)
        end
  end.

End Number.
Import Number.

(* ================================================================== *)
(** ** Values, JSON documents and the operators the scripts apply to them *)
(* ================================================================== *)

#[local] Set Warnings "-register-all".

(** The values [JSON.parse] produces, and [undefined].  A [VNum] carries a
    Number of the model above, that is an integral one: the counters of
    the version record are integers. *)
Inductive value : Type :=
| VUndefined
| VNull
| VBool (b : bool)
| VNum (n : Number)
| VStr (s : JSString)
| VArr (items : list value)
| VObj (props : list (JSString * value)).

Definition join (sep : JSString) (parts : list JSString) : JSString :=
  match parts with
  | [] => []
  | p :: ps => p ++ flat_map (fun q => sep ++ q) ps
  end.

(** ToString, as applied by template literals and by [+] on strings. *)
Fixpoint toStringV (v : value) : JSString :=
  match v with
  | VUndefined => str "undefined"
  | VNull => str "null"
  | VBool true => str "true"
  | VBool false => str "false"
  | VNum n => toString n
  | VStr s => s
  | VArr items =>
      join (str ",")
        (map (fun x => match x with
                       | VUndefined | VNull => []
                       | _ => toStringV x
                       end) items)
  | VObj _ => str "[object Object]"
  end.

(** ToBoolean. *)
Definition truthy (v : value) : bool :=
  match v with
  | VUndefined | VNull => false
  | VBool b => b
  | VNum (Fin z) => negb (z =? 0)
  | VNum (Inf _) => true
  | VNum NaN => false
  | VStr s => match s with [] => false | _ :: _ => true end
  | VArr _ | VObj _ => true
  end.

(** [a || b]. *)
Definition js_or (a b : value) : value := if truthy a then a else b.

(** ToPrimitive: arrays and plain objects become their string. *)
Definition toPrimitive (v : value) : value :=
  match v with
  | VArr _ | VObj _ => VStr (toStringV v)
  | _ => v
  end.

(** ToNumber on the primitives that are not strings. *)
Definition toNumber (v : value) : Number :=
  match v with
  | VNum n => n
  | VNull | VBool false => Fin 0
  | VBool true => Fin 1
  | _ => NaN
  end.

(** [a + b]: concatenation as soon as one operand is a string after
    ToPrimitive, numeric addition otherwise. *)
Definition js_add (a b : value) : value :=
  match toPrimitive a, toPrimitive b with
  | VStr x, pb => VStr (x ++ toStringV pb)
  | pa, VStr y => VStr (toStringV pa ++ y)
  | pa, pb => VNum (add (toNumber pa) (toNumber pb))
  end.

(** Own properties of an object, in order. *)
Fixpoint lookup (k : JSString) (props : list (JSString * value))
  : option value :=
  match props with
  | [] => None
  | (k', v) :: rest => if jsstr_eqb k k' then Some v else lookup k rest
  end.

Fixpoint assign (k : JSString) (v : value) (props : list (JSString * value))
  : list (JSString * value) :=
  match props with
  | [] => [(k, v)]
  | (k', v') :: rest =>
      if jsstr_eqb k k' then (k, v) :: rest else (k', v') :: assign k v rest
  end.

(** What [JSON.parse (JSON.stringify v)] gives back: properties holding
    [undefined] are dropped, [undefined] array items and the Numbers that
    are not finite become [null]. *)
Fixpoint jsonValue (v : value) : value :=
  match v with
  | VNum (Fin z) => VNum (Fin z)
  | VNum _ => VNull
  | VArr items =>
      VArr (map (fun x => match x with
                          | VUndefined => VNull
                          | _ => jsonValue x
                          end) items)
  | VObj props =>
      VObj ((fix fields (ps : list (JSString * value)) :=
               match ps with
               | [] => []
               | (k, x) :: rest =>
                   match x with
                   | VUndefined => fields rest
                   | _ => (k, jsonValue x) :: fields rest
                   end
               end) props)
  | _ => v
  end.

(* ================================================================== *)
(** ** GetSubstitution and String.prototype.replace *)
(* ================================================================== *)

(** Number of capturing groups of a pattern. *)
Fixpoint groupCount (r : regex) : nat :=
  match r with
  | Seq r1 r2 => groupCount r1 + groupCount r2
  | Opt r' => groupCount r'
  | Grp _ r' => S (groupCount r')
  | _ => 0
  end.

Definition digitOf (c : codeunit) : nat := N.to_nat (c - 48).

Section Substitution.
Variable m : match_result.
Variable captureLen : nat.

(** The text a [$n] or [$nn] reference stands for: the capture when the
    index is in range (empty when that group is undefined), the reference
    itself otherwise. *)
Definition reference (index : nat) (ref : JSString) : JSString :=
  if (Nat.leb 1 index && Nat.leb index captureLen)%bool then
    match capture index (groups m) with
    | Some s => s
    | None => []
    end
  else ref.

(** GetSubstitution for a pattern without named groups. *)
Fixpoint getSubstitution (template : JSString) : JSString :=
  match template with
  | [] => []
  | c :: t1 =>
      if negb (cu_eqb c Char.dollar) then c :: getSubstitution t1
      else
        match t1 with
        | [] => [c]
        | d :: t2 =>
            if cu_eqb d Char.dollar then Char.dollar :: getSubstitution t2
            else if cu_eqb d 38%N then matched m ++ getSubstitution t2
            else if cu_eqb d 96%N then before m ++ getSubstitution t2
            else if cu_eqb d 39%N then after m ++ getSubstitution t2
            else if isDigit d then
              let one := reference (digitOf d) [c; d] ++ getSubstitution t2 in
              match t2 with
              | e :: t3 =>
                  if isDigit e then
                    let index := (10 * digitOf d + digitOf e)%nat in
                    if Nat.ltb captureLen index then one
                    else reference index [c; d; e] ++ getSubstitution t3
                  else one
              | [] => one
              end
            else c :: getSubstitution t1
        end
  end.
End Substitution.

(** [s.replace(r, template)] for a pattern [r] without the [g] flag. *)
Definition replace (s : JSString) (r : regex) (template : JSString)
  : JSString :=
  match exec r s with
  | None => s
  | Some m => before m ++ getSubstitution m (groupCount r) template ++ after m
  end.

(* ================================================================== *)
(** ** UTF-8 at the file boundary *)
(* ================================================================== *)

(** [fs.readFileSync(path, "utf-8")] decodes the bytes of the file into
    code units and [fs.writeFileSync(path, text)] encodes the text into
    bytes.  The decoder replaces every ill-formed byte sequence (maximal
    subpart) by U+FFFD and keeps a byte order mark; the encoder writes
    U+FFFD for a surrogate that is not part of a pair.  A file is not in
    general what comes back from reading it and writing the text. *)
Module UTF8.
Local Open Scope N_scope.

Definition byte : Type := N.

Definition replacement : codeunit := 65533.
Definition replacementBytes : list byte := [239; 191; 189].

Definition isHighSurrogate (c : codeunit) : bool := in_range 55296 56319 c.
Definition isLowSurrogate (c : codeunit) : bool := in_range 56320 57343 c.

(** The code units of a code point. *)
Definition utf16 (cp : N) : JSString :=
  if cp <? 65536 then [cp]
  else [55296 + (cp - 65536) / 1024; 56320 + (cp - 65536) mod 1024].

(** The bytes of a code point. *)
Definition utf8 (cp : N) : list byte :=
  if cp <? 128 then [cp]
  else if cp <? 2048 then [192 + cp / 64; 128 + cp mod 64]
  else if cp <? 65536 then
    [224 + cp / 4096; 128 + (cp / 64) mod 64; 128 + cp mod 64]
  else
    [240 + cp / 262144; 128 + (cp / 4096) mod 64; 128 + (cp / 64) mod 64;
     128 + cp mod 64].

(** The bounds of the byte that follows a lead byte. *)
Definition lower (lead : byte) : N :=
  if lead =? 224 then 160 else if lead =? 240 then 144 else 128.
Definition upper (lead : byte) : N :=
  if lead =? 237 then 159 else if lead =? 244 then 143 else 191.

Fixpoint decode (bytes : list byte) : JSString :=
  match bytes with
  | [] => []
  | b0 :: r0 =>
      if b0 <? 128 then b0 :: decode r0
      else if in_range 194 223 b0 then
        match r0 with
        | [] => [replacement]
        | b1 :: r1 =>
            if in_range 128 191 b1 then
              ((b0 - 192) * 64 + (b1 - 128)) :: decode r1
            else replacement :: decode r0
        end
      else if in_range 224 239 b0 then
        match r0 with
        | [] => [replacement]
        | b1 :: r1 =>
            if in_range (lower b0) (upper b0) b1 then
              match r1 with
              | [] => [replacement]
              | b2 :: r2 =>
                  if in_range 128 191 b2 then
                    ((b0 - 224) * 4096 + (b1 - 128) * 64 + (b2 - 128))
                      :: decode r2
                  else replacement :: decode r1
              end
            else replacement :: decode r0
        end
      else if in_range 240 244 b0 then
        match r0 with
        | [] => [replacement]
        | b1 :: r1 =>
            if in_range (lower b0) (upper b0) b1 then
              match r1 with
              | [] => [replacement]
              | b2 :: r2 =>
                  if in_range 128 191 b2 then
                    match r2 with
                    | [] => [replacement]
                    | b3 :: r3 =>
                        if in_range 128 191 b3 then
                          utf16 ((b0 - 240) * 262144 + (b1 - 128) * 4096
                                 + (b2 - 128) * 64 + (b3 - 128))
                            ++ decode r3
                        else replacement :: decode r2
                    end
                  else replacement :: decode r1
              end
            else replacement :: decode r0
        end
      else replacement :: decode r0
  end.

Fixpoint encode (s : JSString) : list byte :=
  match s with
  | [] => []
  | c :: t =>
      if isHighSurrogate c then
        match t with
        | d :: t' =>
            if isLowSurrogate d then
              utf8 (65536 + (c - 55296) * 1024 + (d - 56320)) ++ encode t'
            else replacementBytes ++ encode t
        | [] => replacementBytes
        end
      else if isLowSurrogate c then replacementBytes ++ encode t
      else utf8 c ++ encode t
  end.

(** Unicode scalar values, and the byte sequences that are the UTF-8 form
    of a sequence of them. *)
Definition isScalar (cp : N) : bool :=
  ((cp <? 55296) || in_range 57344 1114111 cp)%bool.

Definition valid (bytes : list byte) : Prop :=
  exists cps, forallb isScalar cps = true /\ bytes = flat_map utf8 cps.

(** Strings in which every surrogate is part of a pair. *)
Fixpoint wellFormed (s : JSString) : bool :=
  match s with
  | [] => true
  | c :: t =>
      if isHighSurrogate c then
        match t with
        | d :: t' => (isLowSurrogate d && wellFormed t')%bool
        | [] => false
        end
      else (negb (isLowSurrogate c) && (c <? 65536) && wellFormed t)%bool
  end.

End UTF8.

(* ================================================================== *)
(** ** The project tree and the effects of a script *)
(* ================================================================== *)

(** A JSON file is held as the value [JSON.parse] reads from it; text that
    [JSON.parse] rejects is [Malformed].  (sync.ts and postinstall.ts trim
    the text before parsing it, which changes nothing for a text that
    parses; a text that parses only once trimmed, one that begins with a
    byte order mark say, is left out.)  Cargo.toml, which is edited as
    text, is held as the bytes of the file. *)
Inductive jsonFile : Type :=
| Parsed (v : value)
| Malformed.

Inductive level : Type := LogInfo | LogWarn | LogError.

(** The files the scripts touch ([None]: the file does not exist), what the
    version-control tool answers, and the console. *)
Record world : Type := World {
  projectVersionJson : option jsonFile;   (* project-version.json *)
  packageJson : option jsonFile;          (* package.json *)
  cargoToml : option (list UTF8.byte);    (* Cargo.toml *)
  gitRevParseHead : option JSString;      (* stdout of git rev-parse HEAD *)
  binDir : list (JSString * Z * JSString);  (* out-tsc/bin: name, mode, data *)
  console : list (level * JSString)
}.

Inductive exn : Type :=
| ENOENT
| EACCES
| SyntaxError
| TypeError
| Error (message : JSString).

(** How a script stops: it returns, an exception escapes, or it calls
    [process.exit]. *)
Inductive outcome (A : Type) : Type :=
| Returned (a : A)
| Thrown (e : exn)
| Exited (code : Z).
Arguments Returned {A} a.
Arguments Thrown {A} e.
Arguments Exited {A} code.

Definition M (A : Type) : Type := world -> outcome A * world.

Definition ret {A} (a : A) : M A := fun w => (Returned a, w).

Definition bind {A B} (c : M A) (f : A -> M B) : M B :=
  fun w =>
    match c w with
    | (Returned a, w') => f a w'
    | (Thrown e, w') => (Thrown e, w')
    | (Exited n, w') => (Exited n, w')
    end.

Declare Scope script_scope.
Delimit Scope script_scope with script.
Notation "x <- c ;; k" := (bind c (fun x => k))
  (at level 61, c at next level, right associativity) : script_scope.
Notation "c ;;; k" := (bind c (fun _ => k))
  (at level 61, right associativity) : script_scope.
Local Open Scope script_scope.

Definition throw {A} (e : exn) : M A := fun w => (Thrown e, w).
Definition process_exit {A} (code : Z) : M A := fun w => (Exited code, w).

(** [try c catch handler]. *)
Definition try_catch {A} (c : M A) (handler : exn -> M A) : M A :=
  fun w =>
    match c w with
    | (Thrown e, w') => handler e w'
    | r => r
    end.

Definition log (l : level) (msg : JSString) : M unit :=
  fun w =>
    (Returned tt,
     World (projectVersionJson w) (packageJson w) (cargoToml w)
           (gitRevParseHead w) (binDir w) (console w ++ [(l, msg)])).

(** [JSON.parse(fs.readFileSync(path, "utf-8"))]. *)
Definition readJson (file : world -> option jsonFile) : M value :=
  fun w =>
    match file w with
    | None => (Thrown ENOENT, w)
    | Some Malformed => (Thrown SyntaxError, w)
    | Some (Parsed v) => (Returned v, w)
    end.

(** [fs.writeFileSync(path, JSON.stringify(v, null, 2))]; writing a file
    of the project tree is taken to succeed. *)
Definition writeProjectVersion (v : value) : M unit :=
  fun w =>
    (Returned tt,
     World (Some (Parsed (jsonValue v))) (packageJson w) (cargoToml w)
           (gitRevParseHead w) (binDir w) (console w)).

Definition writePackageJson (v : value) : M unit :=
  fun w =>
    (Returned tt,
     World (projectVersionJson w) (Some (Parsed (jsonValue v))) (cargoToml w)
           (gitRevParseHead w) (binDir w) (console w)).

(** [fs.readFileSync(cargoPath, "utf-8")]. *)
Definition readCargoToml : M JSString :=
  fun w =>
    match cargoToml w with
    | None => (Thrown ENOENT, w)
    | Some bytes => (Returned (UTF8.decode bytes), w)
    end.

(** [fs.writeFileSync(cargoPath, s)]. *)
Definition writeCargoToml (s : JSString) : M unit :=
  fun w =>
    (Returned tt,
     World (projectVersionJson w) (packageJson w) (Some (UTF8.encode s))
           (gitRevParseHead w) (binDir w) (console w)).

(** [execSync("git rev-parse HEAD").toString()]: throws when the command
    fails. *)
Definition execGitRevParseHead : M JSString :=
  fun w =>
    match gitRevParseHead w with
    | None => (Thrown (Error (str "Command failed: git rev-parse HEAD")), w)
    | Some out => (Returned out, w)
    end.

(** [o.k] for the property names the scripts read ([version], [build]):
    reading from [null] or [undefined] throws, primitives and arrays have
    no such property. *)
Definition getProp (o : value) (k : JSString) : M value :=
  match o with
  | VUndefined | VNull => throw TypeError
  | VObj props =>
      ret (match lookup k props with Some v => v | None => VUndefined end)
  | _ => ret VUndefined
  end.

(** [o.k = v] in strict mode: only objects take the property; a named
    property put on an array is not serialised, so the array is unchanged
    as far as the file written from it goes. *)
Definition setProp (o : value) (k : JSString) (v : value) : M value :=
  match o with
  | VObj props => ret (VObj (assign k v props))
  | VArr items => ret (VArr items)
  | _ => throw TypeError
  end.

(** [v.match(r)] for a pattern [r] without the [g] flag: [v] has the method
    only when it is a string. *)
Definition js_match (v : value) (r : regex) : M (option match_result) :=
  match v with
  | VStr s => ret (exec r s)
  | _ => throw TypeError
  end.

(** The i-th element of the match array. *)
Definition group (i : nat) (m : match_result) : value :=
  match capture i (groups m) with
  | Some s => VStr s
  | None => VUndefined
  end.

(** [+v] where [v] is an element of the match array of [versionRegex]:
    a string of decimal digits, or [undefined]. *)
Definition unaryPlus (v : value) : Number :=
  match v with
  | VStr s => ofDigits s
  | _ => NaN
  end.

(* ================================================================== *)
(** ** scripts/version/bump.ts *)
(* ================================================================== *)

Definition invalidVersionFormat : exn :=
  Error (str "Invalid version format in project-version.json").

Definition bumpVersion (bumpType : JSString) : M JSString :=
  versionData <- readJson projectVersionJson ;;
  version <- getProp versionData (str "version") ;;
  matchResult <- js_match version versionRegex ;;
  match matchResult with
  | None => throw invalidVersionFormat
  | Some m =>
      (match bumpType with
       | [] =>
           log LogError
             (10060%N ::
              str " Please specify a version type (major, minor, patch)") ;;;
           process_exit 1
       | _ :: _ => ret tt
       end) ;;;
      let major := group 1 m in
      let minor := group 2 m in
      let patch := group 3 m in
      nextVersion <-
        (if jsstr_eqb bumpType (str "major") then
           ret (toString (add (unaryPlus major) (Fin 1)) ++ str ".0.0")
         else if jsstr_eqb bumpType (str "minor") then
           ret (toStringV major ++ str "."
                ++ toString (add (unaryPlus minor) (Fin 1)) ++ str ".0")
         else if jsstr_eqb bumpType (str "patch") then
           ret (toStringV major ++ str "." ++ toStringV minor ++ str "."
                ++ toString (add (unaryPlus patch) (Fin 1)))
         else
           log LogError
             (10060%N ::
              str " Version type non-recognized (major, minor, patch)") ;;;
           process_exit 1) ;;
      versionData' <- setProp versionData (str "version") (VStr nextVersion) ;;
      writeProjectVersion versionData' ;;;
      ret nextVersion
  end.

(* ================================================================== *)
(** ** scripts/version/fetch.ts *)
(* ================================================================== *)

Definition fetchVersion : M unit :=
  data <- readJson projectVersionJson ;;
  build <- getProp data (str "build") ;;
  data <- setProp data (str "build")
            (js_add (js_or build (VNum (Fin 0))) (VNum (Fin 1))) ;;
  data <- try_catch
            (out <- execGitRevParseHead ;;
             setProp data (str "lastCommit") (VStr (trim out)))
            (fun _ =>
               log LogWarn
                 (9888%N :: 65039%N ::
                  str " Unable to fetch git commit hash."
                  ++ str " Ensure you are in a git repository.") ;;;
               ret data) ;;
  writeProjectVersion data.

(* ================================================================== *)
(** ** scripts/version/sync.ts *)
(* ================================================================== *)

(** The replacement template [`$1${versionString}$2`] and the text written
    back to Cargo.toml. *)
Definition cargoTemplate (versionString : value) : JSString :=
  str "$1" ++ toStringV versionString ++ str "$2".

Definition updatedCargo (cargoToml : JSString) (versionString : value)
  : JSString :=
  replace cargoToml cargoVersionRegex (cargoTemplate versionString).

Definition syncVersion : M unit :=
  record <- readJson projectVersionJson ;;
  versionString <- getProp record (str "version") ;;
  (* package.json *)
  pkgJson <- readJson packageJson ;;
  pkgJson <- setProp pkgJson (str "version") versionString ;;
  writePackageJson pkgJson ;;;
  (* Cargo.toml *)
  cargo <- readCargoToml ;;
  writeCargoToml (updatedCargo cargo versionString).

(** [`${error}`] in the report of the release command: the name of the
    exception and, for an [Error] thrown by the scripts, its message (the
    wording of the runtime's own messages is left out). *)
Definition describe (e : exn) : JSString :=
  match e with
  | ENOENT => str "Error: ENOENT"
  | EACCES => str "Error: EACCES"
  | SyntaxError => str "SyntaxError"
  | TypeError => str "TypeError"
  | Error message => str "Error: " ++ message
  end.

(** The release command (the entry script importing bump, sync and fetch):
    bump, stamp, synchronise; any exception is reported and ends the
    process with status 1. *)
Definition release (argv2 : option JSString) : M unit :=
  let bumpType := match argv2 with
                  | Some (c :: t) => c :: t
                  | _ => str "patch"
                  end in
  try_catch
    (newVersion <- bumpVersion bumpType ;;
     fetchVersion ;;;
     syncVersion ;;;
     log LogInfo (9989%N :: str " Project version updated to : " ++ newVersion))
    (fun error =>
       log LogError
         (10060%N :: str " Error updating project version: "
          ++ describe error) ;;;
       process_exit 1).

(* ================================================================== *)
(** ** scripts/postinstall.ts *)
(* ================================================================== *)

(** What the request made by [https.get] comes to: a response whose body
    arrives in full; a response of which the status line arrives and then
    only a part of the body, the connection being lost during the
    transfer (the response is destroyed and never ends); or an [error]
    event of the request, before any response. *)
Inductive httpEvent : Type :=
| Response (statusCode : Z) (body : JSString)
| Truncated (statusCode : Z) (received : JSString)
| RequestError (message : JSString).

(** The surroundings of an installation: [process.platform], the path
    [join(destDir, name)] of a file of the destination directory, whether
    that directory can be created, and the network. *)
Record installEnv : Type := InstallEnv {
  platform : JSString;
  destPath : JSString -> JSString;
  mkdirSucceeds : bool;
  httpsGet : JSString -> httpEvent
}.

Definition binaryNameFor (platform : JSString) : JSString :=
  if jsstr_eqb platform (str "win32") then
    str "devapack-x86_64-pc-windows-msvc.exe"
  else if jsstr_eqb platform (str "darwin") then
    str "devapack-x86_64-apple-darwin"
  else if jsstr_eqb platform (str "linux") then
    str "devapack-x86_64-unknown-linux-gnu"
  else [].

Definition downloadUrl (versionString : value) (binaryName : JSString)
  : JSString :=
  str "https://github.com/devaloop-labs/devapack/releases/download/v"
    ++ toStringV versionString ++ str "/" ++ binaryName.

(** [mkdirSync(destDir, { recursive: true })]. *)
Definition mkdirSync (e : installEnv) : M unit :=
  if mkdirSucceeds e then ret tt else throw EACCES.

(** [createWriteStream(dest, { mode: 0o755 })] fed from the response: the
    mode is given to a file that is created, an existing file keeps its
    own and is overwritten.  Writing into the directory just created is
    taken to succeed. *)
Fixpoint store (name : JSString) (data : JSString)
  (dir : list (JSString * Z * JSString)) : list (JSString * Z * JSString) :=
  match dir with
  | [] => [(name, 493, data)]
  | (n, mode, old) :: rest =>
      if jsstr_eqb name n then (n, mode, data) :: rest
      else (n, mode, old) :: store name data rest
  end.

Definition pipeToFile (name : JSString) (data : JSString) : M unit :=
  fun w =>
    (Returned tt,
     World (projectVersionJson w) (packageJson w) (cargoToml w)
           (gitRevParseHead w) (store name data (binDir w)) (console w)).

(** The callback given to [https.get].  With status 200 what arrives of
    the body is piped into the file; the notice is printed by the [finish]
    listener of the file, that is only when the response has ended.  No
    listener is attached to the [error] or [aborted] events of the
    response, nor to the [error] event of the file: a transfer that is cut
    leaves what was [received] in the file and prints nothing. *)
Definition onResponse (e : installEnv) (binaryName : JSString)
  (statusCode : Z) (received : JSString) (ended : bool) : M unit :=
  if statusCode =? 404 then
    log LogWarn
      (9888%N :: 65039%N ::
       str "  Asset not found (HTTP 404). Skipping binary download.")
  else if negb (statusCode =? 200) then
    log LogError
      (10060%N :: str " Failed (HTTP " ++ toString (Fin statusCode)
       ++ str "). Skipping binary download.")
  else
    pipeToFile binaryName received ;;;
    if ended then
      log LogInfo
        (9989%N :: str " Downloaded " ++ binaryName ++ str " to "
         ++ destPath e binaryName)
    else ret tt.

(** The [error] listener of the request. *)
Definition onError (message : JSString) : M unit :=
  log LogError
    (10060%N :: str " Error: " ++ message
     ++ str ". Skipping binary download.").

Definition postinstall (e : installEnv) : M unit :=
  record <- readJson projectVersionJson ;;
  versionString <- getProp record (str "version") ;;
  let binaryName := binaryNameFor (platform e) in
  match binaryName with
  | _ :: _ =>
      let url := downloadUrl versionString binaryName in
      mkdirSync e ;;;
      log LogInfo
        (11015%N :: 65039%N :: str "  Downloading " ++ binaryName
         ++ str " from " ++ url) ;;;
      match httpsGet e url with
      | Response statusCode body =>
          onResponse e binaryName statusCode body true
      | Truncated statusCode received =>
          onResponse e binaryName statusCode received false
      | RequestError message => onError message
      end
  | [] =>
      log LogError (10060%N :: str " Unsupported platform: " ++ platform e)
  end.

(** The exit status of the process running a script to its end. *)
Definition exitStatus {A} (o : outcome A) : Z :=
  match o with
  | Returned _ => 0
  | Thrown _ => 1
  | Exited code => code
  end.

(* ================================================================== *)
(** ** scripts/version/copy-to-binary.ts *)
(* ================================================================== *)

(** The parts of Node's [path], [fs] and [process] modules the relocator
    calls. *)
Class NodeEnv : Type := {
  path_resolve : JSString -> JSString;
  path_dirname : JSString -> JSString;
  path_extname : JSString -> JSString;
  path_join : JSString -> JSString -> JSString;
  existsSync : JSString -> bool;
  isFile : JSString -> bool;              (* fs.statSync(p).isFile() *)
  process_cwd : JSString;
  defaultSource : JSString;    (* <__dirname>/../../../project-version.json *)
  mkdirSyncOk : JSString -> bool;                 (* false: mkdirSync throws *)
  copyFileSyncOk : JSString -> JSString -> bool   (* false: it throws *)
}.

Module Relocator.

(** The three flag variables; [None] is [undefined]. *)
Record flags : Type := Flags {
  sourceArg : option JSString;
  binaryArg : option JSString;
  outDirArg : option JSString
}.

(** The flag loop: [argv[++i]] is [undefined] past the end of the
    vector; [--help] and an unknown flag end the process at once. *)
Fixpoint parseArgs (argv : list JSString) (f : flags) : Z + flags :=
  match argv with
  | [] => inr f
  | a :: rest =>
      let take (set : option JSString -> flags) :=
        match rest with
        | v :: rest' => parseArgs rest' (set (Some v))
        | [] => inr (set None)
        end in
      if jsstr_eqb a (str "--source") then
        take (fun v => Flags v (binaryArg f) (outDirArg f))
      else if jsstr_eqb a (str "--binary") then
        take (fun v => Flags (sourceArg f) v (outDirArg f))
      else if jsstr_eqb a (str "--out-dir") then
        take (fun v => Flags (sourceArg f) (binaryArg f) v)
      else if (jsstr_eqb a (str "--help") || jsstr_eqb a (str "-h"))%bool
      then inl 0
      else inl 1
  end.

(** Truthiness of a [string | undefined] or [string | null] variable. *)
Definition given (a : option JSString) : option JSString :=
  match a with
  | Some (c :: t) => Some (c :: t)
  | _ => None
  end.

Section WithNode.
Context {node : NodeEnv}.

(** Lines 42-63: the destination directory ([None] is [null]). *)
Definition destDirOf (f : flags) : option JSString :=
  match given (binaryArg f) with
  | Some binaryArg =>
      let binPath := path_resolve binaryArg in
      if (existsSync binPath && isFile binPath)%bool then
        Some (path_dirname binPath)
      else
        match path_extname binPath with
        | _ :: _ => Some (path_dirname binPath)
        | [] => Some binPath
        end
  | None =>
      match given (outDirArg f) with
      | Some outDirArg => Some (path_resolve outDirArg)
      | None => Some process_cwd
      end
  end.

(** The whole script: its exit status and the copy it made, if any (what
    it prints is left out). *)
Definition relocate (argv : list JSString)
  : Z * option (JSString * JSString) :=
  match parseArgs argv (Flags None None None) with
  | inl code => (code, None)
  | inr f =>
      let sourcePath := match given (sourceArg f) with
                        | Some s => path_resolve s
                        | None => defaultSource
                        end in
      if negb (existsSync sourcePath) then (2, None)
      else
        match given (destDirOf f) with
        | None => (3, None)
        | Some destDir =>
            if (negb (existsSync destDir) && negb (mkdirSyncOk destDir))%bool
            then (4, None)
            else
              let destPath := path_join destDir (str "project-version.json") in
              if copyFileSyncOk sourcePath destPath
              then (0, Some (sourcePath, destPath))
              else (4, None)
        end
  end.
End WithNode.

End Relocator.
Import Relocator.

(* ================================================================== *)
(** ** The launcher (the executable entry of the package) *)
(* ================================================================== *)

(** What [spawn(binaryPath, args, { stdio: "inherit" })] comes to: the
    child exits, with a code or with [null] when a signal ended it, or it
    could not be started (an [error] event, for which the script has no
    listener). *)
Inductive childEvent : Type :=
| ChildExit (code : option Z)
| ChildError (e : exn).

(** The surroundings of a launch: [process.platform], the path
    [path.join(__dirname, name)] and the operating system's answer to
    [spawn]. *)
Record launchEnv : Type := LaunchEnv {
  launchPlatform : JSString;
  binaryPathOf : JSString -> JSString;
  spawn : JSString -> list JSString -> childEvent
}.

Definition launcher (e : launchEnv) (args : list JSString) : M unit :=
  binaryName <-
    (if jsstr_eqb (launchPlatform e) (str "win32") then
       ret (str "devapack-x86_64-pc-windows-msvc.exe")
     else if jsstr_eqb (launchPlatform e) (str "darwin") then
       ret (str "devapack-x86_64-apple-darwin")
     else if jsstr_eqb (launchPlatform e) (str "linux") then
       ret (str "devapack-x86_64-unknown-linux-gnu")
     else
       log LogError (str "Unsupported platform: " ++ launchPlatform e) ;;;
       process_exit 1) ;;
  match spawn e (binaryPathOf e binaryName) args with
  | ChildExit (Some code) => process_exit code
  | ChildExit None => process_exit 1
  | ChildError err => throw err
  end.

(* ================================================================== *)
(** ** Vocabulary of the specification and auxiliary functions *)
(* ================================================================== *)

(** *** Auxiliary notions on strings and continuations *)

(** The rest of a [span] is empty or begins outside the class. *)
Definition stops (p : codeunit -> bool) (s : JSString) : Prop :=
  match s with
  | [] => True
  | c :: _ => p c = false
  end.

(** A continuation that fails on every input beginning in the class. *)
Definition rejects {R : Type} (p : codeunit -> bool) (k : cont R) : Prop :=
  forall n a t c, p a = true -> k (n, a :: t) c = None.

Fixpoint stripPrefix (p s : JSString) : option JSString :=
  match p with
  | [] => Some s
  | a :: p' =>
      match s with
      | b :: s' => if cu_eqb a b then stripPrefix p' s' else None
      | [] => None
      end
  end.

(** A literal word in front of a pattern. *)
Fixpoint litSeq (p : JSString) (r : regex) : regex :=
  match p with
  | [] => r
  | a :: p' => Seq (Chr a) (litSeq p' r)
  end.

(** *** The grammar of versions

    As the pattern of bump.ts has it, MAJOR.MINOR.PATCH[-PRERELEASE]:
    three non-empty strings of digits and, optionally, a dash and a
    non-empty tag of word characters (ASCII letters, digits and the
    underscore) and dots, in any arrangement. *)
Definition numeral (s : JSString) : Prop :=
  s <> [] /\ forallb isDigit s = true.

Definition prereleaseTag (s : JSString) : Prop :=
  s <> [] /\ forallb isWordOrDot s = true.

Definition suffixOf (pre : option JSString) : JSString :=
  match pre with
  | Some p => Char.dash :: p
  | None => []
  end.

Definition VersionGrammar (s major minor patch : JSString)
  (pre : option JSString) : Prop :=
  numeral major /\ numeral minor /\ numeral patch
  /\ match pre with Some p => prereleaseTag p | None => True end
  /\ s = major ++ [Char.dot] ++ minor ++ [Char.dot] ++ patch ++ suffixOf pre.

(** In the words of the specification, PRERELEASE is a dot-separated
    alphanumeric tag: identifiers of ASCII letters and digits, none of
    them empty, with single dots between them. *)
Definition isAlphanumeric (c : codeunit) : bool :=
  (in_range 97%N 122%N c || in_range 65%N 90%N c || isDigit c)%bool.

Fixpoint splitOn (sep : codeunit) (s : JSString) : list JSString :=
  match s with
  | [] => [[]]
  | c :: t =>
      if cu_eqb c sep then [] :: splitOn sep t
      else
        match splitOn sep t with
        | h :: r => (c :: h) :: r
        | [] => [[c]]
        end
  end.

Definition identifier (s : JSString) : bool :=
  match s with
  | [] => false
  | _ :: _ => forallb isAlphanumeric s
  end.

Definition specPrereleaseTag (s : JSString) : Prop :=
  forallb identifier (splitOn Char.dot s) = true.

Definition SpecVersionGrammar (s major minor patch : JSString)
  (pre : option JSString) : Prop :=
  numeral major /\ numeral minor /\ numeral patch
  /\ match pre with Some p => specPrereleaseTag p | None => True end
  /\ s = major ++ [Char.dot] ++ minor ++ [Char.dot] ++ patch ++ suffixOf pre.

(** The characters a version of the grammar is made of. *)
Definition versionChar (c : codeunit) : bool :=
  (isWordOrDot c || cu_eqb c Char.dash)%bool.

(** A version string in which [$] does not occur (every string of the
    grammar is one). *)
Definition dollarFree (s : JSString) : Prop :=
  forallb (fun c => negb (cu_eqb c Char.dollar)) s = true.

(** *** The version assignment of the text manifest, declaratively

    A [version = Q...Q] assignment (Q the double-quote character): the key,
    optional white space around the equals sign, and a value span free of
    quotes between two quotes.  [FirstAssignment doc pre g1 val post] says
    that the first such assignment of [doc] starts after [pre], has the
    head [g1] (key, equals sign, opening quote) and the value span [val],
    and is followed, after the closing quote, by [post]. *)
Definition versionKey : JSString := str "version".

Definition AssignmentHead (g1 : JSString) : Prop :=
  exists ws1 ws2,
    forallb isWhiteSpace ws1 = true /\ forallb isWhiteSpace ws2 = true
    /\ g1 = versionKey ++ ws1 ++ [Char.equals] ++ ws2 ++ [Char.quote].

Definition AssignmentAt (doc pre g1 val post : JSString) : Prop :=
  doc = pre ++ g1 ++ val ++ [Char.quote] ++ post
  /\ AssignmentHead g1
  /\ forallb isNotQuote val = true.

Definition FirstAssignment (doc pre g1 val post : JSString) : Prop :=
  AssignmentAt doc pre g1 val post
  /\ forall pre' g1' val' post',
       AssignmentAt doc pre' g1' val' post' -> (length pre <= length pre')%nat.

Definition NoAssignment (doc : JSString) : Prop :=
  forall pre g1 val post, ~ AssignmentAt doc pre g1 val post.

(** *** The two patterns read off directly

    What the backtracking matcher computes on [versionRegex] and on
    [cargoVersionRegex], written as plain list functions; the matcher is
    proved equal to them below. *)
Definition versionCaptures (a b c : JSString) (pre : option JSString)
  : captures :=
  match pre with
  | Some x => [(4, x); (3, c); (2, b); (1, a)]%nat
  | None => [(3, c); (2, b); (1, a)]%nat
  end.

Definition parseVersion (s : JSString)
  : option (JSString * JSString * JSString * option JSString) :=
  let (a, r1) := span isDigit s in
  match a, r1 with
  | _ :: _, c1 :: r1' =>
      if cu_eqb Char.dot c1 then
        let (b, r2) := span isDigit r1' in
        match b, r2 with
        | _ :: _, c2 :: r2' =>
            if cu_eqb Char.dot c2 then
              let (c, r3) := span isDigit r2' in
              match c, r3 with
              | [], _ => None
              | _ :: _, [] => Some (a, b, c, None)
              | _ :: _, d :: r3' =>
                  if cu_eqb Char.dash d then
                    let (pre, r4) := span isWordOrDot r3' in
                    match pre, r4 with
                    | _ :: _, [] => Some (a, b, c, Some pre)
                    | _, _ => None
                    end
                  else None
              end
            else None
        | _, _ => None
        end
      else None
  | _, _ => None
  end.

Definition assignmentAt (s : JSString)
  : option (JSString * JSString * JSString) :=
  match stripPrefix versionKey s with
  | None => None
  | Some r0 =>
      let (ws1, r1) := span isWhiteSpace r0 in
      match r1 with
      | c :: r1' =>
          if cu_eqb Char.equals c then
            let (ws2, r2) := span isWhiteSpace r1' in
            match r2 with
            | q :: r2' =>
                if cu_eqb Char.quote q then
                  let (val, r3) := span isNotQuote r2' in
                  match r3 with
                  | _ :: post =>
                      Some (versionKey ++ ws1 ++ [Char.equals] ++ ws2
                              ++ [Char.quote], val, post)
                  | [] => None
                  end
                else None
            | [] => None
            end
          else None
      | [] => None
      end
  end.

Fixpoint findAssignment (pre s : JSString)
  : option (JSString * JSString * JSString * JSString) :=
  match assignmentAt s with
  | Some (g1, val, post) => Some (pre, g1, val, post)
  | None =>
      match s with
      | [] => None
      | a :: t => findAssignment (pre ++ [a]) t
      end
  end.

Definition cargoMatch (pre g1 val post : JSString) : match_result :=
  MatchResult pre (g1 ++ val ++ [Char.quote]) post
    [(2%nat, [Char.quote]); (1%nat, g1)].

(** *** The version record *)

(** A field of the record, its version string, and the [version] field of
    package.json. *)
Definition propsOf (v : value) : list (JSString * value) :=
  match v with
  | VObj props => props
  | _ => []
  end.

Definition recordField (k : JSString) (w : world) : option value :=
  match projectVersionJson w with
  | Some (Parsed (VObj props)) => lookup k props
  | _ => None
  end.

Definition recordVersion (w : world) : option JSString :=
  match recordField (str "version") w with
  | Some (VStr v) => Some v
  | _ => None
  end.

Definition packageVersion (w : world) : option value :=
  match packageJson w with
  | Some (Parsed (VObj props)) => lookup (str "version") props
  | _ => None
  end.

(** *** Bumping, as the specification words it *)

Inductive bumpKind : Type := Major | Minor | Patch.

Definition kindName (k : bumpKind) : JSString :=
  match k with
  | Major => str "major"
  | Minor => str "minor"
  | Patch => str "patch"
  end.

(** The numeral of the successor of the integer a numeral denotes. *)
Definition successor (numeral : JSString) : JSString :=
  decimal (digitsValue numeral + 1).

(** The component a bump increments, and the next release version:
    (MAJOR+1).0.0, MAJOR.(MINOR+1).0 or MAJOR.MINOR.(PATCH+1). *)
Definition bumped (k : bumpKind) (major minor patch : JSString) : JSString :=
  match k with
  | Major => major
  | Minor => minor
  | Patch => patch
  end.

Definition nextRelease (k : bumpKind) (major minor patch : JSString)
  : JSString :=
  match k with
  | Major => successor major ++ str ".0.0"
  | Minor => major ++ str "." ++ successor minor ++ str ".0"
  | Patch => major ++ str "." ++ minor ++ str "." ++ successor patch
  end.

(** *** Stamping *)

(** The build counter a record holds before stamping: an absent or
    undefined field counts as 0. *)
Definition fieldOrUndefined (f : option value) : value :=
  match f with
  | Some v => v
  | None => VUndefined
  end.

Definition priorBuild (field : option value) : option Z :=
  match field with
  | None | Some VUndefined => Some 0
  | Some (VNum (Fin b)) => Some b
  | _ => None
  end.

(** [(data.build || 0) + 1]. *)
Definition stampedBuild (build : value) : value :=
  js_add (js_or build (VNum (Fin 0))) (VNum (Fin 1)).

(** *** Provisioning *)

(** The outcomes of the request that the specification calls network
    failures: a 404, any other status outside 2xx, a transport or
    connection failure (before a response, or during its transfer). *)
Definition networkFailure (ev : httpEvent) : Prop :=
  match ev with
  | Response statusCode _ => statusCode = 404 \/ ~ (200 <= statusCode < 300)
  | Truncated _ _ => True
  | RequestError _ => True
  end.

(** Those of them the script has a branch or a listener for: a status 404
    or outside 2xx, whether or not the body then arrives, and an error of
    the request before any response. *)
Definition handledFailure (ev : httpEvent) : Prop :=
  match ev with
  | Response statusCode _ | Truncated statusCode _ =>
      statusCode = 404 \/ ~ (200 <= statusCode < 300)
  | RequestError _ => True
  end.

(** A warning or an error. *)
Definition reported (l : level) : Prop := l = LogWarn \/ l = LogError.

(** *** Relocation *)

Definition noFlags : flags := Flags None None None.

Section RelocatorRule.
Context {node : NodeEnv}.

(** The resolution rule of the specification for a path given as the
    binary location. *)
Definition destinationRule (binary : JSString) : JSString :=
  let binPath := path_resolve binary in
  if (existsSync binPath && isFile binPath)%bool then path_dirname binPath
  else
    match path_extname binPath with
    | [] => binPath
    | _ :: _ => path_dirname binPath
    end.
End RelocatorRule.

(** *** Further vocabulary: JSON values, files, messages, command lines *)

(** The values [JSON.parse] can produce: no [undefined] anywhere, and
    only finite Numbers. *)
Fixpoint isJson (v : value) : bool :=
  match v with
  | VUndefined => false
  | VNum (Fin _) => true
  | VNum _ => false
  | VArr items => forallb isJson items
  | VObj props => forallb (fun p => isJson (snd p)) props
  | _ => true
  end.

(** An object as [JSON.parse] builds it has each key once. *)
Definition uniqueKeys (props : list (JSString * value)) : Prop :=
  NoDup (map fst props).

(** A field of package.json. *)
Definition packageField (k : JSString) (w : world) : option value :=
  match packageJson w with
  | Some (Parsed (VObj props)) => lookup k props
  | _ => None
  end.

(** The content of a file of the destination directory. *)
Fixpoint fileData (name : JSString) (dir : list (JSString * Z * JSString))
  : option JSString :=
  match dir with
  | [] => None
  | (n, _, data) :: rest =>
      if jsstr_eqb name n then Some data else fileData name rest
  end.

(** A string that neither begins nor ends with white space. *)
Definition trimmed (s : JSString) : Prop :=
  stops isWhiteSpace s /\ stops isWhiteSpace (rev s).

(** The project tree after [n] successive stampings. *)
Definition stampings (n : nat) (w : world) : world :=
  Nat.iter n (fun w' => snd (fetchVersion w')) w.

(** The lines the scripts print. *)
Definition gitWarning : JSString :=
  9888%N :: 65039%N ::
  str " Unable to fetch git commit hash."
  ++ str " Ensure you are in a git repository.".

Definition releaseNotice (newVersion : JSString) : JSString :=
  9989%N :: str " Project version updated to : " ++ newVersion.

Definition releaseFailure (e : exn) : JSString :=
  10060%N :: str " Error updating project version: " ++ describe e.

Definition downloadNotice (e : installEnv) (binaryName : JSString)
  : JSString :=
  9989%N :: str " Downloaded " ++ binaryName ++ str " to "
  ++ destPath e binaryName.

(** The bump kind the release command works with:
    [process.argv[2] || "patch"]. *)
Definition bumpTypeOf (argv2 : option JSString) : JSString :=
  match argv2 with
  | Some (c :: t) => c :: t
  | _ => str "patch"
  end.

(** The command line asks for a bump of the given kind: by name, or for
    [patch] by giving no kind (or an empty one). *)
Definition requested (argv2 : option JSString) (kind : bumpKind) : Prop :=
  argv2 = Some (kindName kind)
  \/ (kind = Patch /\ (argv2 = None \/ argv2 = Some [])).

(** The numbers a release version denotes, their precedence (major, then
    minor, then patch) and what a bump makes of them. *)
Definition components (major minor patch : JSString) : Z * Z * Z :=
  (digitsValue major, digitsValue minor, digitsValue patch).

Definition precedes (x y : Z * Z * Z) : Prop :=
  match x, y with
  | (a, b, c), (a', b', c') =>
      a < a' \/ (a = a' /\ (b < b' \/ (b = b' /\ c < c')))
  end.

Definition bumpedComponents (k : bumpKind) (x : Z * Z * Z) : Z * Z * Z :=
  match x with
  | (a, b, c) =>
      match k with
      | Major => (a + 1, 0, 0)
      | Minor => (a, b + 1, 0)
      | Patch => (a, b, c + 1)
      end
  end.

(** Command lines of the relocator made of flag/value pairs. *)
Inductive flagName : Type := FSource | FBinary | FOutDir.

Definition flagToken (n : flagName) : JSString :=
  match n with
  | FSource => str "--source"
  | FBinary => str "--binary"
  | FOutDir => str "--out-dir"
  end.

Definition setFlag (n : flagName) (v : option JSString) (f : flags) : flags :=
  match n with
  | FSource => Flags v (binaryArg f) (outDirArg f)
  | FBinary => Flags (sourceArg f) v (outDirArg f)
  | FOutDir => Flags (sourceArg f) (binaryArg f) v
  end.

Fixpoint commandLine (pairs : list (flagName * JSString)) : list JSString :=
  match pairs with
  | [] => []
  | (n, v) :: rest => flagToken n :: v :: commandLine rest
  end.

Definition setFlags (pairs : list (flagName * JSString)) (f : flags) : flags :=
  fold_left (fun g p => setFlag (fst p) (Some (snd p)) g) pairs f.

(** The five arguments the flag loop knows. *)
Definition knownArg (a : JSString) : bool :=
  (jsstr_eqb a (str "--source") || jsstr_eqb a (str "--binary")
   || jsstr_eqb a (str "--out-dir") || jsstr_eqb a (str "--help")
   || jsstr_eqb a (str "-h"))%bool.

Definition recordFileName : JSString := str "project-version.json".

Section RelocatorSource.
Context {node : NodeEnv}.

(** The file the relocator copies: [--source] resolved, or the default
    location. *)
Definition sourcePathOf (f : flags) : JSString :=
  match sourceArg f with
  | Some (c :: t) => path_resolve (c :: t)
  | _ => defaultSource
  end.
End RelocatorSource.

(** *** Sample inputs *)

(** A project tree at version 1.3.0 (build 6) whose manifests are behind,
    and the same tree with a Cargo.toml without version assignment. *)
Definition recordWith (props : list (JSString * value)) : world :=
  World (Some (Parsed (VObj props))) None None None [] [].

Definition sampleCargo : JSString :=
  str "[package]
name = 'devapack'
version = " ++ [Char.quote] ++ str "0.0.1" ++ [Char.quote] ++ str "
edition = '2021'
".

Definition sampleTree : world :=
  World (Some (Parsed (VObj [(str "version", VStr (str "1.3.0"));
                             (str "build", VNum (Fin 6))])))
        (Some (Parsed (VObj [(str "name", VStr (str "devapack"));
                             (str "version", VStr (str "0.0.1"))])))
        (Some (UTF8.encode sampleCargo)) None [] [].

Definition bareCargo : JSString :=
  str "[package]
name = 'devapack'
".

Definition bareTree : world :=
  World (projectVersionJson sampleTree) (packageJson sampleTree)
        (Some (UTF8.encode bareCargo)) None [] [].

(** The same two manifests saved in Latin-1 with an accented letter in a
    closing comment, [# caf] and the byte E9: no valid UTF-8. *)
Definition latin1Comment : list UTF8.byte :=
  UTF8.encode (str "# caf") ++ [233%N; 10%N].

Definition latin1Tree : world :=
  World (projectVersionJson sampleTree) (packageJson sampleTree)
        (Some (UTF8.encode sampleCargo ++ latin1Comment)) None [] [].

Definition latin1BareTree : world :=
  World (projectVersionJson sampleTree) (packageJson sampleTree)
        (Some (UTF8.encode bareCargo ++ latin1Comment)) None [] [].

Definition released : world :=
  recordWith [(str "version", VStr (str "1.3.0")); (str "build", VNum (Fin 6))].

(** A Linux installation whose request comes to the given event. *)
Definition linux (ev : httpEvent) : installEnv :=
  InstallEnv (str "linux") (fun name => str "/pkg/out-tsc/bin/" ++ name)
    true (fun _ => ev).

(** A POSIX-flavoured sample of the Node environment: absolute paths are
    already resolved, relative ones are taken from the working directory
    [/work]; one binary and the version record exist. *)
Module Sample.
Definition slash : codeunit := 47%N.
Definition cwd : JSString := str "/work".

Definition resolve (p : JSString) : JSString :=
  match p with
  | [] => cwd
  | c :: _ => if cu_eqb c slash then p else cwd ++ [slash] ++ p
  end.

(** Everything before the last slash. *)
Definition dirname (p : JSString) : JSString :=
  match rev (snd (span (fun c => negb (cu_eqb c slash)) (rev p))) with
  | [] => str "."
  | [_] => str "/"
  | d => removelast d
  end.

(** The last dot of the last segment and what follows it, unless the
    segment begins with that dot. *)
Definition extname (p : JSString) : JSString :=
  let (ext, rest) :=
    span (fun c => negb (cu_eqb c slash || cu_eqb c Char.dot)) (rev p) in
  match rest with
  | d :: c :: _ =>
      if (cu_eqb d Char.dot && negb (cu_eqb c slash))%bool
      then Char.dot :: rev ext else []
  | _ => []
  end.

Definition files : list JSString :=
  [str "/opt/app/bin/tool"; str "/repo/project-version.json"].
Definition directories : list JSString :=
  [str "/work"; str "/opt/app/bin"; str "/repo"].

#[export] Instance node : NodeEnv := {|
  path_resolve := resolve;
  path_dirname := dirname;
  path_extname := extname;
  path_join := fun a b => a ++ [slash] ++ b;
  existsSync := fun p => existsb (jsstr_eqb p) (files ++ directories);
  isFile := fun p => existsb (jsstr_eqb p) files;
  process_cwd := cwd;
  defaultSource := str "/repo/project-version.json";
  mkdirSyncOk := fun _ => true;
  copyFileSyncOk := fun _ _ => true
|}.
End Sample.

(* ================================================================== *)
(** * Properties *)
(* ================================================================== *)

(** ** Code units and [span] *)

Lemma cu_eqb_eq (a b : codeunit) : cu_eqb a b = true <-> a = b.
Proof. apply N.eqb_eq. Qed.

Lemma cu_eqb_refl (a : codeunit) : cu_eqb a a = true.
Proof. apply N.eqb_refl. Qed.

Lemma jsstr_eqb_eq (a b : JSString) : jsstr_eqb a b = true <-> a = b.
Proof.
  revert b; induction a as [|x a IH]; intros [|y b]; simpl;
    try (split; [discriminate | congruence]); try tauto.
  rewrite andb_true_iff, cu_eqb_eq, IH. split.
  - intros [-> ->]; reflexivity.
  - intros H; injection H; auto.
Qed.

Lemma jsstr_eqb_refl (a : JSString) : jsstr_eqb a a = true.
Proof. apply jsstr_eqb_eq; reflexivity. Qed.

Lemma span_app p s : fst (span p s) ++ snd (span p s) = s.
Proof.
  induction s as [|c t IH]; simpl; auto.
  destruct (p c); simpl; auto.
  destruct (span p t); simpl in *; congruence.
Qed.

Lemma span_all p s : forallb p (fst (span p s)) = true.
Proof.
  induction s as [|c t IH]; simpl; auto.
  destruct (p c) eqn:E; simpl; auto.
  destruct (span p t); simpl in *. now rewrite E.
Qed.

Lemma span_stops p s : stops p (snd (span p s)).
Proof.
  induction s as [|c t IH]; simpl; auto.
  destruct (p c) eqn:E; simpl; auto.
  destruct (span p t); simpl in *; auto.
Qed.

Lemma span_eq p a rest :
  forallb p a = true -> stops p rest -> span p (a ++ rest) = (a, rest).
Proof.
  intros Ha Hr. induction a as [|c a IH]; simpl in *.
  - destruct rest as [|c t]; simpl in *; auto. now rewrite Hr.
  - apply andb_true_iff in Ha as [-> Ha]. now rewrite IH.
Qed.

Lemma firstn_length_app (a b : JSString) n :
  firstn (n + length a - n) (a ++ b) = a.
Proof.
  replace (n + length a - n)%nat with (length a + 0)%nat by lia.
  rewrite firstn_app_2. simpl. apply app_nil_r.
Qed.

(** ** The backtracking matcher on the two patterns of the scripts *)

Section MatcherFacts.
Variable R : Type.

(** Before such a continuation a greedy repetition never gives back what
    it has taken. *)
Lemma star_greedy p (k : cont R) :
  rejects p k ->
  forall s n c,
    star p k n s c
    = k ((n + length (fst (span p s)))%nat, snd (span p s)) c.
Proof.
  intros Hk. induction s as [|a t IH]; intros n c; simpl.
  - now rewrite Nat.add_0_r.
  - destruct (p a) eqn:E.
    + rewrite IH. destruct (span p t) as [x y]; simpl.
      rewrite Nat.add_succ_r.
      destruct (k (S (n + length x), y) c); [reflexivity|].
      now apply Hk.
    + simpl. now rewrite Nat.add_0_r.
Qed.

Lemma plus_greedy p (k : cont R) :
  rejects p k ->
  forall s n c,
    rmatch (PlusC p) k (n, s) c
    = match fst (span p s) with
      | [] => None
      | _ :: _ =>
          k ((n + length (fst (span p s)))%nat, snd (span p s)) c
      end.
Proof.
  intros Hk [|a t] n c; simpl; auto.
  destruct (p a) eqn:E; simpl; auto.
  rewrite star_greedy by assumption.
  destruct (span p t) as [x y]; simpl. now rewrite Nat.add_succ_r.
Qed.

Lemma group_plus_greedy i p (k : cont R) :
  rejects p k ->
  forall s n c,
    rmatch (Grp i (PlusC p)) k (n, s) c
    = match fst (span p s) with
      | [] => None
      | _ :: _ =>
          k ((n + length (fst (span p s)))%nat, snd (span p s))
            ((i, fst (span p s)) :: c)
      end.
Proof.
  intros Hk s n c.
  change (rmatch (Grp i (PlusC p)) k (n, s) c)
    with (rmatch (PlusC p)
            (fun x' c' => k x' ((i, firstn (fst x' - n) s) :: c'))
            (n, s) c).
  rewrite plus_greedy.
  - pose proof (span_app p s) as Hs.
    destruct (span p s) as [a b]; simpl in *.
    rewrite <- Hs, firstn_length_app. reflexivity.
  - intros n' a t c' Ha. now apply Hk.
Qed.

Lemma rejects_chr p a (k : cont R) :
  p a = false -> rejects p (rmatch (Chr a) k).
Proof.
  intros Ha n b t c Hb. simpl.
  destruct (cu_eqb a b) eqn:E; auto.
  apply cu_eqb_eq in E. congruence.
Qed.

Lemma rejects_eol p (k : cont R) : rejects p (rmatch Eol k).
Proof. intros n b t c Hb. reflexivity. Qed.

End MatcherFacts.

(** Lists built with [++] and [::], right-nested. *)
Ltac norm_app :=
  repeat first [ rewrite <- app_assoc
               | rewrite <- app_comm_cons
               | progress cbn [app] ].

(** The equations of [rmatch], one per construct. *)
Section Eqns.
Variable R : Type.
Implicit Types (k : cont R).

Lemma rmatch_seq r1 r2 k x c :
  rmatch (Seq r1 r2) k x c = rmatch r1 (rmatch r2 k) x c.
Proof. reflexivity. Qed.

Lemma rmatch_bol k s c : rmatch Bol k (0%nat, s) c = k (0%nat, s) c.
Proof. reflexivity. Qed.

Lemma rmatch_bol_later k n s c : rmatch Bol k (S n, s) c = None.
Proof. reflexivity. Qed.

Lemma rmatch_chr a k n s c :
  rmatch (Chr a) k (n, s) c
  = match s with
    | b :: t => if cu_eqb a b then k (S n, t) c else None
    | [] => None
    end.
Proof. reflexivity. Qed.

Lemma rmatch_eol k n s c :
  rmatch Eol k (n, s) c
  = match s with [] => k (n, s) c | _ :: _ => None end.
Proof. reflexivity. Qed.

Lemma rmatch_opt r k x c :
  rmatch (Opt r) k x c
  = match rmatch r k x c with Some v => Some v | None => k x c end.
Proof. reflexivity. Qed.

Lemma rmatch_star p k n s c :
  rmatch (StarC p) k (n, s) c = star p k n s c.
Proof. reflexivity. Qed.

Lemma rmatch_grp i r k n s c :
  rmatch (Grp i r) k (n, s) c
  = rmatch r (fun x' c' => k x' ((i, firstn (fst x' - n) s) :: c')) (n, s) c.
Proof. reflexivity. Qed.
End Eqns.

(** *** The version pattern *)

(** On [versionRegex] the matcher computes [parseVersion]. *)
Lemma version_rmatch R (k : cont R) s :
  rmatch versionRegex k (0%nat, s) []
  = match parseVersion s with
    | Some (a, b, c, pre) => k (length s, []) (versionCaptures a b c pre)
    | None => None
    end.
Proof.
  unfold versionRegex, parseVersion.
  rewrite rmatch_seq, rmatch_bol, rmatch_seq.
  rewrite group_plus_greedy by (apply rejects_chr; reflexivity).
  pose proof (span_app isDigit s) as Hs.
  destruct (span isDigit s) as [a r1]. cbn [fst snd] in *.
  destruct a as [|a0 a]; [reflexivity|].
  rewrite rmatch_seq, rmatch_chr.
  destruct r1 as [|c1 r1]; [reflexivity|].
  destruct (cu_eqb Char.dot c1) eqn:E1; [|reflexivity].
  rewrite rmatch_seq.
  rewrite group_plus_greedy by (apply rejects_chr; reflexivity).
  pose proof (span_app isDigit r1) as Hs1.
  destruct (span isDigit r1) as [b r2]. cbn [fst snd] in *.
  destruct b as [|b0 b]; [reflexivity|].
  rewrite rmatch_seq, rmatch_chr.
  destruct r2 as [|c2 r2]; [reflexivity|].
  destruct (cu_eqb Char.dot c2) eqn:E2; [|reflexivity].
  rewrite rmatch_seq.
  rewrite group_plus_greedy.
  2:{ intros n x t c Hx. rewrite rmatch_seq, rmatch_opt, rmatch_seq, rmatch_chr.
      replace (cu_eqb Char.dash x) with false; [reflexivity|].
      symmetry. destruct (cu_eqb Char.dash x) eqn:E; auto.
      apply cu_eqb_eq in E. subst x. discriminate. }
  pose proof (span_app isDigit r2) as Hs2.
  destruct (span isDigit r2) as [c r3]. cbn [fst snd] in *.
  destruct c as [|c0 c]; [reflexivity|].
  rewrite rmatch_seq, rmatch_opt, rmatch_seq, rmatch_chr.
  destruct r3 as [|d r3].
  { rewrite rmatch_eol. subst. cbn [versionCaptures].
    f_equal. f_equal. repeat (rewrite ?length_app; cbn [length]). lia. }
  destruct (cu_eqb Char.dash d) eqn:E3; [|reflexivity].
  rewrite group_plus_greedy by apply rejects_eol.
  pose proof (span_app isWordOrDot r3) as Hs3.
  destruct (span isWordOrDot r3) as [pre r4]. cbn [fst snd] in *.
  destruct pre as [|p0 pre]; [reflexivity|].
  rewrite !rmatch_eol.
  destruct r4 as [|x r4]; [|reflexivity].
  subst. cbn [versionCaptures].
  match goal with |- match ?X with _ => _ end = ?Y =>
    replace X with Y; [destruct Y; reflexivity|] end.
  f_equal. f_equal. repeat (rewrite ?length_app; cbn [length]). lia.
Qed.

Lemma search_eq r pre s :
  search r pre s
  = match match_at r (length pre) s with
    | Some (m, post, c) => Some (MatchResult pre m post c)
    | None =>
        match s with
        | [] => None
        | a :: t => search r (pre ++ [a]) t
        end
    end.
Proof. destruct s; reflexivity. Qed.

(** The pattern is anchored: it matches at index 0 or nowhere. *)
Lemma search_version_later s : forall pre,
  pre <> [] -> search versionRegex pre s = None.
Proof.
  induction s as [|a t IH]; intros pre Hpre; rewrite search_eq;
    unfold match_at; (destruct pre as [|p0 pre]; [congruence|]);
    cbn [length]; unfold versionRegex at 1;
    rewrite rmatch_seq, rmatch_bol_later.
  - reflexivity.
  - apply IH. discriminate.
Qed.

Lemma exec_version s :
  exec versionRegex s
  = match parseVersion s with
    | Some (a, b, c, pre) =>
        Some (MatchResult [] s [] (versionCaptures a b c pre))
    | None => None
    end.
Proof.
  unfold exec. rewrite search_eq. unfold match_at. cbn [length].
  rewrite version_rmatch.
  destruct (parseVersion s) as [[[[a b] c] pre]|].
  - cbn [fst snd]. rewrite Nat.sub_0_r, firstn_all. reflexivity.
  - destruct s as [|x t]; [reflexivity|].
    apply search_version_later. discriminate.
Qed.

(** [parseVersion] decides the grammar of the specification. *)
Lemma parseVersion_sound s a b c pre :
  parseVersion s = Some (a, b, c, pre) -> VersionGrammar s a b c pre.
Proof.
  unfold parseVersion.
  pose proof (span_app isDigit s) as Hs.
  pose proof (span_all isDigit s) as Ha.
  destruct (span isDigit s) as [a' r1]. cbn [fst snd] in *.
  destruct a' as [|a0 a']; [discriminate|].
  destruct r1 as [|c1 r1]; [discriminate|].
  destruct (cu_eqb Char.dot c1) eqn:E1; [|discriminate].
  apply cu_eqb_eq in E1. subst c1.
  pose proof (span_app isDigit r1) as Hs1.
  pose proof (span_all isDigit r1) as Hb.
  destruct (span isDigit r1) as [b' r2]. cbn [fst snd] in *.
  destruct b' as [|b0 b']; [discriminate|].
  destruct r2 as [|c2 r2]; [discriminate|].
  destruct (cu_eqb Char.dot c2) eqn:E2; [|discriminate].
  apply cu_eqb_eq in E2. subst c2.
  pose proof (span_app isDigit r2) as Hs2.
  pose proof (span_all isDigit r2) as Hc.
  destruct (span isDigit r2) as [c' r3]. cbn [fst snd] in *.
  destruct c' as [|c0 c']; [discriminate|].
  destruct r3 as [|d r3].
  - intros H; injection H as <- <- <- <-.
    repeat split; try discriminate; auto.
    subst. reflexivity.
  - destruct (cu_eqb Char.dash d) eqn:E3; [|discriminate].
    apply cu_eqb_eq in E3. subst d.
    pose proof (span_app isWordOrDot r3) as Hs3.
    pose proof (span_all isWordOrDot r3) as Hp.
    destruct (span isWordOrDot r3) as [p r4]. cbn [fst snd] in *.
    destruct p as [|p0 p]; [discriminate|].
    destruct r4; [|discriminate].
    intros H; injection H as <- <- <- <-.
    repeat split; try discriminate; auto.
    subst. cbn [suffixOf]. rewrite app_nil_r. reflexivity.
Qed.

Lemma span_whole p a : forallb p a = true -> span p a = (a, []).
Proof.
  intros H. rewrite <- (app_nil_r a) at 1. now apply span_eq.
Qed.

Lemma parseVersion_complete s a b c pre :
  VersionGrammar s a b c pre -> parseVersion s = Some (a, b, c, pre).
Proof.
  intros ([Ha0 Ha] & [Hb0 Hb] & [Hc0 Hc] & Hp & ->).
  unfold parseVersion.
  rewrite (span_eq isDigit a _ Ha) by reflexivity.
  destruct a as [|a0 a]; [congruence|].
  cbn [app]. rewrite cu_eqb_refl.
  rewrite (span_eq isDigit b _ Hb) by reflexivity.
  destruct b as [|b0 b]; [congruence|].
  cbn [app]. rewrite cu_eqb_refl.
  destruct pre as [p|]; cbn [suffixOf].
  - destruct Hp as [Hp0 Hp].
    rewrite (span_eq isDigit c _ Hc) by reflexivity.
    destruct c as [|c0 c]; [congruence|].
    rewrite cu_eqb_refl.
    rewrite (span_whole isWordOrDot p Hp).
    destruct p; [congruence|reflexivity].
  - rewrite (span_eq isDigit c [] Hc) by exact I.
    destruct c; [congruence|reflexivity].
Qed.

(** *** The manifest pattern *)

Lemma stripPrefix_app p s r : stripPrefix p s = Some r -> s = p ++ r.
Proof.
  revert s; induction p as [|a p IH]; intros s; simpl.
  - congruence.
  - destruct s as [|b s]; [discriminate|].
    destruct (cu_eqb a b) eqn:E; [|discriminate].
    apply cu_eqb_eq in E. subst b. intros H. now rewrite (IH _ H).
Qed.

Lemma stripPrefix_eq p r : stripPrefix p (p ++ r) = Some r.
Proof. induction p; simpl; auto. now rewrite cu_eqb_refl. Qed.

Lemma rejects_group_chr R i a p (k : cont R) :
  p a = false -> rejects p (rmatch (Grp i (Chr a)) k).
Proof.
  intros Ha n b t c Hb. rewrite rmatch_grp, rmatch_chr.
  destruct (cu_eqb a b) eqn:E; auto.
  apply cu_eqb_eq in E. congruence.
Qed.

Lemma rmatch_litSeq R p r (k : cont R) : forall n s c,
  rmatch (litSeq p r) k (n, s) c
  = match stripPrefix p s with
    | Some rest => rmatch r k ((n + length p)%nat, rest) c
    | None => None
    end.
Proof.
  induction p as [|a p IH]; intros n s c; cbn [litSeq stripPrefix length].
  - now rewrite Nat.add_0_r.
  - rewrite rmatch_seq, rmatch_chr. destruct s as [|b s]; [reflexivity|].
    destruct (cu_eqb a b); [|reflexivity].
    rewrite IH. now rewrite Nat.add_succ_r.
Qed.


Lemma firstn_prefix (a b : JSString) m :
  m = length a -> firstn m (a ++ b) = a.
Proof.
  intros ->. replace (length a) with (length a + 0)%nat by lia.
  rewrite firstn_app_2. simpl. apply app_nil_r.
Qed.

(** On [cargoVersionRegex] the matcher computes [assignmentAt]. *)
Lemma cargo_rmatch R (k : cont R) n s :
  rmatch cargoVersionRegex k (n, s) []
  = match assignmentAt s with
    | Some (g1, val, post) =>
        k ((n + length (g1 ++ val ++ [Char.quote]))%nat, post)
          [(2%nat, [Char.quote]); (1%nat, g1)]
    | None => None
    end.
Proof.
  unfold cargoVersionRegex, assignmentAt.
  rewrite rmatch_seq, rmatch_grp.
  match goal with |- rmatch (Seq (Chr _) ?r) _ _ _ = _ =>
    match r with context [Seq (Chr 110%N) ?tail] =>
      change (Seq (Chr 118%N) r) with (litSeq versionKey tail)
    end
  end.
  rewrite rmatch_litSeq.
  destruct (stripPrefix versionKey s) as [r0|] eqn:Hp; [|reflexivity].
  apply stripPrefix_app in Hp.
  rewrite rmatch_seq, rmatch_star.
  rewrite star_greedy by (apply rejects_chr; reflexivity).
  pose proof (span_app isWhiteSpace r0) as H0.
  destruct (span isWhiteSpace r0) as [ws1 r1]. cbn [fst snd] in *.
  rewrite rmatch_seq, rmatch_chr.
  destruct r1 as [|c1 r1]; [reflexivity|].
  destruct (cu_eqb Char.equals c1) eqn:E1; [|reflexivity].
  apply cu_eqb_eq in E1. subst c1.
  rewrite rmatch_seq, rmatch_star.
  rewrite star_greedy by (apply rejects_chr; reflexivity).
  pose proof (span_app isWhiteSpace r1) as H1.
  destruct (span isWhiteSpace r1) as [ws2 r2]. cbn [fst snd] in *.
  rewrite rmatch_chr.
  destruct r2 as [|q r2]; [reflexivity|].
  destruct (cu_eqb Char.quote q) eqn:E2; [|reflexivity].
  apply cu_eqb_eq in E2. subst q.
  rewrite rmatch_seq, rmatch_star.
  rewrite star_greedy by (apply rejects_group_chr; reflexivity).
  pose proof (span_app isNotQuote r2) as H2.
  pose proof (span_stops isNotQuote r2) as S2.
  destruct (span isNotQuote r2) as [val r3]. cbn [fst snd] in *.
  rewrite rmatch_grp, rmatch_chr.
  destruct r3 as [|q2 post]; [reflexivity|].
  cbn [stops] in S2. unfold isNotQuote in S2.
  apply negb_false_iff in S2. rewrite cu_eqb_eq in S2. subst q2.
  rewrite cu_eqb_refl. cbn [fst snd].
  set (g1 := versionKey ++ ws1 ++ [Char.equals] ++ ws2 ++ [Char.quote]).
  assert (Hs : s = g1 ++ val ++ Char.quote :: post).
  { subst s r0 r1 r2 g1. now rewrite <- !app_assoc. }
  assert (Hl : length g1
               = S (S (length versionKey + length ws1) + length ws2)).
  { subst g1. repeat (rewrite ?length_app; cbn [length]). lia. }
  f_equal.
  - f_equal. repeat (rewrite ?length_app; cbn [length]). lia.
  - f_equal.
    + f_equal.
      match goal with |- firstn ?m _ = _ => replace m with 1%nat by lia end.
      reflexivity.
    + f_equal. f_equal. rewrite Hs. apply firstn_prefix. lia.
Qed.

Lemma findAssignment_eq pre s :
  findAssignment pre s
  = match assignmentAt s with
    | Some (g1, val, post) => Some (pre, g1, val, post)
    | None =>
        match s with
        | [] => None
        | a :: t => findAssignment (pre ++ [a]) t
        end
    end.
Proof. destruct s; reflexivity. Qed.

Lemma assignmentAt_app s g1 val post :
  assignmentAt s = Some (g1, val, post) ->
  s = (g1 ++ val ++ [Char.quote]) ++ post.
Proof.
  unfold assignmentAt.
  destruct (stripPrefix versionKey s) as [r0|] eqn:Hp; [|discriminate].
  apply stripPrefix_app in Hp.
  pose proof (span_app isWhiteSpace r0) as H0.
  destruct (span isWhiteSpace r0) as [ws1 r1]. cbn [fst snd] in *.
  destruct r1 as [|c1 r1]; [discriminate|].
  destruct (cu_eqb Char.equals c1) eqn:E1; [|discriminate].
  apply cu_eqb_eq in E1. subst c1.
  pose proof (span_app isWhiteSpace r1) as H1.
  destruct (span isWhiteSpace r1) as [ws2 r2]. cbn [fst snd] in *.
  destruct r2 as [|q r2]; [discriminate|].
  destruct (cu_eqb Char.quote q) eqn:E2; [|discriminate].
  apply cu_eqb_eq in E2. subst q.
  pose proof (span_app isNotQuote r2) as H2.
  pose proof (span_stops isNotQuote r2) as S2.
  destruct (span isNotQuote r2) as [v r3]. cbn [fst snd] in *.
  destruct r3 as [|q2 p]; [discriminate|].
  cbn [stops] in S2. unfold isNotQuote in S2.
  apply negb_false_iff in S2. rewrite cu_eqb_eq in S2. subst q2.
  intros H; injection H as <- <- <-. subst.
  unfold versionKey. norm_app. reflexivity.
Qed.

Lemma match_at_cargo n s :
  match_at cargoVersionRegex n s
  = match assignmentAt s with
    | Some (g1, val, post) =>
        Some (g1 ++ val ++ [Char.quote], post,
              [(2%nat, [Char.quote]); (1%nat, g1)])
    | None => None
    end.
Proof.
  unfold match_at. rewrite cargo_rmatch.
  destruct (assignmentAt s) as [[[g1 val] post]|] eqn:E; [|reflexivity].
  apply assignmentAt_app in E. cbn [fst snd].
  do 3 f_equal. subst s. apply firstn_prefix. lia.
Qed.

Lemma search_cargo s : forall pre,
  search cargoVersionRegex pre s
  = match findAssignment pre s with
    | Some (pre', g1, val, post) => Some (cargoMatch pre' g1 val post)
    | None => None
    end.
Proof.
  induction s as [|a t IH]; intros pre;
    rewrite search_eq, findAssignment_eq, match_at_cargo.
  - destruct (assignmentAt []) as [[[g1 val] post]|]; reflexivity.
  - destruct (assignmentAt (a :: t)) as [[[g1 val] post]|];
      [reflexivity|apply IH].
Qed.

(** [assignmentAt] decides whether an assignment starts here. *)
Lemma assignmentAt_sound s g1 val post :
  assignmentAt s = Some (g1, val, post) -> AssignmentAt s [] g1 val post.
Proof.
  intros H. pose proof H as Happ. apply assignmentAt_app in Happ. revert H.
  unfold assignmentAt.
  destruct (stripPrefix versionKey s) as [r0|]; [|discriminate].
  pose proof (span_all isWhiteSpace r0) as A0.
  destruct (span isWhiteSpace r0) as [ws1 r1]. cbn [fst snd] in *.
  destruct r1 as [|c1 r1]; [discriminate|].
  destruct (cu_eqb Char.equals c1); [|discriminate].
  pose proof (span_all isWhiteSpace r1) as A1.
  destruct (span isWhiteSpace r1) as [ws2 r2]. cbn [fst snd] in *.
  destruct r2 as [|q r2]; [discriminate|].
  destruct (cu_eqb Char.quote q); [|discriminate].
  pose proof (span_all isNotQuote r2) as A2.
  destruct (span isNotQuote r2) as [v r3]. cbn [fst snd] in *.
  destruct r3 as [|q2 p]; [discriminate|].
  intros H; injection H as E1 E2 E3. subst val post.
  split; [|split].
  - rewrite Happ. now norm_app.
  - exists ws1, ws2. auto.
  - assumption.
Qed.

Lemma quote_stops post : stops isNotQuote (Char.quote :: post).
Proof. reflexivity. Qed.

Lemma assignmentAt_complete s g1 val post :
  AssignmentAt s [] g1 val post -> assignmentAt s = Some (g1, val, post).
Proof.
  intros (-> & (ws1 & ws2 & H1 & H2 & ->) & Hv).
  unfold assignmentAt. cbn [app]. norm_app.
  change (versionKey ++ ?x) with (versionKey ++ x).
  rewrite stripPrefix_eq.
  rewrite (span_eq isWhiteSpace ws1 _ H1) by reflexivity.
  rewrite cu_eqb_refl.
  rewrite (span_eq isWhiteSpace ws2 _ H2) by reflexivity.
  rewrite cu_eqb_refl.
  rewrite (span_eq isNotQuote val _ Hv) by reflexivity.
  reflexivity.
Qed.

Lemma AssignmentAt_cons a doc pre g1 val post :
  AssignmentAt doc pre g1 val post ->
  AssignmentAt (a :: doc) (a :: pre) g1 val post.
Proof. intros (-> & H & V). repeat split; auto. Qed.

Lemma AssignmentAt_uncons a doc pre g1 val post :
  AssignmentAt (a :: doc) (a :: pre) g1 val post ->
  AssignmentAt doc pre g1 val post.
Proof.
  intros (E & H & V). repeat split; auto. injection E as E. exact E.
Qed.

Lemma AssignmentAt_head_eq a b doc pre g1 val post :
  AssignmentAt (a :: doc) (b :: pre) g1 val post -> a = b.
Proof. intros (E & _). injection E as E _. exact E. Qed.

(** [findAssignment] finds an assignment whenever there is one, and the
    first one. *)
Lemma findAssignment_sound s : forall pre0 pre g1 val post,
  findAssignment pre0 s = Some (pre, g1, val, post) ->
  exists x, pre = pre0 ++ x /\ FirstAssignment s x g1 val post.
Proof.
  induction s as [|a t IH]; intros pre0 pre g1 val post;
    rewrite findAssignment_eq.
  - destruct (assignmentAt []) as [[[g v] p]|] eqn:E; [|discriminate].
    intros H; injection H as <- <- <- <-.
    exists []. rewrite app_nil_r. split; auto. split.
    + now apply assignmentAt_sound.
    + intros; cbn; lia.
  - destruct (assignmentAt (a :: t)) as [[[g v] p]|] eqn:E.
    + intros H; injection H as <- <- <- <-.
      exists []. rewrite app_nil_r. split; auto. split.
      * now apply assignmentAt_sound.
      * intros; cbn; lia.
    + intros H. apply IH in H as (x & -> & HA & HF).
      exists (a :: x). split; [now norm_app|]. split.
      * now apply AssignmentAt_cons.
      * intros pre' g1' val' post' H'.
        destruct pre' as [|b pre'].
        -- apply assignmentAt_complete in H'. congruence.
        -- pose proof H' as Hh. apply AssignmentAt_head_eq in Hh. subst b.
           apply AssignmentAt_uncons in H'. apply HF in H'. cbn; lia.
Qed.

Lemma findAssignment_none s : forall pre0,
  findAssignment pre0 s = None <-> NoAssignment s.
Proof.
  induction s as [|a t IH]; intros pre0; rewrite findAssignment_eq.
  - destruct (assignmentAt []) as [[[g v] p]|] eqn:E.
    + split; [discriminate|]. intros H. apply assignmentAt_sound in E.
      now apply H in E.
    + split; auto. intros _ pre g1 val post H.
      destruct pre as [|b pre].
      * apply assignmentAt_complete in H. congruence.
      * destruct H as (H & _). discriminate.
  - destruct (assignmentAt (a :: t)) as [[[g v] p]|] eqn:E.
    + split; [discriminate|]. intros H. apply assignmentAt_sound in E.
      now apply H in E.
    + rewrite IH. split.
      * intros H pre g1 val post H'. destruct pre as [|b pre].
        -- apply assignmentAt_complete in H'. congruence.
        -- pose proof H' as Hh. apply AssignmentAt_head_eq in Hh. subst b.
           apply AssignmentAt_uncons in H'. now apply H in H'.
      * intros H pre g1 val post H'.
        apply (AssignmentAt_cons a) in H'. now apply H in H'.
Qed.

Lemma findAssignment_complete pre : forall pre0 s g1 val post,
  FirstAssignment s pre g1 val post ->
  findAssignment pre0 s = Some (pre0 ++ pre, g1, val, post).
Proof.
  induction pre as [|a pre IH]; intros pre0 s g1 val post [HA HF];
    rewrite findAssignment_eq.
  - apply assignmentAt_complete in HA. rewrite HA. now rewrite app_nil_r.
  - destruct (assignmentAt s) as [[[g v] p]|] eqn:E.
    + apply assignmentAt_sound in E. apply HF in E. cbn in E. lia.
    + destruct s as [|b t]; [destruct HA as (HA & _); discriminate|].
      pose proof HA as Hh. apply AssignmentAt_head_eq in Hh. subst b.
      rewrite (IH (pre0 ++ [a]) t g1 val post).
      * now norm_app.
      * split; [now apply AssignmentAt_uncons in HA|].
        intros pre' g1' val' post' H'.
        apply (AssignmentAt_cons a) in H'. apply HF in H'. cbn in H'. lia.
Qed.

(** *** The replacement template *)

Lemma getSubstitution_literal m n v t :
  dollarFree v ->
  getSubstitution m n (v ++ t) = v ++ getSubstitution m n t.
Proof.
  unfold dollarFree. induction v as [|c v IH]; intros H; [reflexivity|].
  cbn [forallb] in H. apply andb_true_iff in H as [Hc Hv].
  cbn [app getSubstitution]. rewrite Hc. now rewrite IH.
Qed.

Lemma getSubstitution_dollar1 m t :
  getSubstitution m 2 (str "$1" ++ t)
  = reference m 2 1 (str "$1") ++ getSubstitution m 2 t.
Proof.
  change (str "$1" ++ t) with (Char.dollar :: 49%N :: t).
  cbn [getSubstitution]. cbn.
  destruct t as [|e t]; [reflexivity|].
  destruct (isDigit e); reflexivity.
Qed.

Lemma getSubstitution_dollar2 m :
  getSubstitution m 2 (str "$2") = reference m 2 2 (str "$2").
Proof. cbn. now rewrite app_nil_r. Qed.

(** The replacement text built by sync.ts stands for the first group, the
    version and the second group. *)
Lemma template_expands pre g1 val post v :
  dollarFree v ->
  getSubstitution (cargoMatch pre g1 val post) 2 (str "$1" ++ v ++ str "$2")
  = g1 ++ v ++ [Char.quote].
Proof.
  intros Hv.
  rewrite getSubstitution_dollar1, getSubstitution_literal by assumption.
  rewrite getSubstitution_dollar2. reflexivity.
Qed.

Lemma replace_cargo doc template :
  replace doc cargoVersionRegex template
  = match findAssignment [] doc with
    | Some (pre, g1, val, post) =>
        pre ++ getSubstitution (cargoMatch pre g1 val post) 2 template ++ post
    | None => doc
    end.
Proof.
  unfold replace, exec. rewrite search_cargo.
  destruct (findAssignment [] doc) as [[[[pre g1] val] post]|]; reflexivity.
Qed.

(** *** Rewriting the value keeps the first assignment first *)

Lemma span_hits_quote w :
  existsb (cu_eqb Char.quote) w = true ->
  exists post, snd (span isNotQuote w) = Char.quote :: post.
Proof.
  induction w as [|c w IH]; cbn [existsb span]; [discriminate|].
  unfold isNotQuote at 1.
  destruct (cu_eqb c Char.quote) eqn:E; cbn [negb].
  - intros _. apply cu_eqb_eq in E. subst c. now exists w.
  - intros H. apply orb_true_iff in H as [H|H].
    + apply cu_eqb_eq in H. subst c. now rewrite cu_eqb_refl in E.
    + destruct (IH H) as [post Hp]. destruct (span isNotQuote w).
      now exists post.
Qed.

Lemma first_quote_prefix z : forall P S1 S2,
  forallb isNotQuote z = true ->
  z ++ Char.quote :: S1 = P ++ Char.quote :: S2 ->
  exists U, P ++ [Char.quote] = z ++ [Char.quote] ++ U.
Proof.
  induction z as [|c z IH]; intros P S1 S2 Hz E.
  - destruct P as [|p P].
    + now exists [].
    + injection E as <- _. now exists (P ++ [Char.quote]).
  - cbn [forallb] in Hz. apply andb_true_iff in Hz as [Hc Hz].
    destruct P as [|p P].
    + injection E as E _. subst c. discriminate.
    + injection E as <- E. destruct (IH _ _ _ Hz E) as [U HU].
      exists U. cbn [app]. now rewrite HU.
Qed.

Lemma prefix_split (a b c d : JSString) :
  a ++ b = c ++ d -> (length c < length a)%nat ->
  exists y, a = c ++ y /\ y <> [] /\ d = y ++ b.
Proof.
  revert c. induction a as [|x a IH]; intros c E L.
  - cbn in L. lia.
  - destruct c as [|x' c].
    + exists (x :: a). split; [reflexivity|]. split; [discriminate|].
      symmetry. exact E.
    + injection E as <- E. cbn in L.
      destruct (IH c E ltac:(lia)) as (y & -> & Hy & ->).
      now exists y.
Qed.

Lemma whitespace_not_quote c : isWhiteSpace c = true -> isNotQuote c = true.
Proof.
  intros H. unfold isNotQuote. destruct (cu_eqb c Char.quote) eqn:E; auto.
  apply cu_eqb_eq in E. subst c. discriminate.
Qed.

Lemma forallb_impl (p q : codeunit -> bool) s :
  (forall c, p c = true -> q c = true) ->
  forallb p s = true -> forallb q s = true.
Proof.
  intros Hpq. induction s as [|c s IH]; cbn [forallb]; auto.
  intros H. apply andb_true_iff in H as [Hc Hs].
  now rewrite (Hpq _ Hc), IH.
Qed.

Lemma head_shape g :
  AssignmentHead g ->
  exists h, g = h ++ [Char.quote] /\ forallb isNotQuote h = true.
Proof.
  intros (ws1 & ws2 & H1 & H2 & ->).
  exists (versionKey ++ ws1 ++ [Char.equals] ++ ws2). split.
  - now norm_app.
  - rewrite !forallb_app.
    rewrite (forallb_impl _ _ _ whitespace_not_quote H1).
    rewrite (forallb_impl _ _ _ whitespace_not_quote H2).
    reflexivity.
Qed.

Lemma FirstAssignment_update doc pre g1 old post new :
  FirstAssignment doc pre g1 old post ->
  forallb isNotQuote new = true ->
  FirstAssignment (pre ++ g1 ++ new ++ [Char.quote] ++ post)
    pre g1 new post.
Proof.
  intros [HA HF] Hnew. destruct HA as (Hdoc & Hh & Hold).
  split; [repeat split; auto|].
  intros pre' g1' val' post' (E' & Hh' & Hv').
  destruct (Nat.le_gt_cases (length pre) (length pre')) as [|L]; [assumption|].
  exfalso.
  destruct (head_shape Hh) as (h & -> & Hq).
  destruct (head_shape Hh') as (z & -> & Hz).
  destruct (prefix_split _ _ _ _ E' L) as (y & -> & _ & E).
  assert (E2 : z ++ Char.quote :: (val' ++ [Char.quote] ++ post')
               = (y ++ h) ++ Char.quote :: (new ++ [Char.quote] ++ post)).
  { revert E. norm_app. auto. }
  destruct (first_quote_prefix _ _ _ _ Hz E2) as [U HU].
  set (W := U ++ old ++ [Char.quote] ++ post).
  assert (HW : existsb (cu_eqb Char.quote) W = true).
  { unfold W. rewrite !existsb_app. cbn. now rewrite !orb_true_r. }
  destruct (span_hits_quote _ HW) as [post'' Hp''].
  pose proof (span_app isNotQuote W) as HWs.
  pose proof (span_all isNotQuote W) as HWa.
  destruct (span isNotQuote W) as [v'' r'']. cbn [fst snd] in *. subst r''.
  assert (HA' : AssignmentAt doc pre' (z ++ [Char.quote]) v'' post'').
  { split; [|split; assumption].
    rewrite Hdoc.
    transitivity
      (pre' ++ ((y ++ h) ++ [Char.quote]) ++ old ++ [Char.quote] ++ post).
    { norm_app; reflexivity. }
    rewrite HU.
    transitivity (pre' ++ (z ++ [Char.quote]) ++ W).
    { unfold W. norm_app; reflexivity. }
    rewrite <- HWs. norm_app; reflexivity. }
  apply HF in HA'. rewrite length_app in HA'.
  rewrite length_app in L. lia.
Qed.

(** ** Numbers *)

(** Up to [2^53] every non-negative integer is a Number and prints as its
    decimal numeral. *)
Lemma round53_small n : 0 <= n <= 2 ^ 53 -> round53 n = n.
Proof.
  intros [H0 H1]. unfold round53.
  destruct (Z.eq_dec n (2 ^ 53)) as [->|Hne]; [reflexivity|].
  assert (Hlt : n < 2 ^ 53) by lia.
  destruct (Z.eq_dec n 0) as [->|Hn0]; [reflexivity|].
  assert (Z.log2 n < 53) by (apply Z.log2_lt_pow2; lia).
  replace (Z.log2 n - 52 <=? 0) with true; [reflexivity|].
  symmetry. apply Z.leb_le. lia.
Qed.

Lemma ofZ_small n : 0 <= n <= 2 ^ 53 -> ofZ n = Fin n.
Proof.
  intros H. unfold ofZ. rewrite Z.abs_eq by lia.
  rewrite round53_small by assumption.
  assert (2 ^ 53 < 2 ^ 1024) by (apply Z.pow_lt_mono_r; lia).
  replace (2 ^ 1024 <=? n) with false by (symmetry; apply Z.leb_gt; lia).
  f_equal. destruct (Z.eq_dec n 0) as [->|]; [reflexivity|].
  rewrite Z.sgn_pos by lia. lia.
Qed.

Lemma toString_small n : 0 <= n <= 2 ^ 53 -> toString (Fin n) = decimal n.
Proof.
  intros H. unfold toString.
  replace (n <? 0) with false by (symmetry; apply Z.ltb_ge; lia).
  rewrite Z.abs_eq by lia. unfold shortest.
  replace (n <=? 2 ^ 53) with true by (symmetry; apply Z.leb_le; lia).
  assert (2 ^ 53 < 10 ^ 21) by reflexivity.
  replace (n <? 10 ^ 21) with true by (symmetry; apply Z.ltb_lt; lia).
  reflexivity.
Qed.

Lemma digitsValue_from acc s :
  0 <= acc -> forallb isDigit s = true ->
  acc <= fold_left (fun a c => a * 10 + (Z.of_N c - 48)) s acc.
Proof.
  revert acc. induction s as [|c s IH]; intros acc Ha Hs; cbn [fold_left].
  - lia.
  - cbn [forallb] in Hs. apply andb_true_iff in Hs as [Hc Hs].
    unfold isDigit, in_range in Hc. apply andb_true_iff in Hc as [Hc1 Hc2].
    apply N.leb_le in Hc1, Hc2.
    etransitivity; [|apply IH; auto; lia]. lia.
Qed.

Lemma digitsValue_nonneg s : forallb isDigit s = true -> 0 <= digitsValue s.
Proof. intros H. now apply digitsValue_from. Qed.

(** Adding one to a safe integer read from digits is exact, and prints as
    the decimal numeral of the successor. *)
Lemma successor_exact s :
  forallb isDigit s = true -> digitsValue s <= MAX_SAFE_INTEGER ->
  toString (add (unaryPlus (VStr s)) (Fin 1)) = decimal (digitsValue s + 1).
Proof.
  intros Hs Hmax. pose proof (digitsValue_nonneg s Hs) as H0.
  unfold MAX_SAFE_INTEGER in Hmax.
  unfold unaryPlus, ofDigits. rewrite ofZ_small by lia.
  cbn [add]. rewrite ofZ_small by lia. apply toString_small. lia.
Qed.

Lemma uint_digits_all u : forallb isDigit (uint_digits u) = true.
Proof. induction u; cbn [uint_digits forallb]; auto. Qed.

Lemma uint_digits_nil u : uint_digits u = [] -> u = Decimal.Nil.
Proof. destruct u; cbn; congruence. Qed.

Lemma decimal_numeral z : numeral (decimal z).
Proof.
  split; [|apply uint_digits_all].
  unfold decimal. intros H. apply uint_digits_nil in H.
  destruct (Z.to_N z) as [|p]; [discriminate|].
  now apply DecimalPos.Unsigned.to_uint_nonnil in H.
Qed.

(** ** Objects and what is written from them *)

Lemma lookup_assign_same k v props : lookup k (assign k v props) = Some v.
Proof.
  induction props as [|[k' v'] props IH]; cbn [assign lookup].
  - now rewrite jsstr_eqb_refl.
  - destruct (jsstr_eqb k k') eqn:E; cbn [lookup].
    + now rewrite jsstr_eqb_refl.
    + now rewrite E.
Qed.

Lemma lookup_assign_other k k' v props :
  jsstr_eqb k k' = false -> lookup k (assign k' v props) = lookup k props.
Proof.
  intros Hk. induction props as [|[k2 v2] props IH]; cbn [assign lookup].
  - now rewrite Hk.
  - destruct (jsstr_eqb k' k2) eqn:E; cbn [lookup].
    + apply jsstr_eqb_eq in E. subst k2. now rewrite Hk.
    + now rewrite IH.
Qed.

Lemma lookup_jsonValue k x props :
  lookup k props = Some x -> x <> VUndefined ->
  lookup k (propsOf (jsonValue (VObj props))) = Some (jsonValue x).
Proof.
  intros H Hx. induction props as [|[k' v'] props IH]; [discriminate|].
  cbn [lookup] in H. cbn [jsonValue propsOf] in *.
  destruct (jsstr_eqb k k') eqn:E.
  - injection H as ->. destruct x; try congruence; cbn [lookup]; now rewrite E.
  - specialize (IH H). destruct v'; auto; cbn [lookup]; now rewrite E.
Qed.

(** ** bump.ts *)

Lemma group_version m a b c pre :
  groups m = versionCaptures a b c pre ->
  group 1 m = VStr a /\ group 2 m = VStr b /\ group 3 m = VStr c.
Proof. unfold group. intros ->. destruct pre; repeat split; reflexivity. Qed.

Lemma bumpVersion_run w props v major minor patch pre kind :
  projectVersionJson w = Some (Parsed (VObj props)) ->
  lookup (str "version") props = Some (VStr v) ->
  VersionGrammar v major minor patch pre ->
  digitsValue (bumped kind major minor patch) <= MAX_SAFE_INTEGER ->
  bumpVersion (kindName kind) w
  = (Returned (nextRelease kind major minor patch),
     World (Some (Parsed (jsonValue (VObj (assign (str "version")
              (VStr (nextRelease kind major minor patch)) props)))))
           (packageJson w) (cargoToml w) (gitRevParseHead w) (binDir w)
           (console w)).
Proof.
  intros Hf Hv Hg Hsafe.
  pose proof Hg as ([_ Ha] & [_ Hb] & [_ Hc] & _).
  apply parseVersion_complete in Hg.
  unfold bumpVersion, bind, readJson. rewrite Hf.
  cbn [getProp ret]. rewrite Hv. cbn [js_match ret].
  rewrite exec_version, Hg.
  match goal with |- context [group 1 ?m] =>
    destruct (@group_version m major minor patch pre eq_refl) as (-> & -> & ->)
  end.
  unfold successor.
  destruct kind; cbn [bumped kindName nextRelease] in *;
    cbn -[toString add unaryPlus decimal digitsValue jsonValue assign];
    rewrite successor_exact by assumption;
    reflexivity.
Qed.

Lemma grammar_next_release kind major minor patch :
  numeral major -> numeral minor -> numeral patch ->
  exists a b c, VersionGrammar (nextRelease kind major minor patch) a b c None.
Proof.
  intros Ha Hb Hc.
  assert (H0 : numeral (str "0")) by (split; [discriminate|reflexivity]).
  destruct kind; cbn [nextRelease].
  - exists (successor major), (str "0"), (str "0").
    split; [apply decimal_numeral|]. split; [exact H0|]. split; [exact H0|].
    split; [exact I|]. reflexivity.
  - exists major, (successor minor), (str "0").
    split; [exact Ha|]. split; [apply decimal_numeral|]. split; [exact H0|].
    split; [exact I|]. reflexivity.
  - exists major, minor, (successor patch).
    split; [exact Ha|]. split; [exact Hb|]. split; [apply decimal_numeral|].
    split; [exact I|]. cbn [suffixOf]. now rewrite app_nil_r.
Qed.

Lemma recordField_written k props pkg cargo git bin out :
  recordField k (World (Some (Parsed (jsonValue (VObj props))))
                   pkg cargo git bin out)
  = lookup k (propsOf (jsonValue (VObj props))).
Proof. reflexivity. Qed.

(** C1 (amended): for every record whose version matches the grammar
    MAJOR.MINOR.PATCH[-PRERELEASE] and whose component to be incremented is
    a safe integer (at most 2^53 - 1), [bumpVersion] returns (MAJOR+1).0.0
    for [major], MAJOR.(MINOR+1).0 for [minor] and MAJOR.MINOR.(PATCH+1) for
    [patch], the components it does not increment being copied as they are
    written; it stores that version in the record; and the version returned
    is a release version, without prerelease suffix, whether or not the
    input had one. *)
Theorem bumpVersion_next_release w v major minor patch pre kind :
  recordVersion w = Some v ->
  VersionGrammar v major minor patch pre ->
  digitsValue (bumped kind major minor patch) <= MAX_SAFE_INTEGER ->
  let next := nextRelease kind major minor patch in
  fst (bumpVersion (kindName kind) w) = Returned next
  /\ recordVersion (snd (bumpVersion (kindName kind) w)) = Some next
  /\ exists a b c, VersionGrammar next a b c None.
Proof.
  intros Hv Hg Hsafe next.
  unfold recordVersion, recordField in Hv.
  destruct (projectVersionJson w) as [[[]| ]|] eqn:Hf; try discriminate.
  destruct (lookup (str "version") props) as [[]|] eqn:Hl; try discriminate.
  injection Hv as ->.
  rewrite (@bumpVersion_run w props v major minor patch pre kind
             Hf Hl Hg Hsafe).
  cbn [fst snd].
  split; [reflexivity|]. split.
  - unfold recordVersion. rewrite recordField_written.
    rewrite (@lookup_jsonValue (str "version") (VStr next));
      [reflexivity|apply lookup_assign_same|discriminate].
  - destruct Hg as (Ha & Hb & Hc & _). now apply grammar_next_release.
Qed.

Lemma bumpVersion_next_release_witness :
  fst (bumpVersion (str "minor")
         (recordWith [(str "version", VStr (str "1.2.3-rc.1"));
                      (str "build", VNum (Fin 5))]))
  = Returned (str "1.3.0").
Proof.
  refine (proj1 (@bumpVersion_next_release
            (recordWith [(str "version", VStr (str "1.2.3-rc.1"));
                         (str "build", VNum (Fin 5))])
            (str "1.2.3-rc.1") (str "1") (str "2") (str "3")
            (Some (str "rc.1")) Minor _ _ _)).
  - reflexivity.
  - apply parseVersion_sound. reflexivity.
  - vm_compute. discriminate.
Defined.

(** At 2^53 the addition of 1 is rounded away: bumping [major] on
    9007199254740992.0.0 returns that same version, not
    9007199254740993.0.0. *)
Lemma bumpVersion_major_beyond_safe_integers :
  let w := recordWith [(str "version", VStr (str "9007199254740992.0.0"))] in
  recordVersion w = Some (str "9007199254740992.0.0")
  /\ VersionGrammar (str "9007199254740992.0.0")
       (str "9007199254740992") (str "0") (str "0") None
  /\ fst (bumpVersion (kindName Major) w)
     = Returned (str "9007199254740992.0.0")
  /\ nextRelease Major (str "9007199254740992") (str "0") (str "0")
     = str "9007199254740993.0.0"
  /\ fst (bumpVersion (kindName Major) w)
     <> Returned
          (nextRelease Major (str "9007199254740992") (str "0") (str "0")).
Proof.
  cbv zeta. split; [reflexivity|]. split.
  { apply parseVersion_sound. vm_compute. reflexivity. }
  split; [vm_compute; reflexivity|]. split; [vm_compute; reflexivity|].
  vm_compute. discriminate.
Qed.

Lemma not_grammar v :
  parseVersion v = None ->
  forall major minor patch pre, ~ VersionGrammar v major minor patch pre.
Proof.
  intros H major minor patch pre Hg.
  apply parseVersion_complete in Hg. congruence.
Qed.

(** A dot-separated alphanumeric tag is a tag of the pattern: the grammar
    in the words of the specification is included in that of the code. *)
Lemma alphanumeric_isWordOrDot c :
  isAlphanumeric c = true -> isWordOrDot c = true.
Proof.
  unfold isAlphanumeric, isWordOrDot, isWord. intros ->. reflexivity.
Qed.

Lemma splitOn_nonempty sep s : splitOn sep s <> [].
Proof.
  destruct s as [|c t]; cbn; [discriminate|].
  destruct (cu_eqb c sep); [discriminate|].
  destruct (splitOn sep t); discriminate.
Qed.

Lemma identifier_alphanumeric s :
  identifier s = true -> forallb isAlphanumeric s = true.
Proof. destruct s; [discriminate|exact (fun H => H)]. Qed.

Lemma splitOn_isWordOrDot s :
  match splitOn Char.dot s with
  | h :: r => (forallb isAlphanumeric h && forallb identifier r)%bool = true
  | [] => False
  end ->
  forallb isWordOrDot s = true.
Proof.
  induction s as [|c t IH]; [reflexivity|].
  cbn [splitOn forallb].
  destruct (cu_eqb c Char.dot) eqn:Ec.
  - cbn [forallb andb]. intros H.
    unfold isWordOrDot at 1. rewrite Ec, orb_true_r. cbn [andb].
    apply IH. pose proof (@splitOn_nonempty Char.dot t) as Hne.
    destruct (splitOn Char.dot t) as [|h r]; [now apply Hne|].
    cbn [forallb] in H. apply andb_prop in H as [Hh Hr].
    now rewrite (identifier_alphanumeric _ Hh), Hr.
  - pose proof (@splitOn_nonempty Char.dot t) as Hne.
    destruct (splitOn Char.dot t) as [|h r].
    + now destruct Hne.
    + cbn [forallb]. intros H.
      apply andb_prop in H as [H Hr]. apply andb_prop in H as [Hc Hh].
      rewrite (alphanumeric_isWordOrDot _ Hc). cbn [andb].
      apply IH. now rewrite Hh, Hr.
Qed.

Lemma specPrereleaseTag_pattern p : specPrereleaseTag p -> prereleaseTag p.
Proof.
  unfold specPrereleaseTag, prereleaseTag. intros H. split.
  - intros ->. discriminate H.
  - apply splitOn_isWordOrDot.
    pose proof (@splitOn_nonempty Char.dot p) as Hne.
    destruct (splitOn Char.dot p) as [|h r]; [now apply Hne|].
    cbn [forallb] in H. apply andb_prop in H as [Hh Hr].
    now rewrite (identifier_alphanumeric _ Hh), Hr.
Qed.

Lemma SpecVersionGrammar_pattern v major minor patch pre :
  SpecVersionGrammar v major minor patch pre ->
  VersionGrammar v major minor patch pre.
Proof.
  intros (Ha & Hb & Hc & Hp & ->).
  split; [exact Ha|]. split; [exact Hb|]. split; [exact Hc|].
  split; [|reflexivity].
  destruct pre as [p|]; [|exact I]. now apply specPrereleaseTag_pattern.
Qed.

(** A version that parses never has [bumpVersion] throw: it returns, or
    the process exits on the bump kind. *)
Lemma bumpVersion_parsed_no_throw w v bumpType x err :
  recordVersion w = Some v ->
  parseVersion v = Some x ->
  fst (bumpVersion bumpType w) <> Thrown err.
Proof.
  intros Hv Hp.
  unfold recordVersion, recordField in Hv.
  destruct (projectVersionJson w) as [[[]| ]|] eqn:Hf; try discriminate.
  destruct (lookup (str "version") props) as [[]|] eqn:Hl; try discriminate.
  injection Hv as ->.
  unfold bumpVersion, bind, readJson. rewrite Hf.
  cbn [getProp ret]. rewrite Hl. cbn [js_match ret].
  rewrite exec_version, Hp. destruct x as [[[major minor] patch] pre].
  unfold log, process_exit, ret.
  destruct bumpType as [|c t]; [discriminate|].
  destruct (jsstr_eqb (c :: t) (str "major")); [discriminate|].
  destruct (jsstr_eqb (c :: t) (str "minor")); [discriminate|].
  destruct (jsstr_eqb (c :: t) (str "patch")); discriminate.
Qed.

(** C7 (amended): the grammar [bumpVersion] checks is that of its pattern,
    in which PRERELEASE is any non-empty run of ASCII letters, digits,
    underscores and dots.  If the version string of the record has no
    reading in that grammar, [bumpVersion] throws the
    invalid-version-format error, whatever the bump kind, and leaves the
    project tree (the record file included) and the console as they were:
    nothing is written.  The condition is exact: a version that has a
    reading never meets that error; and every version of the grammar in
    the words of the specification has a reading. *)
Theorem bumpVersion_rejects_invalid_version w v bumpType :
  recordVersion w = Some v ->
  ((forall major minor patch pre, ~ VersionGrammar v major minor patch pre) ->
   bumpVersion bumpType w = (Thrown invalidVersionFormat, w))
  /\ (forall major minor patch pre,
        VersionGrammar v major minor patch pre ->
        forall err, fst (bumpVersion bumpType w) <> Thrown err)
  /\ (forall major minor patch pre,
        SpecVersionGrammar v major minor patch pre ->
        VersionGrammar v major minor patch pre).
Proof.
  intros Hv. split; [|split].
  - intros Hbad.
    unfold recordVersion, recordField in Hv.
    destruct (projectVersionJson w) as [[[]| ]|] eqn:Hf; try discriminate.
    destruct (lookup (str "version") props) as [[]|] eqn:Hl;
      try discriminate.
    injection Hv as ->.
    unfold bumpVersion, bind, readJson. rewrite Hf.
    cbn [getProp ret]. rewrite Hl. cbn [js_match ret].
    rewrite exec_version.
    destruct (parseVersion v) as [[[[a b] c] pre]|] eqn:E; [|reflexivity].
    apply parseVersion_sound in E. now apply Hbad in E.
  - intros major minor patch pre Hg err.
    apply parseVersion_complete in Hg.
    exact (@bumpVersion_parsed_no_throw w v bumpType _ err Hv Hg).
  - intros major minor patch pre. apply SpecVersionGrammar_pattern.
Qed.

Lemma bumpVersion_rejects_invalid_version_witness :
  let w := recordWith [(str "version", VStr (str "1.2"))] in
  bumpVersion (str "patch") w = (Thrown invalidVersionFormat, w).
Proof.
  cbv zeta.
  apply (@bumpVersion_rejects_invalid_version
           (recordWith [(str "version", VStr (str "1.2"))])
           (str "1.2") (str "patch") eq_refl).
  apply not_grammar. reflexivity.
Defined.

(** C7 as stated fails: the version 1.2.3-_ has no reading in the grammar
    of the specification (an underscore is no alphanumeric tag), yet
    [bumpVersion] accepts it, returns 1.2.4 and stores it in the record. *)
Lemma bumpVersion_accepts_underscore_tag :
  let w := recordWith [(str "version", VStr (str "1.2.3-_"))] in
  recordVersion w = Some (str "1.2.3-_")
  /\ (forall major minor patch pre,
        ~ SpecVersionGrammar (str "1.2.3-_") major minor patch pre)
  /\ fst (bumpVersion (str "patch") w) = Returned (str "1.2.4")
  /\ recordVersion (snd (bumpVersion (str "patch") w)) = Some (str "1.2.4")
  /\ bumpVersion (str "patch") w <> (Thrown invalidVersionFormat, w).
Proof.
  cbv zeta. split; [reflexivity|]. split.
  { intros major minor patch pre Hs.
    pose proof Hs as (_ & _ & _ & Hp & _).
    apply SpecVersionGrammar_pattern, parseVersion_complete in Hs.
    vm_compute in Hs. injection Hs as <- <- <- <-.
    vm_compute in Hp. discriminate. }
  split; [vm_compute; reflexivity|]. split; [vm_compute; reflexivity|].
  vm_compute. discriminate.
Qed.

(** Two dots in a row are no dot-separated tag either, and are accepted
    alike. *)
Example bumpVersion_accepts_dots_tag :
  let w := recordWith [(str "version", VStr (str "1.2.3-.."))] in
  ~ specPrereleaseTag (str "..")
  /\ fst (bumpVersion (str "patch") w) = Returned (str "1.2.4").
Proof.
  cbv zeta. split; [vm_compute; discriminate|vm_compute; reflexivity].
Qed.

(** ** fetch.ts *)

Lemma stampedBuild_defined build : stampedBuild build <> VUndefined.
Proof.
  unfold stampedBuild, js_add.
  destruct (toPrimitive (js_or build (VNum (Fin 0)))); cbn; discriminate.
Qed.

Lemma fetchVersion_build w props :
  projectVersionJson w = Some (Parsed (VObj props)) ->
  fst (fetchVersion w) = Returned tt
  /\ recordField (str "build") (snd (fetchVersion w))
     = Some (jsonValue
               (stampedBuild (fieldOrUndefined (lookup (str "build") props)))).
Proof.
  intros Hf. unfold fetchVersion, bind, readJson. rewrite Hf.
  cbn [getProp setProp ret].
  fold (fieldOrUndefined (lookup (str "build") props)).
  fold (stampedBuild (fieldOrUndefined (lookup (str "build") props))).
  set (nb := stampedBuild _).
  unfold try_catch, bind, execGitRevParseHead.
  destruct (gitRevParseHead w) as [out|];
    cbn [setProp ret log fst snd writeProjectVersion].
  - split; [reflexivity|]. rewrite recordField_written.
    apply lookup_jsonValue; [|apply stampedBuild_defined].
    rewrite lookup_assign_other by reflexivity. apply lookup_assign_same.
  - split; [reflexivity|]. rewrite recordField_written.
    apply lookup_jsonValue; [|apply stampedBuild_defined].
    apply lookup_assign_same.
Qed.

(** *** Adding one *)

Lemma add_one_safe b :
  0 <= b <= MAX_SAFE_INTEGER -> add (Fin b) (Fin 1) = Fin (b + 1).
Proof.
  unfold MAX_SAFE_INTEGER. intros H. cbn [add]. apply ofZ_small. lia.
Qed.



Lemma stampedBuild_number field b :
  priorBuild field = Some b ->
  stampedBuild (fieldOrUndefined field) = VNum (add (Fin b) (Fin 1)).
Proof.
  destruct field as [[| | |[z| |]| | |]|]; cbn [priorBuild]; try discriminate;
    intros H; injection H as <-; try reflexivity.
  unfold stampedBuild, js_or. cbn [fieldOrUndefined truthy].
  destruct (Z.eqb_spec z 0) as [->|]; reflexivity.
Qed.




(** ** Reading and writing UTF-8 *)

Module UTF8Facts.
Import UTF8.
Local Open Scope N_scope.

Lemma in_range_spec lo hi c : in_range lo hi c = true <-> lo <= c <= hi.
Proof.
  unfold in_range. rewrite andb_true_iff, !N.leb_le. reflexivity.
Qed.

Lemma in_range_true lo hi c : lo <= c <= hi -> in_range lo hi c = true.
Proof. apply in_range_spec. Qed.

Lemma in_range_false lo hi c : c < lo \/ hi < c -> in_range lo hi c = false.
Proof.
  intros H. destruct (in_range lo hi c) eqn:E; [|reflexivity].
  apply in_range_spec in E. lia.
Qed.

Lemma ltb_true a b : a < b -> (a <? b) = true.
Proof. apply N.ltb_lt. Qed.

Lemma ltb_false a b : b <= a -> (a <? b) = false.
Proof. apply N.ltb_ge. Qed.

Lemma lower_upper lead : 128 <= lower lead /\ upper lead <= 191.
Proof.
  unfold lower, upper.
  destruct (lead =? 224), (lead =? 240), (lead =? 237), (lead =? 244); lia.
Qed.

Lemma lower_upper_3 lead :
  224 <= lead <= 239 ->
  lower lead = (if lead =? 224 then 160 else 128)
  /\ upper lead = (if lead =? 237 then 159 else 191).
Proof.
  intros H. unfold lower, upper.
  destruct (N.eqb_spec lead 224), (N.eqb_spec lead 240),
    (N.eqb_spec lead 237), (N.eqb_spec lead 244); try lia; auto.
Qed.

Lemma lower_upper_4 lead :
  240 <= lead <= 244 ->
  lower lead = (if lead =? 240 then 144 else 128)
  /\ upper lead = (if lead =? 244 then 143 else 191).
Proof.
  intros H. unfold lower, upper.
  destruct (N.eqb_spec lead 224), (N.eqb_spec lead 240),
    (N.eqb_spec lead 237), (N.eqb_spec lead 244); try lia; auto.
Qed.

(** *** The decoder on complete sequences *)

Lemma decode_1 b0 r : b0 < 128 -> decode (b0 :: r) = b0 :: decode r.
Proof. intros H. cbn [decode]. now rewrite ltb_true. Qed.

Lemma decode_2 b0 b1 r :
  194 <= b0 <= 223 -> 128 <= b1 <= 191 ->
  decode (b0 :: b1 :: r) = ((b0 - 192) * 64 + (b1 - 128)) :: decode r.
Proof.
  intros H0 H1. cbn [decode]. rewrite ltb_false by lia.
  now rewrite !in_range_true by assumption.
Qed.

Lemma decode_3 b0 b1 b2 r :
  224 <= b0 <= 239 -> lower b0 <= b1 <= upper b0 -> 128 <= b2 <= 191 ->
  decode (b0 :: b1 :: b2 :: r)
  = ((b0 - 224) * 4096 + (b1 - 128) * 64 + (b2 - 128)) :: decode r.
Proof.
  intros H0 H1 H2. cbn [decode]. rewrite ltb_false by lia.
  rewrite (@in_range_false 194 223) by lia.
  now rewrite !in_range_true by assumption.
Qed.

Lemma decode_4 b0 b1 b2 b3 r :
  240 <= b0 <= 244 -> lower b0 <= b1 <= upper b0 -> 128 <= b2 <= 191 ->
  128 <= b3 <= 191 ->
  decode (b0 :: b1 :: b2 :: b3 :: r)
  = utf16 ((b0 - 240) * 262144 + (b1 - 128) * 4096 + (b2 - 128) * 64
           + (b3 - 128)) ++ decode r.
Proof.
  intros H0 H1 H2 H3. cbn [decode]. rewrite ltb_false by lia.
  rewrite (@in_range_false 194 223) by lia.
  rewrite (@in_range_false 224 239) by lia.
  now rewrite !in_range_true by assumption.
Qed.

(** *** Code points, to bytes and back *)

Lemma base64 cp :
  exists q r, cp = 64 * q + r /\ r < 64 /\ cp / 64 = q /\ cp mod 64 = r.
Proof.
  exists (cp / 64), (cp mod 64). split; [|split; [|split; reflexivity]].
  - apply N.div_mod. discriminate.
  - apply N.mod_lt. discriminate.
Qed.

Lemma div_4096 cp : cp / 4096 = cp / 64 / 64.
Proof. now rewrite N.Div0.div_div. Qed.

Lemma div_262144 cp : cp / 262144 = cp / 64 / 64 / 64.
Proof. now rewrite !N.Div0.div_div. Qed.

Lemma base1024 cp :
  exists q r, cp = 1024 * q + r /\ r < 1024 /\ cp / 1024 = q
              /\ cp mod 1024 = r.
Proof.
  exists (cp / 1024), (cp mod 1024). split; [|split; [|split; reflexivity]].
  - apply N.div_mod. discriminate.
  - apply N.mod_lt. discriminate.
Qed.

Lemma isScalar_spec cp :
  isScalar cp = true <-> cp < 55296 \/ 57344 <= cp <= 1114111.
Proof.
  unfold isScalar. rewrite orb_true_iff, N.ltb_lt, in_range_spec.
  reflexivity.
Qed.

Lemma utf16_bmp cp : cp < 65536 -> utf16 cp = [cp].
Proof. intros H. unfold utf16. now rewrite ltb_true. Qed.

Lemma decode_utf8 cp rest :
  isScalar cp = true ->
  decode (utf8 cp ++ rest) = utf16 cp ++ decode rest.
Proof.
  rewrite isScalar_spec. intros Hcp. unfold utf8.
  destruct (N.ltb_spec cp 128) as [H1|H1].
  { rewrite utf16_bmp by lia. now apply decode_1. }
  destruct (N.ltb_spec cp 2048) as [H2|H2].
  { rewrite utf16_bmp by lia.
    destruct (base64 cp) as (q & r & E & Hr & -> & ->).
    cbn [app]. rewrite decode_2 by lia. f_equal. lia. }
  destruct (N.ltb_spec cp 65536) as [H3|H3].
  { rewrite utf16_bmp by lia. rewrite div_4096.
    destruct (base64 cp) as (q & r & E & Hr & -> & ->).
    destruct (base64 q) as (q' & r' & E' & Hr' & -> & ->).
    cbn [app]. rewrite decode_3; [f_equal; lia|lia| |lia].
    destruct (@lower_upper_3 (224 + q')) as [-> ->]; [lia|].
    destruct (N.eqb_spec (224 + q') 224), (N.eqb_spec (224 + q') 237);
      lia. }
  rewrite div_262144, div_4096.
  destruct (base64 cp) as (q & r & E & Hr & -> & ->).
  destruct (base64 q) as (q' & r' & E' & Hr' & -> & ->).
  destruct (base64 q') as (q'' & r'' & E'' & Hr'' & -> & ->).
  cbn [app]. rewrite decode_4; [|lia| |lia|lia].
  - do 2 f_equal. lia.
  - destruct (@lower_upper_4 (240 + q'')) as [-> ->]; [lia|].
    destruct (N.eqb_spec (240 + q'') 240), (N.eqb_spec (240 + q'') 244);
      lia.
Qed.

Lemma encode_pair c d t :
  isHighSurrogate c = true -> isLowSurrogate d = true ->
  encode (c :: d :: t)
  = utf8 (65536 + (c - 55296) * 1024 + (d - 56320)) ++ encode t.
Proof. intros Hc Hd. cbn [encode]. now rewrite Hc, Hd. Qed.

Lemma encode_unit c t :
  isHighSurrogate c = false -> isLowSurrogate c = false ->
  encode (c :: t) = utf8 c ++ encode t.
Proof. intros Hc Hd. cbn [encode]. now rewrite Hc, Hd. Qed.

Lemma encode_low c t :
  isLowSurrogate c = true ->
  encode (c :: t) = replacementBytes ++ encode t.
Proof.
  intros Hd. cbn [encode]. rewrite Hd.
  assert (Hc : isHighSurrogate c = false).
  { apply in_range_false. apply in_range_spec in Hd. lia. }
  now rewrite Hc.
Qed.

Lemma encode_utf16 cp rest :
  isScalar cp = true ->
  encode (utf16 cp ++ rest) = utf8 cp ++ encode rest.
Proof.
  rewrite isScalar_spec. intros Hcp. unfold utf16.
  destruct (N.ltb_spec cp 65536) as [H|H].
  - cbn [app]. apply encode_unit; apply in_range_false; lia.
  - destruct (base1024 (cp - 65536)) as (q & r & E & Hr & -> & ->).
    cbn [app]. rewrite encode_pair by (apply in_range_true; lia).
    do 2 f_equal. lia.
Qed.

(** Valid UTF-8 survives being read and written back. *)
Lemma decode_valid cps :
  forallb isScalar cps = true ->
  decode (flat_map utf8 cps) = flat_map utf16 cps.
Proof.
  induction cps as [|cp cps IH]; [reflexivity|].
  cbn [forallb flat_map]. intros H. apply andb_prop in H as [H1 H2].
  rewrite decode_utf8 by assumption. now rewrite IH.
Qed.

Lemma encode_scalars cps :
  forallb isScalar cps = true ->
  encode (flat_map utf16 cps) = flat_map utf8 cps.
Proof.
  induction cps as [|cp cps IH]; [reflexivity|].
  cbn [forallb flat_map]. intros H. apply andb_prop in H as [H1 H2].
  rewrite encode_utf16 by assumption. now rewrite IH.
Qed.

Lemma encode_decode bytes : valid bytes -> encode (decode bytes) = bytes.
Proof.
  intros (cps & H & ->). rewrite decode_valid by assumption.
  now apply encode_scalars.
Qed.

(** *** Induction on the length, for functions that consume several
    elements at a step *)
Lemma length_ind (A : Type) (P : list A -> Prop) :
  (forall l, (forall l', (length l' < length l)%nat -> P l') -> P l) ->
  forall l, P l.
Proof.
  intros H l.
  assert (G : forall n l, (length l < n)%nat -> P l).
  { induction n as [|n IH]; intros l' Hl; [inversion Hl|].
    apply H. intros l'' Hl''. apply IH. lia. }
  apply (G (S (length l))). lia.
Qed.

(** *** What is read is well formed *)

Lemma wellFormed_unit c t :
  c < 55296 \/ 57344 <= c < 65536 ->
  wellFormed (c :: t) = wellFormed t.
Proof.
  intros H. cbn [wellFormed]. unfold isHighSurrogate, isLowSurrogate.
  rewrite !in_range_false by lia. now rewrite ltb_true by lia.
Qed.

Lemma wellFormed_utf16 cp t :
  isScalar cp = true -> wellFormed (utf16 cp ++ t) = wellFormed t.
Proof.
  rewrite isScalar_spec. intros Hcp. unfold utf16.
  destruct (N.ltb_spec cp 65536) as [H|H].
  - cbn [app]. apply wellFormed_unit. lia.
  - destruct (base1024 (cp - 65536)) as (q & r & E & Hr & -> & ->).
    cbn [app wellFormed]. unfold isHighSurrogate, isLowSurrogate.
    now rewrite !in_range_true by lia.
Qed.

Lemma wellFormed_decode bytes : wellFormed (decode bytes) = true.
Proof.
  induction bytes as [bytes IH] using length_ind.
  assert (Hrep : forall r, (length r < length bytes)%nat ->
                           wellFormed (replacement :: decode r) = true).
  { intros r Hr. rewrite wellFormed_unit by (unfold replacement; lia).
    now apply IH. }
  destruct bytes as [|b0 r0]; [reflexivity|].
  cbn [decode length] in *.
  destruct (N.ltb_spec b0 128) as [H0|H0].
  { rewrite wellFormed_unit by lia. apply IH. lia. }
  destruct (in_range 194 223 b0) eqn:E2.
  { apply in_range_spec in E2.
    destruct r0 as [|b1 r1]; [reflexivity|]. cbn [length] in *.
    destruct (in_range 128 191 b1) eqn:E21; [|apply Hrep; cbn; lia].
    apply in_range_spec in E21.
    rewrite wellFormed_unit by lia. apply IH. lia. }
  destruct (in_range 224 239 b0) eqn:E3.
  { apply in_range_spec in E3.
    destruct r0 as [|b1 r1]; [reflexivity|]. cbn [length] in *.
    destruct (in_range (lower b0) (upper b0) b1) eqn:E31;
      [|apply Hrep; cbn; lia].
    apply in_range_spec in E31.
    destruct r1 as [|b2 r2]; [reflexivity|]. cbn [length] in *.
    destruct (in_range 128 191 b2) eqn:E32; [|apply Hrep; cbn; lia].
    apply in_range_spec in E32.
    rewrite wellFormed_unit; [apply IH; lia|].
    destruct (lower_upper_3 E3) as [El Eu]. rewrite El, Eu in E31.
    destruct (N.eqb_spec b0 224), (N.eqb_spec b0 237); lia. }
  destruct (in_range 240 244 b0) eqn:E4; [|apply Hrep; lia].
  apply in_range_spec in E4.
  destruct r0 as [|b1 r1]; [reflexivity|]. cbn [length] in *.
  destruct (in_range (lower b0) (upper b0) b1) eqn:E41;
    [|apply Hrep; cbn; lia].
  apply in_range_spec in E41.
  destruct r1 as [|b2 r2]; [reflexivity|]. cbn [length] in *.
  destruct (in_range 128 191 b2) eqn:E42; [|apply Hrep; cbn; lia].
  apply in_range_spec in E42.
  destruct r2 as [|b3 r3]; [reflexivity|]. cbn [length] in *.
  destruct (in_range 128 191 b3) eqn:E43; [|apply Hrep; cbn; lia].
  apply in_range_spec in E43.
  rewrite wellFormed_utf16; [apply IH; lia|].
  apply isScalar_spec.
  destruct (lower_upper_4 E4) as [El Eu]. rewrite El, Eu in E41.
  destruct (N.eqb_spec b0 240), (N.eqb_spec b0 244); lia.
Qed.

(** *** A well-formed text survives being written and read back *)

Lemma decode_encode s : wellFormed s = true -> decode (encode s) = s.
Proof.
  induction s as [s IH] using length_ind.
  destruct s as [|c t]; [reflexivity|].
  cbn [wellFormed encode length] in *.
  destruct (isHighSurrogate c) eqn:Ec.
  - destruct t as [|d t']; [discriminate|]. cbn [length] in *.
    intros H. apply andb_prop in H as [Hd Ht]. rewrite Hd.
    apply in_range_spec in Ec, Hd.
    rewrite decode_utf8 by (apply isScalar_spec; lia).
    rewrite IH by (assumption || lia).
    unfold utf16. rewrite ltb_false by lia.
    destruct (base1024 (65536 + (c - 55296) * 1024 + (d - 56320) - 65536))
      as (q & r & E & Hr & -> & ->).
    cbn [app]. do 2 f_equal; lia.
  - intros H. apply andb_prop in H as [H Ht]. apply andb_prop in H as [Hl Hc].
    apply negb_true_iff in Hl. rewrite Hl.
    apply N.ltb_lt in Hc.
    assert (Hs : isScalar c = true).
    { apply isScalar_spec.
      destruct (N.ltb_spec c 55296); [now left|right].
      destruct (N.leb_spec 57344 c); [lia|].
      unfold isHighSurrogate, isLowSurrogate in *.
      destruct (N.leb_spec c 56319).
      - rewrite in_range_true in Ec by lia. discriminate.
      - rewrite in_range_true in Hl by lia. discriminate. }
    rewrite decode_utf8 by assumption.
    rewrite IH by (assumption || lia).
    now rewrite utf16_bmp.
Qed.

(** *** ASCII characters are boundaries

    An ASCII character is one byte and one code unit, and is never part
    of a longer sequence: encoder and decoder work on both sides of it
    independently. *)

Lemma encode_ascii c t : c < 128 -> encode (c :: t) = c :: encode t.
Proof.
  intros H. rewrite encode_unit by (apply in_range_false; lia).
  unfold utf8. now rewrite ltb_true.
Qed.

Lemma encode_app_ascii c b :
  c < 128 -> forall a, encode (a ++ c :: b) = encode a ++ c :: encode b.
Proof.
  intros Hc a. induction a as [a IH] using length_ind.
  destruct a as [|x t]; [now apply encode_ascii|].
  cbn [app encode length] in *.
  destruct (isHighSurrogate x).
  - destruct t as [|d t']; cbn [app length] in *.
    + unfold isLowSurrogate. rewrite in_range_false by lia.
      now rewrite encode_ascii.
    + destruct (isLowSurrogate d).
      * rewrite IH by lia. now rewrite <- app_assoc.
      * change (d :: t' ++ c :: b) with ((d :: t') ++ c :: b).
        rewrite IH by (cbn [length]; lia). reflexivity.
  - destruct (isLowSurrogate x);
      rewrite IH by lia; now rewrite <- ?app_assoc.
Qed.

Lemma wellFormed_app_ascii c b :
  c < 128 ->
  forall a, wellFormed (a ++ c :: b) = (wellFormed a && wellFormed b)%bool.
Proof.
  intros Hc a. induction a as [a IH] using length_ind.
  destruct a as [|x t]; [apply wellFormed_unit; lia|].
  cbn [app wellFormed length] in *.
  destruct (isHighSurrogate x).
  - destruct t as [|d t']; cbn [app length] in *.
    + unfold isLowSurrogate. now rewrite in_range_false by lia.
    + rewrite IH by lia. now rewrite andb_assoc.
  - rewrite IH by lia. now rewrite !andb_assoc.
Qed.

Lemma decode_app_ascii c y :
  c < 128 -> forall x, decode (x ++ c :: y) = decode x ++ c :: decode y.
Proof.
  intros Hc x.
  assert (Hstop : forall lo hi, 128 <= lo -> in_range lo hi c = false).
  { intros lo hi H. apply in_range_false. lia. }
  assert (Hb : forall b0, in_range (lower b0) (upper b0) c = false).
  { intros b0. apply Hstop. apply lower_upper. }
  assert (H0 : decode (c :: y) = c :: decode y) by now apply decode_1.
  induction x as [x IH] using length_ind.
  assert (Hrep : forall r,
             (length r < length x)%nat ->
             replacement :: decode (r ++ c :: y)
             = (replacement :: decode r) ++ c :: decode y).
  { intros r Hr. now rewrite IH. }
  destruct x as [|b0 r0]; [exact H0|].
  cbn [app decode]. cbn [length] in *.
  destruct (b0 <? 128).
  { rewrite IH by lia. reflexivity. }
  destruct (in_range 194 223 b0).
  { destruct r0 as [|b1 r1]; cbn [app]; cbn [length] in *.
    { rewrite Hstop, H0 by lia. reflexivity. }
    destruct (in_range 128 191 b1).
    - rewrite IH by lia. reflexivity.
    - apply (Hrep (b1 :: r1)). cbn [length]. lia. }
  destruct (in_range 224 239 b0).
  { destruct r0 as [|b1 r1]; cbn [app]; cbn [length] in *.
    { rewrite Hb, H0. reflexivity. }
    destruct (in_range (lower b0) (upper b0) b1);
      [|apply (Hrep (b1 :: r1)); cbn [length]; lia].
    destruct r1 as [|b2 r2]; cbn [app]; cbn [length] in *.
    { rewrite Hstop, H0 by lia. reflexivity. }
    destruct (in_range 128 191 b2).
    - rewrite IH by lia. reflexivity.
    - apply (Hrep (b2 :: r2)). cbn [length]. lia. }
  destruct (in_range 240 244 b0); [|apply Hrep; lia].
  destruct r0 as [|b1 r1]; cbn [app]; cbn [length] in *.
  { rewrite Hb, H0. reflexivity. }
  destruct (in_range (lower b0) (upper b0) b1);
    [|apply (Hrep (b1 :: r1)); cbn [length]; lia].
  destruct r1 as [|b2 r2]; cbn [app]; cbn [length] in *.
  { rewrite Hstop, H0 by lia. reflexivity. }
  destruct (in_range 128 191 b2);
    [|apply (Hrep (b2 :: r2)); cbn [length]; lia].
  destruct r2 as [|b3 r3]; cbn [app]; cbn [length] in *.
  { rewrite Hstop, H0 by lia. reflexivity. }
  destruct (in_range 128 191 b3).
  - rewrite IH by lia. now rewrite <- app_assoc.
  - apply (Hrep (b3 :: r3)). cbn [length]. lia.
Qed.

(** *** ASCII characters come from ASCII characters

    A code unit below 128 of the decoded text is a byte of the file, and a
    byte below 128 of the encoded text is a code unit of the text. *)

Lemma utf8_high cp b : In b (utf8 cp) -> b < 128 -> b = cp.
Proof.
  unfold utf8.
  destruct (N.ltb_spec cp 128); [intros [<-|[]]; reflexivity|].
  destruct (cp <? 2048); [|destruct (cp <? 65536)]; cbn [In];
    repeat match goal with
           | |- context [?a / ?b] => generalize (a / b); intro
           | |- context [?a mod ?b] => generalize (a mod b); intro
           end;
    intros Hin Hb; repeat (destruct Hin as [<-|Hin]; [lia|]); destruct Hin.
Qed.

Lemma encode_ascii_from s b : In b (encode s) -> b < 128 -> In b s.
Proof.
  induction s as [s IH] using length_ind.
  assert (Hrep : forall t, (length t < length s)%nat ->
                           In b (replacementBytes ++ encode t) -> b < 128 ->
                           In b t).
  { intros t Ht Hin Hb. apply in_app_or in Hin as [Hin|Hin].
    - cbn [replacementBytes In] in Hin.
      repeat (destruct Hin as [<-|Hin]; [lia|]). destruct Hin.
    - now apply IH. }
  destruct s as [|c t]; [intros []|].
  cbn [encode length In] in *.
  destruct (isHighSurrogate c) eqn:Ec.
  - destruct t as [|d t']; cbn [length In] in *.
    + intros Hin Hb. cbn [replacementBytes In] in Hin.
      repeat (destruct Hin as [<-|Hin]; [lia|]). destruct Hin.
    + destruct (isLowSurrogate d) eqn:Ed.
      * intros Hin Hb. apply in_app_or in Hin as [Hin|Hin].
        -- apply utf8_high in Hin; [|assumption].
           apply in_range_spec in Ec, Ed. lia.
        -- right; right. apply IH; [lia|assumption|assumption].
      * intros Hin Hb. right.
        apply (Hrep (d :: t')); [cbn [length]; lia|assumption|assumption].
  - destruct (isLowSurrogate c).
    + intros Hin Hb. right. apply Hrep; [lia|assumption|assumption].
    + intros Hin Hb. apply in_app_or in Hin as [Hin|Hin].
      * left. symmetry. now apply utf8_high.
      * right. apply IH; [lia|assumption|assumption].
Qed.

Lemma decode_ascii_from bytes u : In u (decode bytes) -> u < 128 -> In u bytes.
Proof.
  induction bytes as [bytes IH] using length_ind.
  assert (Hrep : forall r, (length r < length bytes)%nat ->
                           In u (replacement :: decode r) -> u < 128 ->
                           In u r).
  { intros r Hr [<-|Hin] Hu; [unfold replacement in Hu; lia|].
    now apply IH. }
  assert (Hend : In u [replacement] -> u < 128 -> In u bytes).
  { intros [<-|[]] Hu. unfold replacement in Hu. lia. }
  destruct bytes as [|b0 r0]; [intros []|].
  cbn [decode length] in *.
  destruct (N.ltb_spec b0 128) as [H0|H0].
  { intros [<-|Hin] Hu; [now left|right]. apply IH; [lia|assumption ..]. }
  destruct (in_range 194 223 b0) eqn:E2.
  { apply in_range_spec in E2.
    destruct r0 as [|b1 r1]; [exact Hend|]. cbn [length] in *.
    destruct (in_range 128 191 b1) eqn:E21.
    - apply in_range_spec in E21.
      intros [<-|Hin] Hu; [lia|]. right; right.
      apply IH; [lia|assumption ..].
    - intros Hin Hu. right.
      apply (Hrep (b1 :: r1)); [cbn [length]; lia|assumption ..]. }
  destruct (in_range 224 239 b0) eqn:E3.
  { apply in_range_spec in E3.
    destruct r0 as [|b1 r1]; [exact Hend|]. cbn [length] in *.
    destruct (in_range (lower b0) (upper b0) b1) eqn:E31.
    2:{ intros Hin Hu. right.
        apply (Hrep (b1 :: r1)); [cbn [length]; lia|assumption ..]. }
    apply in_range_spec in E31.
    destruct r1 as [|b2 r2]; [exact Hend|]. cbn [length] in *.
    destruct (in_range 128 191 b2) eqn:E32.
    - apply in_range_spec in E32.
      intros [<-|Hin] Hu.
      + destruct (lower_upper_3 E3) as [El Eu]. rewrite El, Eu in E31.
        destruct (N.eqb_spec b0 224), (N.eqb_spec b0 237); lia.
      + right; right; right. apply IH; [lia|assumption ..].
    - intros Hin Hu. right; right.
      apply (Hrep (b2 :: r2)); [cbn [length]; lia|assumption ..]. }
  destruct (in_range 240 244 b0) eqn:E4.
  2:{ intros Hin Hu. right. apply Hrep; [lia|assumption ..]. }
  apply in_range_spec in E4.
  destruct r0 as [|b1 r1]; [exact Hend|]. cbn [length] in *.
  destruct (in_range (lower b0) (upper b0) b1) eqn:E41.
  2:{ intros Hin Hu. right.
      apply (Hrep (b1 :: r1)); [cbn [length]; lia|assumption ..]. }
  apply in_range_spec in E41.
  destruct r1 as [|b2 r2]; [exact Hend|]. cbn [length] in *.
  destruct (in_range 128 191 b2) eqn:E42.
  2:{ intros Hin Hu. right; right.
      apply (Hrep (b2 :: r2)); [cbn [length]; lia|assumption ..]. }
  apply in_range_spec in E42.
  destruct r2 as [|b3 r3]; [exact Hend|]. cbn [length] in *.
  destruct (in_range 128 191 b3) eqn:E43.
  2:{ intros Hin Hu. right; right; right.
      apply (Hrep (b3 :: r3)); [cbn [length]; lia|assumption ..]. }
  apply in_range_spec in E43.
  intros Hin Hu. apply in_app_or in Hin as [Hin|Hin].
  - exfalso. unfold utf16 in Hin.
    destruct (lower_upper_4 E4) as [El Eu]. rewrite El, Eu in E41.
    rewrite ltb_false in Hin
      by (destruct (N.eqb_spec b0 240), (N.eqb_spec b0 244); lia).
    revert Hin.
    repeat match goal with
           | |- context [?a / ?b] => generalize (a / b); intro
           | |- context [?a mod ?b] => generalize (a mod b); intro
           end.
    cbn [In]. intros Hin.
    repeat (destruct Hin as [<-|Hin]; [lia|]). destruct Hin.
  - right; right; right; right. apply IH; [lia|assumption ..].
Qed.

Lemma notQuote_In s : forallb isNotQuote s = true <-> ~ In Char.quote s.
Proof.
  induction s as [|c t IH]; cbn [forallb In]; [tauto|].
  rewrite andb_true_iff, IH. unfold isNotQuote, cu_eqb.
  rewrite negb_true_iff, N.eqb_neq. intuition congruence.
Qed.

Lemma notQuote_encode s :
  forallb isNotQuote s = true -> forallb isNotQuote (encode s) = true.
Proof.
  rewrite !notQuote_In. intros H Hin. apply H.
  apply encode_ascii_from; [assumption|unfold Char.quote; lia].
Qed.

Lemma notQuote_decode bytes :
  forallb isNotQuote bytes = true -> forallb isNotQuote (decode bytes) = true.
Proof.
  rewrite !notQuote_In. intros H Hin. apply H.
  apply decode_ascii_from; [assumption|unfold Char.quote; lia].
Qed.

End UTF8Facts.

Import UTF8Facts.

(** ** sync.ts *)

Lemma digit_versionChar c : isDigit c = true -> versionChar c = true.
Proof.
  intros H. unfold versionChar, isWordOrDot, isWord. rewrite H.
  now rewrite !orb_true_r.
Qed.

Lemma versionChar_not_dollar c :
  versionChar c = true -> negb (cu_eqb c Char.dollar) = true.
Proof.
  intros H. destruct (cu_eqb c Char.dollar) eqn:E; auto.
  apply cu_eqb_eq in E. subst c. discriminate.
Qed.

Lemma versionChar_not_quote c : versionChar c = true -> isNotQuote c = true.
Proof.
  intros H. unfold isNotQuote. destruct (cu_eqb c Char.quote) eqn:E; auto.
  apply cu_eqb_eq in E. subst c. discriminate.
Qed.

Lemma grammar_chars v major minor patch pre :
  VersionGrammar v major minor patch pre -> forallb versionChar v = true.
Proof.
  intros ([_ Ha] & [_ Hb] & [_ Hc] & Hp & ->).
  rewrite !forallb_app.
  rewrite (@forallb_impl _ _ major digit_versionChar Ha).
  rewrite (@forallb_impl _ _ minor digit_versionChar Hb).
  rewrite (@forallb_impl _ _ patch digit_versionChar Hc).
  destruct pre as [p|]; cbn [suffixOf forallb]; [|reflexivity].
  destruct Hp as [_ Hp].
  rewrite (@forallb_impl isWordOrDot versionChar p); auto.
  intros c Hc'. unfold versionChar. now rewrite Hc'.
Qed.

Lemma grammar_dollarFree v major minor patch pre :
  VersionGrammar v major minor patch pre -> dollarFree v.
Proof.
  intros H. apply grammar_chars in H. unfold dollarFree.
  revert H. apply forallb_impl. exact versionChar_not_dollar.
Qed.

Lemma grammar_quoteFree v major minor patch pre :
  VersionGrammar v major minor patch pre -> forallb isNotQuote v = true.
Proof.
  intros H. apply grammar_chars in H.
  revert H. apply forallb_impl. exact versionChar_not_quote.
Qed.

Lemma updatedCargo_matched doc v before g1 old after :
  FirstAssignment doc before g1 old after ->
  dollarFree v ->
  updatedCargo doc (VStr v) = before ++ g1 ++ v ++ [Char.quote] ++ after.
Proof.
  intros HF Hv.
  unfold updatedCargo. rewrite replace_cargo.
  rewrite (@findAssignment_complete before [] doc g1 old after HF).
  cbn [app]. unfold cargoTemplate. cbn [toStringV].
  rewrite template_expands by assumption. now norm_app.
Qed.

Lemma updatedCargo_unmatched doc versionString :
  NoAssignment doc -> updatedCargo doc versionString = doc.
Proof.
  intros H. unfold updatedCargo. rewrite replace_cargo.
  apply (findAssignment_none doc []) in H. now rewrite H.
Qed.

Lemma findAssignment_first doc pre g1 val post :
  findAssignment [] doc = Some (pre, g1, val, post) ->
  FirstAssignment doc pre g1 val post.
Proof.
  intros H. apply findAssignment_sound in H as (x & -> & H). exact H.
Qed.

(** The quotes of an assignment are boundaries of the encoding: the head
    of the assignment ends with one, the value span is closed by one. *)
Lemma quote_ascii : (Char.quote < 128)%N.
Proof. reflexivity. Qed.

Lemma AssignmentHead_quote g1 :
  AssignmentHead g1 -> exists h, g1 = h ++ [Char.quote].
Proof.
  intros (ws1 & ws2 & _ & _ & ->).
  exists (versionKey ++ ws1 ++ [Char.equals] ++ ws2). now norm_app.
Qed.

Lemma encode_frame before g1 x after :
  AssignmentHead g1 ->
  UTF8.encode (before ++ g1 ++ x ++ [Char.quote] ++ after)
  = UTF8.encode (before ++ g1) ++ UTF8.encode x ++ [Char.quote]
    ++ UTF8.encode after.
Proof.
  intros Hh. apply AssignmentHead_quote in Hh as [h ->].
  replace (before ++ (h ++ [Char.quote]) ++ x ++ [Char.quote] ++ after)
    with ((before ++ h) ++ Char.quote :: x ++ Char.quote :: after)
    by now norm_app.
  replace (before ++ h ++ [Char.quote])
    with ((before ++ h) ++ Char.quote :: []) by now norm_app.
  rewrite !(encode_app_ascii _ quote_ascii). cbn [UTF8.encode].
  now norm_app.
Qed.

Lemma reread_frame before g1 old x after :
  AssignmentHead g1 ->
  UTF8.wellFormed (before ++ g1 ++ old ++ [Char.quote] ++ after) = true ->
  UTF8.decode (UTF8.encode (before ++ g1 ++ x ++ [Char.quote] ++ after))
  = before ++ g1 ++ UTF8.decode (UTF8.encode x) ++ [Char.quote] ++ after.
Proof.
  intros Hh Hwf. apply AssignmentHead_quote in Hh as [h ->].
  replace (before ++ (h ++ [Char.quote]) ++ old ++ [Char.quote] ++ after)
    with ((before ++ h) ++ Char.quote :: old ++ Char.quote :: after)
    in Hwf by now norm_app.
  rewrite !(wellFormed_app_ascii _ quote_ascii) in Hwf.
  apply andb_prop in Hwf as [H1 H2]. apply andb_prop in H2 as [_ H2].
  replace (before ++ (h ++ [Char.quote]) ++ x ++ [Char.quote] ++ after)
    with ((before ++ h) ++ Char.quote :: x ++ Char.quote :: after)
    by now norm_app.
  rewrite !(encode_app_ascii _ quote_ascii).
  rewrite !(decode_app_ascii _ quote_ascii).
  rewrite (decode_encode _ H1), (decode_encode _ H2). now norm_app.
Qed.

Lemma versionChar_ascii c : versionChar c = true -> (c < 128)%N.
Proof.
  unfold versionChar, isWordOrDot, isWord, isDigit, cu_eqb.
  rewrite !orb_true_iff, !in_range_spec, !N.eqb_eq.
  unfold Char.underscore, Char.dot, Char.dash. lia.
Qed.

Lemma ascii_wellFormed s :
  (forall c, In c s -> (c < 128)%N) -> UTF8.wellFormed s = true.
Proof.
  induction s as [|c t IH]; [reflexivity|]. intros H.
  rewrite wellFormed_unit by (left; specialize (H c (or_introl eq_refl)); lia).
  apply IH. intros c' Hc'. apply H. now right.
Qed.

Lemma grammar_roundtrip v major minor patch pre :
  VersionGrammar v major minor patch pre ->
  UTF8.decode (UTF8.encode v) = v.
Proof.
  intros H. apply grammar_chars in H.
  apply decode_encode, ascii_wellFormed.
  intros c Hc. apply versionChar_ascii.
  now apply (proj1 (forallb_forall _ _) H).
Qed.

Lemma syncVersion_run w v pkg raw :
  recordVersion w = Some v ->
  packageJson w = Some (Parsed (VObj pkg)) ->
  cargoToml w = Some raw ->
  syncVersion w
  = (Returned tt,
     World (projectVersionJson w)
           (Some (Parsed (jsonValue
                            (VObj (assign (str "version") (VStr v) pkg)))))
           (Some (UTF8.encode (updatedCargo (UTF8.decode raw) (VStr v))))
           (gitRevParseHead w) (binDir w) (console w)).
Proof.
  intros Hv Hp Hc.
  unfold recordVersion, recordField in Hv.
  destruct (projectVersionJson w) as [[[]| ]|] eqn:Hf; try discriminate.
  destruct (lookup (str "version") props) as [[]|] eqn:Hl; try discriminate.
  injection Hv as ->.
  unfold syncVersion, bind, readJson. rewrite Hf. cbn [getProp ret].
  rewrite Hl, Hp. cbn [setProp ret writePackageJson].
  unfold readCargoToml. cbn [cargoToml]. rewrite Hc.
  cbn [writeCargoToml projectVersionJson packageJson gitRevParseHead binDir
       console].
  now rewrite Hf.
Qed.

Lemma packageVersion_written pv props cargo git bin out :
  packageVersion (World pv (Some (Parsed (jsonValue (VObj props))))
                    cargo git bin out)
  = lookup (str "version") (propsOf (jsonValue (VObj props))).
Proof. reflexivity. Qed.

(** C3: for every version string [v] of the grammar (those made of digits
    and dots only included), [syncVersion] returns normally, after which
    the [version] field of package.json is the string [v] and the first
    version assignment of Cargo.toml, at the place and with the head it had
    before, has [v] as its value span.  (package.json holds an object and
    Cargo.toml, as it is read, has a version assignment.) *)
Theorem syncVersion_propagates w v major minor patch pre pkg raw
  before g1 old after :
  recordVersion w = Some v ->
  VersionGrammar v major minor patch pre ->
  packageJson w = Some (Parsed (VObj pkg)) ->
  cargoToml w = Some raw ->
  FirstAssignment (UTF8.decode raw) before g1 old after ->
  fst (syncVersion w) = Returned tt
  /\ packageVersion (snd (syncVersion w)) = Some (VStr v)
  /\ exists raw',
       cargoToml (snd (syncVersion w)) = Some raw'
       /\ FirstAssignment (UTF8.decode raw') before g1 v after.
Proof.
  intros Hv Hg Hp Hc HF.
  rewrite (@syncVersion_run w v pkg raw Hv Hp Hc). cbn [fst snd].
  split; [reflexivity|]. split.
  - rewrite packageVersion_written.
    rewrite (@lookup_jsonValue (str "version") (VStr v));
      [reflexivity|apply lookup_assign_same|discriminate].
  - eexists. split; [reflexivity|].
    rewrite (@updatedCargo_matched _ v before g1 old after HF)
      by now apply grammar_dollarFree in Hg.
    pose proof (wellFormed_decode raw) as Hwf.
    destruct HF as [(Hdoc & Hh & Hq) Hfirst].
    rewrite Hdoc in Hwf.
    rewrite (@reread_frame before g1 old v after Hh Hwf),
      (grammar_roundtrip Hg).
    apply FirstAssignment_update with (doc := UTF8.decode raw) (old := old);
      [now split|]. now apply grammar_quoteFree in Hg.
Qed.

(** C4 (amended): for a Cargo.toml that is valid UTF-8, the bytes written
    back differ from the bytes read only inside the value span of the
    first version assignment: when that assignment splits the text as
    [before ++ g1 ++ old ++ Q ++ after] (Q the closing quote), the file is
    the bytes of [before ++ g1], of [old], the quote and the bytes of
    [after], and the file written is the same with the bytes of [v] in
    the place of those of [old], for a version [v] in which [$] does not
    occur (as in every version of the grammar). *)
Theorem syncVersion_cargo_frame w v pkg raw before g1 old after :
  recordVersion w = Some v ->
  dollarFree v ->
  packageJson w = Some (Parsed (VObj pkg)) ->
  cargoToml w = Some raw ->
  UTF8.valid raw ->
  FirstAssignment (UTF8.decode raw) before g1 old after ->
  raw = UTF8.encode (before ++ g1) ++ UTF8.encode old ++ [Char.quote]
        ++ UTF8.encode after
  /\ cargoToml (snd (syncVersion w))
     = Some (UTF8.encode (before ++ g1) ++ UTF8.encode v ++ [Char.quote]
             ++ UTF8.encode after).
Proof.
  intros Hv Hd Hp Hc Hvalid HF.
  rewrite (@syncVersion_run w v pkg raw Hv Hp Hc). cbn [snd cargoToml].
  rewrite (@updatedCargo_matched _ v before g1 old after HF Hd).
  destruct HF as [(Hdoc & Hh & _) _].
  rewrite !encode_frame by assumption. split; [|reflexivity].
  rewrite <- (@encode_frame before g1 old after Hh), <- Hdoc.
  symmetry. now apply encode_decode.
Qed.

(** C10 (amended): when Cargo.toml is valid UTF-8 and, as it is read, has
    no version assignment, [syncVersion] writes the file back byte for
    byte as it was and returns normally, with nothing printed on the
    console; the manifest written still has no version assignment, so
    none that carries the record's version. *)
Theorem syncVersion_without_assignment w v pkg raw :
  recordVersion w = Some v ->
  packageJson w = Some (Parsed (VObj pkg)) ->
  cargoToml w = Some raw ->
  UTF8.valid raw ->
  NoAssignment (UTF8.decode raw) ->
  fst (syncVersion w) = Returned tt
  /\ cargoToml (snd (syncVersion w)) = Some raw
  /\ console (snd (syncVersion w)) = console w
  /\ (forall raw', cargoToml (snd (syncVersion w)) = Some raw' ->
                   NoAssignment (UTF8.decode raw')).
Proof.
  intros Hv Hp Hc Hvalid Hno.
  rewrite (@syncVersion_run w v pkg raw Hv Hp Hc).
  cbn [fst snd cargoToml console].
  rewrite updatedCargo_unmatched by assumption.
  rewrite (encode_decode Hvalid).
  repeat split; auto. intros raw' H; injection H as <-. exact Hno.
Qed.

Lemma sampleCargo_first :
  FirstAssignment sampleCargo
    (str "[package]
name = 'devapack'
") (str "version = " ++ [Char.quote]) (str "0.0.1") (str "
edition = '2021'
").
Proof. apply findAssignment_first. reflexivity. Qed.

Lemma ascii_valid s :
  forallb UTF8.isScalar s = true -> UTF8.encode s = flat_map UTF8.utf8 s ->
  UTF8.valid (UTF8.encode s).
Proof. intros H E. exists s. now split. Qed.

Lemma syncVersion_propagates_witness :
  fst (syncVersion sampleTree) = Returned tt
  /\ packageVersion (snd (syncVersion sampleTree)) = Some (VStr (str "1.3.0")).
Proof.
  destruct (@syncVersion_propagates sampleTree (str "1.3.0")
              (str "1") (str "3") (str "0") None
              [(str "name", VStr (str "devapack"));
               (str "version", VStr (str "0.0.1"))]
              (UTF8.encode sampleCargo) _ _ _ _ eq_refl
              (@parseVersion_sound (str "1.3.0") (str "1") (str "3")
                 (str "0") None eq_refl) eq_refl eq_refl
              sampleCargo_first) as (H1 & H2 & _).
  split; assumption.
Defined.

Lemma syncVersion_cargo_frame_witness :
  cargoToml (snd (syncVersion sampleTree))
  = Some (UTF8.encode (str "[package]
name = 'devapack'
version = " ++ [Char.quote]) ++ UTF8.encode (str "1.3.0") ++ [Char.quote]
          ++ UTF8.encode (str "
edition = '2021'
")).
Proof.
  refine (proj2 (@syncVersion_cargo_frame sampleTree (str "1.3.0")
                   [(str "name", VStr (str "devapack"));
                    (str "version", VStr (str "0.0.1"))]
                   (UTF8.encode sampleCargo) _ _ _ _
                   eq_refl eq_refl eq_refl eq_refl _ sampleCargo_first)).
  apply ascii_valid; reflexivity.
Defined.

Lemma syncVersion_without_assignment_witness :
  fst (syncVersion bareTree) = Returned tt
  /\ cargoToml (snd (syncVersion bareTree)) = Some (UTF8.encode bareCargo)
  /\ console (snd (syncVersion bareTree)) = console bareTree.
Proof.
  destruct (@syncVersion_without_assignment bareTree (str "1.3.0")
              [(str "name", VStr (str "devapack"));
               (str "version", VStr (str "0.0.1"))]
              (UTF8.encode bareCargo)
              eq_refl eq_refl eq_refl
              (@ascii_valid bareCargo eq_refl eq_refl)
              (proj1 (findAssignment_none bareCargo []) eq_refl))
    as (H1 & H2 & H3 & _).
  repeat split; assumption.
Defined.

(** C4 as stated fails on a manifest that is no valid UTF-8.  The byte E9
    of the closing comment is far from the value span; the file written
    has the three bytes EF BF BD in its place, so that it is not the file
    read with another value span, whatever the span. *)
Lemma syncVersion_rewrites_bytes_outside_span :
  let prefix := UTF8.encode (str "[package]
name = 'devapack'
version = " ++ [Char.quote]) in
  let rest := UTF8.encode (str "
edition = '2021'
# caf") in
  cargoToml latin1Tree
  = Some (prefix ++ UTF8.encode (str "0.0.1") ++ [Char.quote] ++ rest
          ++ [233; 10]%N)
  /\ fst (syncVersion latin1Tree) = Returned tt
  /\ cargoToml (snd (syncVersion latin1Tree))
     = Some (prefix ++ UTF8.encode (str "1.3.0") ++ [Char.quote] ++ rest
             ++ [239; 191; 189; 10]%N)
  /\ forall span,
       cargoToml (snd (syncVersion latin1Tree))
       <> Some (prefix ++ span ++ [Char.quote] ++ rest ++ [233; 10]%N).
Proof.
  cbv zeta. split; [reflexivity|]. split; [vm_compute; reflexivity|].
  split; [vm_compute; reflexivity|].
  intros span H. injection H as H.
  apply (f_equal (@rev _)) in H. rewrite !rev_app_distr in H.
  vm_compute in H. discriminate H.
Qed.

(** C10 as stated fails alike: a manifest without version assignment that
    is no valid UTF-8 is not written back as it was. *)
Lemma syncVersion_rewrites_invalid_manifest :
  NoAssignment (UTF8.decode (UTF8.encode bareCargo ++ latin1Comment))
  /\ cargoToml latin1BareTree
     = Some (UTF8.encode bareCargo ++ UTF8.encode (str "# caf")
             ++ [233; 10]%N)
  /\ fst (syncVersion latin1BareTree) = Returned tt
  /\ cargoToml (snd (syncVersion latin1BareTree))
     = Some (UTF8.encode bareCargo ++ UTF8.encode (str "# caf")
             ++ [239; 191; 189; 10]%N)
  /\ cargoToml (snd (syncVersion latin1BareTree)) <> cargoToml latin1BareTree.
Proof.
  split; [apply (findAssignment_none _ []); vm_compute; reflexivity|].
  split; [reflexivity|]. split; [vm_compute; reflexivity|].
  split; [vm_compute; reflexivity|]. vm_compute. discriminate.
Qed.

(** ** postinstall.ts *)

(** Up to the request: the record is read, the platform is a supported one
    and the destination directory is there. *)
Lemma postinstall_run e w versionString c name :
  recordField (str "version") w = Some versionString ->
  binaryNameFor (platform e) = c :: name ->
  mkdirSucceeds e = true ->
  postinstall e w
  = bind (log LogInfo
            (11015%N :: 65039%N :: str "  Downloading " ++ (c :: name)
             ++ str " from " ++ downloadUrl versionString (c :: name)))
      (fun _ =>
         match httpsGet e (downloadUrl versionString (c :: name)) with
         | Response statusCode body =>
             onResponse e (c :: name) statusCode body true
         | Truncated statusCode received =>
             onResponse e (c :: name) statusCode received false
         | RequestError message => onError message
         end) w.
Proof.
  intros Hv Hn Hm. unfold recordField in Hv.
  destruct (projectVersionJson w) as [[[]| ]|] eqn:Hf; try discriminate.
  unfold postinstall. unfold bind at 1, readJson. rewrite Hf.
  cbn [getProp ret]. unfold bind at 1. rewrite Hv. cbn [ret]. rewrite Hn.
  unfold bind at 1, mkdirSync. rewrite Hm. reflexivity.
Qed.

(** The failures the script handles: when the request ends in a 404 or in
    another status outside 2xx (whether or not the body then arrives), or
    in an [error] event before any response, [postinstall] returns
    normally, so that the process ends with status 0; it writes nothing
    into the destination directory and prints, after its download notice,
    a warning or an error. *)
Lemma postinstall_tolerates_network_failure e w versionString c name :
  recordField (str "version") w = Some versionString ->
  binaryNameFor (platform e) = c :: name ->
  mkdirSucceeds e = true ->
  handledFailure (httpsGet e (downloadUrl versionString (c :: name))) ->
  fst (postinstall e w) = Returned tt
  /\ exitStatus (fst (postinstall e w)) = 0
  /\ binDir (snd (postinstall e w)) = binDir w
  /\ exists info l msg,
       console (snd (postinstall e w))
       = console w ++ [(LogInfo, info); (l, msg)]
       /\ reported l.
Proof.
  intros Hv Hn Hm Hnet.
  rewrite (@postinstall_run e w versionString c name Hv Hn Hm).
  unfold bind, log at 1.
  assert (Hlog : forall l msg w0 info,
            console w0 = console w ++ [(LogInfo, info)] ->
            binDir w0 = binDir w ->
            reported l ->
            fst (log l msg w0) = Returned tt
            /\ exitStatus (fst (log l msg w0)) = 0
            /\ binDir (snd (log l msg w0)) = binDir w
            /\ exists info l' msg',
                 console (snd (log l msg w0))
                 = console w ++ [(LogInfo, info); (l', msg')]
                 /\ reported l').
  { intros l msg w0 info Hc Hb Hl. unfold log.
    cbn [fst snd exitStatus binDir console].
    repeat split; auto. exists info, l, msg. split; [|exact Hl].
    rewrite Hc. now rewrite <- app_assoc. }
  destruct (httpsGet e (downloadUrl versionString (c :: name)))
    as [statusCode body|statusCode received|message];
    cbn [handledFailure] in Hnet.
  - unfold onResponse.
    destruct (Z.eqb_spec statusCode 404) as [E|E].
    + eapply Hlog; [reflexivity|reflexivity|now left].
    + destruct (Z.eqb_spec statusCode 200) as [E2|E2]; [lia|].
      cbn [negb]. eapply Hlog; [reflexivity|reflexivity|now right].
  - unfold onResponse.
    destruct (Z.eqb_spec statusCode 404) as [E|E].
    + eapply Hlog; [reflexivity|reflexivity|now left].
    + destruct (Z.eqb_spec statusCode 200) as [E2|E2]; [lia|].
      cbn [negb]. eapply Hlog; [reflexivity|reflexivity|now right].
  - unfold onError. eapply Hlog; [reflexivity|reflexivity|now right].
Qed.

(** C5 (defect of the code): a connection lost during the transfer of a
    response with status 200 is a network failure that the script does not
    report.  It returns normally (exit status 0), as the claim says, but
    what had arrived is left in the destination directory as the binary,
    and the console shows the download line only: no warning and no error
    is recorded. *)
Theorem postinstall_cut_transfer_goes_unreported
  e w versionString c name received :
  recordField (str "version") w = Some versionString ->
  binaryNameFor (platform e) = c :: name ->
  mkdirSucceeds e = true ->
  httpsGet e (downloadUrl versionString (c :: name))
    = Truncated 200 received ->
  networkFailure (httpsGet e (downloadUrl versionString (c :: name)))
  /\ fst (postinstall e w) = Returned tt
  /\ exitStatus (fst (postinstall e w)) = 0
  /\ binDir (snd (postinstall e w)) = store (c :: name) received (binDir w)
  /\ (exists info,
        console (snd (postinstall e w)) = console w ++ [(LogInfo, info)])
  /\ forall l msg,
       In (l, msg) (console (snd (postinstall e w))) ->
       reported l -> In (l, msg) (console w).
Proof.
  intros Hv Hn Hm Hget.
  rewrite (@postinstall_run e w versionString c name Hv Hn Hm).
  unfold bind, log at 1. rewrite Hget. unfold onResponse.
  cbn [Z.eqb Pos.eqb negb networkFailure]. unfold bind, pipeToFile, ret.
  cbn [fst snd exitStatus binDir console].
  split; [exact I|]. split; [reflexivity|]. split; [reflexivity|].
  split; [reflexivity|]. split; [eexists; reflexivity|].
  intros l msg Hin [Hl|Hl].
  - apply in_app_or in Hin as [Hin|[Hin|[]]]; [exact Hin|].
    injection Hin as <- _. discriminate.
  - apply in_app_or in Hin as [Hin|[Hin|[]]]; [exact Hin|].
    injection Hin as <- _. discriminate.
Qed.

Lemma postinstall_cut_transfer_goes_unreported_witness :
  let e := linux (Truncated 200 (str "EL")) in
  fst (postinstall e released) = Returned tt
  /\ binDir (snd (postinstall e released))
     = [(str "devapack-x86_64-unknown-linux-gnu", 493, str "EL")]
  /\ forall l msg,
       In (l, msg) (console (snd (postinstall e released))) -> ~ reported l.
Proof.
  destruct (@postinstall_cut_transfer_goes_unreported
              (linux (Truncated 200 (str "EL"))) released
              (VStr (str "1.3.0"))
              100%N (str "evapack-x86_64-unknown-linux-gnu") (str "EL")
              eq_refl eq_refl eq_refl eq_refl)
    as (_ & H1 & _ & H2 & _ & H3).
  split; [exact H1|]. split; [exact H2|].
  intros l msg Hin Hl. exact (H3 l msg Hin Hl).
Defined.

(** C6 (amended): the artifact is written into the destination directory
    exactly when the status of the response is 200: with status 200 the
    body is stored there under the artifact name; with any other status
    (404, the other 2xx codes, anything else) the directory is left as it
    was. *)
Theorem postinstall_writes_iff_200 e w versionString c name statusCode body :
  recordField (str "version") w = Some versionString ->
  binaryNameFor (platform e) = c :: name ->
  mkdirSucceeds e = true ->
  httpsGet e (downloadUrl versionString (c :: name))
    = Response statusCode body ->
  (statusCode = 200 ->
     binDir (snd (postinstall e w)) = store (c :: name) body (binDir w))
  /\ (statusCode <> 200 -> binDir (snd (postinstall e w)) = binDir w).
Proof.
  intros Hv Hn Hm Hget.
  rewrite (@postinstall_run e w versionString c name Hv Hn Hm).
  unfold bind, log at 1. rewrite Hget. unfold onResponse. split.
  - intros ->. reflexivity.
  - intros Hs. destruct (Z.eqb_spec statusCode 404); [reflexivity|].
    destruct (Z.eqb_spec statusCode 200); [contradiction|reflexivity].
Qed.

Lemma postinstall_tolerates_network_failure_witness :
  fst (postinstall (linux (Response 404 [])) released) = Returned tt
  /\ exitStatus (fst (postinstall (linux (Response 404 [])) released)) = 0
  /\ binDir (snd (postinstall (linux (Response 404 [])) released)) = [].
Proof.
  destruct (@postinstall_tolerates_network_failure
              (linux (Response 404 [])) released (VStr (str "1.3.0"))
              100%N (str "evapack-x86_64-unknown-linux-gnu")
              eq_refl eq_refl eq_refl (or_introl eq_refl))
    as (H1 & H2 & H3 & _).
  repeat split; assumption.
Defined.

Lemma postinstall_writes_iff_200_witness :
  binDir (snd (postinstall (linux (Response 200 (str "ELF"))) released))
  = [(str "devapack-x86_64-unknown-linux-gnu", 493, str "ELF")].
Proof.
  apply (@postinstall_writes_iff_200
           (linux (Response 200 (str "ELF"))) released (VStr (str "1.3.0"))
           100%N (str "evapack-x86_64-unknown-linux-gnu") 200 (str "ELF")
           eq_refl eq_refl eq_refl eq_refl).
  reflexivity.
Defined.

(** A response with status 204 is a 2xx success, yet no file is written. *)
Lemma postinstall_skips_204 :
  200 <= 204 < 300
  /\ httpsGet (linux (Response 204 (str "ELF")))
       (downloadUrl (VStr (str "1.3.0"))
          (str "devapack-x86_64-unknown-linux-gnu"))
     = Response 204 (str "ELF")
  /\ fst (postinstall (linux (Response 204 (str "ELF"))) released)
     = Returned tt
  /\ binDir (snd (postinstall (linux (Response 204 (str "ELF"))) released))
     = [].
Proof.
  split; [lia|]. split; [reflexivity|]. split; vm_compute; reflexivity.
Qed.

(** ** copy-to-binary.ts *)

Section RelocatorFacts.
Context {node : NodeEnv}.

(** C8 (amended): for every non-empty path given with [--binary], the
    destination is the parent of the resolved path if that path exists and
    is a regular file, otherwise its parent if it has a non-empty
    extension, otherwise the resolved path itself; and when neither
    [--binary] nor [--out-dir] is given, the destination is the current
    working directory. *)
Theorem destDir_resolution argv f :
  parseArgs argv noFlags = inr f ->
  (forall binary,
      binaryArg f = Some binary -> binary <> [] ->
      destDirOf f = Some (destinationRule binary))
  /\ (binaryArg f = None -> outDirArg f = None ->
      destDirOf f = Some process_cwd).
Proof.
  intros _. split.
  - intros binary Hb Hne. unfold destDirOf, destinationRule. rewrite Hb.
    destruct binary as [|c t]; [congruence|]. cbn [given].
    destruct (existsSync (path_resolve (c :: t))
              && isFile (path_resolve (c :: t)))%bool; [reflexivity|].
    destruct (path_extname (path_resolve (c :: t))); reflexivity.
  - intros Hb Ho. unfold destDirOf. now rewrite Hb, Ho.
Qed.

Lemma destDirOf_some f : exists d, destDirOf f = Some d.
Proof.
  unfold destDirOf. destruct (given (binaryArg f)) as [b|].
  - destruct (existsSync (path_resolve b) && isFile (path_resolve b))%bool;
      [eauto|].
    destruct (path_extname (path_resolve b)); eauto.
  - destruct (given (outDirArg f)); eauto.
Qed.

(** The flag loop only ever ends the process with status 0 or 1. *)
Lemma parseArgs_exit : forall argv,
  (forall f code, parseArgs argv f = inl code -> code = 0 \/ code = 1)
  /\ (forall a f code,
         parseArgs (a :: argv) f = inl code -> code = 0 \/ code = 1).
Proof.
  assert (Hstep : forall a rest,
            (forall f code, parseArgs (tl rest) f = inl code ->
                            code = 0 \/ code = 1) ->
            forall f code, parseArgs (a :: rest) f = inl code ->
                           code = 0 \/ code = 1).
  { intros a rest IH f code. cbn [parseArgs].
    destruct (jsstr_eqb a (str "--source")).
    { destruct rest; [discriminate|apply IH]. }
    destruct (jsstr_eqb a (str "--binary")).
    { destruct rest; [discriminate|apply IH]. }
    destruct (jsstr_eqb a (str "--out-dir")).
    { destruct rest; [discriminate|apply IH]. }
    destruct (jsstr_eqb a (str "--help") || jsstr_eqb a (str "-h"))%bool;
      intros H; injection H as <-; auto. }
  induction argv as [|b t [IH1 IH2]].
  - split; [discriminate|]. intros a. apply Hstep. discriminate.
  - split; [apply IH2|]. intros a. apply Hstep. exact IH1.
Qed.

(** C9: whatever the argument vector, the destination resolved from the
    flags is never [null]; and since [path.resolve], [path.dirname] and
    [process.cwd()] return non-empty strings, the script never ends with
    exit status 3. *)
Theorem destination_always_resolved :
  (forall p, path_resolve p <> []) ->
  (forall p, path_dirname p <> []) ->
  process_cwd <> [] ->
  forall argv,
    (forall f, parseArgs argv noFlags = inr f -> destDirOf f <> None)
    /\ fst (relocate argv) <> 3.
Proof.
  intros Hres Hdir Hcwd argv. split.
  - intros f _. destruct (destDirOf_some f) as [d ->]. discriminate.
  - unfold relocate. fold noFlags.
    destruct (parseArgs argv noFlags) as [code|f] eqn:Hp.
    + cbn [fst]. apply (proj1 (parseArgs_exit argv)) in Hp. lia.
    + match goal with |- context [existsSync ?p] =>
        destruct (existsSync p) end; cbn [negb fst]; [|lia].
      assert (Hd : exists c t, destDirOf f = Some (c :: t)).
      { unfold destDirOf. destruct (given (binaryArg f)) as [b|].
        - destruct (existsSync (path_resolve b)
                    && isFile (path_resolve b))%bool.
          + specialize (Hdir (path_resolve b)).
            destruct (path_dirname (path_resolve b)); [congruence|eauto].
          + destruct (path_extname (path_resolve b)).
            * specialize (Hres b).
              destruct (path_resolve b); [congruence|eauto].
            * specialize (Hdir (path_resolve b)).
              destruct (path_dirname (path_resolve b)); [congruence|eauto].
        - destruct (given (outDirArg f)) as [o|].
          + specialize (Hres o). destruct (path_resolve o); [congruence|eauto].
          + destruct process_cwd; [congruence|eauto]. }
      destruct Hd as (c & t & ->). cbn [given].
      destruct (negb (existsSync (c :: t)) && negb (mkdirSyncOk (c :: t)))%bool;
        cbn [fst]; [lia|].
      destruct (copyFileSyncOk _ _); cbn [fst]; lia.
Qed.
End RelocatorFacts.

(** The sample environment on concrete argument vectors. *)
Lemma sample_resolve_nonempty p : Sample.resolve p <> [].
Proof.
  unfold Sample.resolve. destruct p as [|c t]; [discriminate|].
  destruct (cu_eqb c Sample.slash); discriminate.
Qed.

Lemma sample_dirname_nonempty p : Sample.dirname p <> [].
Proof.
  unfold Sample.dirname.
  destruct (rev (snd (span (fun c => negb (cu_eqb c Sample.slash)) (rev p))))
    as [|x [|y d]]; discriminate.
Qed.

Lemma destDir_resolution_witness :
  @destDirOf Sample.node (Flags None (Some (str "/opt/app/bin/tool")) None)
  = Some (str "/opt/app/bin").
Proof.
  apply (proj1 (@destDir_resolution Sample.node
                  [str "--binary"; str "/opt/app/bin/tool"]
                  (Flags None (Some (str "/opt/app/bin/tool")) None)
                  eq_refl)
           (str "/opt/app/bin/tool") eq_refl).
  discriminate.
Defined.

(** An empty path given with [--binary] is passed over: with
    [--binary Q --out-dir /x] (Q the empty string) the destination is [/x],
    not what the rule gives for the empty path (the working directory). *)
Lemma empty_binary_path_is_not_used :
  parseArgs [str "--binary"; []; str "--out-dir"; str "/x"] noFlags
  = inr (Flags None (Some []) (Some (str "/x")))
  /\ @destDirOf Sample.node (Flags None (Some []) (Some (str "/x")))
     = Some (str "/x")
  /\ @destinationRule Sample.node [] = str "/work"
  /\ @destDirOf Sample.node (Flags None (Some []) (Some (str "/x")))
     <> Some (@destinationRule Sample.node []).
Proof.
  split; [reflexivity|]. split; [reflexivity|]. split; [reflexivity|].
  vm_compute. discriminate.
Qed.

Lemma destination_always_resolved_witness :
  fst (@relocate Sample.node []) <> 3.
Proof.
  apply (@destination_always_resolved Sample.node
           sample_resolve_nonempty sample_dirname_nonempty
           ltac:(discriminate) []).
Defined.

(** ** End-to-end scenarios of the specification *)

(** The strings the specification gives as invalid versions. *)
Example invalid_versions :
  parseVersion (str "1.2") = None
  /\ parseVersion (str "v1.2.3") = None
  /\ parseVersion (str "1.2.3.4") = None.
Proof. repeat split. Qed.

(** Record 1.2.3 with build 5: bumping [minor] stores 1.3.0, stamping then
    makes the build 6. *)
Example scenario_bump_then_stamp :
  let w1 :=
    snd (bumpVersion (str "minor")
           (recordWith [(str "version", VStr (str "1.2.3"));
                        (str "build", VNum (Fin 5))])) in
  recordVersion w1 = Some (str "1.3.0")
  /\ recordField (str "build") (snd (fetchVersion w1))
     = Some (VNum (Fin 6)).
Proof. vm_compute. split; reflexivity. Qed.

(** The release command on the sample tree brings the record and both
    manifests to 1.4.0. *)
Example scenario_release :
  let w := snd (release (Some (str "minor")) sampleTree) in
  fst (release (Some (str "minor")) sampleTree) = Returned tt
  /\ recordVersion w = Some (str "1.4.0")
  /\ packageVersion w = Some (VStr (str "1.4.0"))
  /\ option_map (fun doc => updatedCargo doc (VStr (str "1.4.0")))
       (cargoToml sampleTree)
     = cargoToml w.
Proof. vm_compute. repeat split. Qed.

(** [--binary /opt/app/bin/tool], an existing file: the record is copied
    into /opt/app/bin. *)
Example scenario_binary_file :
  @relocate Sample.node [str "--binary"; str "/opt/app/bin/tool"]
  = (0, Some (str "/repo/project-version.json",
              str "/opt/app/bin/project-version.json")).
Proof. reflexivity. Qed.

(** No flags: the record is copied into the working directory. *)
Example scenario_no_flags :
  @relocate Sample.node []
  = (0, Some (str "/repo/project-version.json",
              str "/work/project-version.json")).
Proof. reflexivity. Qed.

(** An unsupported platform is reported and no file is written. *)
Example scenario_unsupported_platform :
  let e := InstallEnv (str "freebsd") (fun name => name) true
             (fun _ => Response 200 (str "ELF")) in
  fst (postinstall e released) = Returned tt
  /\ binDir (snd (postinstall e released)) = []
  /\ console (snd (postinstall e released))
     = [(LogError, 10060%N :: str " Unsupported platform: freebsd")].
Proof. repeat split. Qed.

(* ================================================================== *)
(** * Further properties of the scripts *)
(* ================================================================== *)

(** ** JSON values and what is written from them *)

Lemma value_nested_ind (P : value -> Prop) :
  P VUndefined -> P VNull -> (forall b, P (VBool b)) ->
  (forall n, P (VNum n)) -> (forall s, P (VStr s)) ->
  (forall items, Forall P items -> P (VArr items)) ->
  (forall props, Forall (fun p => P (snd p)) props -> P (VObj props)) ->
  forall v, P v.
Proof.
  intros Hu Hn Hb Hnum Hs Ha Ho.
  fix IH 1. intros [| |b|n|s|items|props].
  - exact Hu.
  - exact Hn.
  - apply Hb.
  - apply Hnum.
  - apply Hs.
  - apply Ha. induction items as [|x t IHt]; constructor.
    + apply IH.
    + exact IHt.
  - apply Ho. induction props as [|[k x] t IHt]; constructor.
    + apply IH.
    + exact IHt.
Qed.

(** Writing a JSON value and reading it back gives the value. *)
Lemma jsonValue_isJson v : isJson v = true -> jsonValue v = v.
Proof.
  induction v as [| |b|n|s|items IH|props IH] using value_nested_ind;
    cbn [isJson jsonValue]; intros H; try reflexivity.
  - destruct n; [reflexivity|discriminate|discriminate].
  - f_equal. induction IH as [|x t Hx _ IHt]; [reflexivity|].
    cbn [forallb map] in *. apply andb_true_iff in H as [H1 H2].
    rewrite IHt by assumption. rewrite Hx by assumption.
    destruct x; try reflexivity. discriminate.
  - f_equal. induction IH as [|[k x] t Hx _ IHt]; [reflexivity|].
    cbn [forallb snd] in *. apply andb_true_iff in H as [H1 H2].
    rewrite IHt by assumption. rewrite Hx by assumption.
    destruct x; try reflexivity. discriminate.
Qed.

Lemma isJson_jsonValue v : v <> VUndefined -> isJson (jsonValue v) = true.
Proof.
  induction v as [| |b|n|s|items IH|props IH] using value_nested_ind;
    cbn [isJson jsonValue]; intros H; try reflexivity; try congruence.
  - destruct n; reflexivity.
  - clear H. induction IH as [|x t Hx _ IHt]; [reflexivity|].
    cbn [forallb map]. rewrite IHt, andb_true_r.
    destruct x; try (apply Hx; discriminate). reflexivity.
  - clear H. induction IH as [|[k x] t Hx _ IHt]; [reflexivity|].
    cbn [snd] in Hx.
    destruct x; cbn [forallb snd]; try exact IHt;
      rewrite IHt, andb_true_r; apply Hx; discriminate.
Qed.

Lemma jsonValue_idempotent v : jsonValue (jsonValue v) = jsonValue v.
Proof.
  destruct v; try reflexivity;
    apply jsonValue_isJson, isJson_jsonValue; discriminate.
Qed.

Lemma isJson_defined x : isJson x = true -> x <> VUndefined.
Proof. intros H ->. discriminate. Qed.

Lemma isJson_lookup k props x :
  isJson (VObj props) = true -> lookup k props = Some x -> isJson x = true.
Proof.
  cbn [isJson]. induction props as [|[k' v'] t IH]; [discriminate|].
  cbn [forallb lookup snd]. intros H. apply andb_true_iff in H as [H1 H2].
  destruct (jsstr_eqb k k'); [now intros [= <-]|auto].
Qed.

Lemma isJson_assign k x props :
  isJson (VObj props) = true -> isJson x = true ->
  isJson (VObj (assign k x props)) = true.
Proof.
  cbn [isJson]. intros H Hx. induction props as [|[k' v'] t IH].
  - cbn. now rewrite Hx.
  - cbn [forallb snd assign] in *. apply andb_true_iff in H as [H1 H2].
    destruct (jsstr_eqb k k'); cbn [forallb snd].
    + now rewrite Hx, H2.
    + now rewrite H1, IH.
Qed.

Lemma assign_same k x props :
  lookup k props = Some x -> assign k x props = props.
Proof.
  induction props as [|[k' v'] t IH]; [discriminate|].
  cbn [lookup assign]. destruct (jsstr_eqb k k') eqn:E.
  - intros [= ->]. apply jsstr_eqb_eq in E. now subst.
  - intros H. now rewrite IH.
Qed.

Lemma neq_jsstr_eqb (a b : JSString) : a <> b -> jsstr_eqb a b = false.
Proof.
  intros H. destruct (jsstr_eqb a b) eqn:E; [|reflexivity].
  apply jsstr_eqb_eq in E. contradiction.
Qed.

Lemma lookup_written_none k props :
  lookup k props = None ->
  lookup k (propsOf (jsonValue (VObj props))) = None.
Proof.
  intros E. induction props as [|[k' v'] t IH]; [reflexivity|].
  cbn [lookup] in E. cbn [jsonValue propsOf] in *.
  destruct (jsstr_eqb k k') eqn:Ek; [discriminate|].
  specialize (IH E). destruct v'; auto; cbn [lookup]; now rewrite Ek.
Qed.

Lemma lookup_written k props :
  (forall x, lookup k props = Some x -> isJson x = true) ->
  lookup k (propsOf (jsonValue (VObj props))) = lookup k props.
Proof.
  intros H. destruct (lookup k props) as [x|] eqn:E.
  - rewrite (lookup_jsonValue _ _ E) by (apply isJson_defined; auto).
    now rewrite jsonValue_isJson by auto.
  - now apply lookup_written_none.
Qed.

Lemma lookup_not_in k (props : list (JSString * value)) :
  ~ In k (map fst props) -> lookup k props = None.
Proof.
  induction props as [|[k' x] t IH]; [reflexivity|].
  cbn [map fst In lookup]. intros H.
  rewrite neq_jsstr_eqb by (intros ->; tauto). apply IH. tauto.
Qed.

(** A property set to [undefined] is not written. *)
Lemma lookup_dropped k props :
  uniqueKeys props ->
  lookup k (propsOf (jsonValue (VObj (assign k VUndefined props)))) = None.
Proof.
  unfold uniqueKeys. intros Hu.
  induction props as [|[k' x] t IH]; [reflexivity|].
  cbn [map fst] in Hu. inversion Hu as [|? ? Hn Ht]; subst.
  cbn [assign]. destruct (jsstr_eqb k k') eqn:E.
  - apply jsstr_eqb_eq in E. subst k'.
    change (lookup k (propsOf (jsonValue (VObj t))) = None).
    apply lookup_written_none. now apply lookup_not_in.
  - specialize (IH Ht). cbn [jsonValue propsOf] in *.
    destruct x; auto; cbn [lookup]; now rewrite E.
Qed.

(** ** Numerals: reading back what [decimal] writes *)

Lemma digits_fold_pos u : forall p,
  fold_left (fun acc c => acc * 10 + (Z.of_N c - 48)) (uint_digits u)
    (Z.pos p)
  = Z.pos (Pos.of_uint_acc u p).
Proof.
  induction u; intros p; cbn [uint_digits fold_left Pos.of_uint_acc];
    try reflexivity;
    match goal with
    | |- fold_left _ _ ?a = Z.pos (Pos.of_uint_acc _ ?q) =>
        replace a with (Z.pos q) by lia; apply IHu
    end.
Qed.

Lemma digitsValue_uint u :
  digitsValue (uint_digits u) = Z.of_N (Pos.of_uint u).
Proof.
  unfold digitsValue.
  induction u; cbn [uint_digits fold_left Pos.of_uint];
    try reflexivity; try exact IHu;
    match goal with
    | |- fold_left _ _ ?a = Z.of_N (N.pos (Pos.of_uint_acc _ ?q)) =>
        replace a with (Z.pos q) by lia; apply digits_fold_pos
    end.
Qed.

Lemma digitsValue_decimal z : 0 <= z -> digitsValue (decimal z) = z.
Proof.
  intros H. unfold decimal. rewrite digitsValue_uint.
  change (Pos.of_uint (N.to_uint (Z.to_N z)))
    with (N.of_uint (N.to_uint (Z.to_N z))).
  rewrite DecimalN.Unsigned.of_to. now apply Z2N.id.
Qed.

(** ** bump.ts *)

Lemma versionCaptures_inj a b c pre a' b' c' pre' :
  versionCaptures a b c pre = versionCaptures a' b' c' pre' ->
  (a, b, c, pre) = (a', b', c', pre').
Proof.
  destruct pre, pre'; cbn [versionCaptures]; intros H;
    try discriminate; injection H; intros; subst; reflexivity.
Qed.

(** X1: the pattern of bump.ts accepts exactly the strings
    MAJOR.MINOR.PATCH[-PRERELEASE] of the grammar: a string has the
    reading (major, minor, patch, prerelease) if and only if the match
    covers the whole string with these components as its capture groups;
    the match fails if and only if the string has no reading; and a
    string has at most one reading. *)
Theorem versionRegex_reads_the_grammar s :
  (forall major minor patch pre,
      VersionGrammar s major minor patch pre
      <-> exec versionRegex s
          = Some (MatchResult [] s []
                    (versionCaptures major minor patch pre)))
  /\ (exec versionRegex s = None
      <-> forall major minor patch pre,
            ~ VersionGrammar s major minor patch pre)
  /\ (forall a b c pre a' b' c' pre',
        VersionGrammar s a b c pre -> VersionGrammar s a' b' c' pre' ->
        (a, b, c, pre) = (a', b', c', pre')).
Proof.
  rewrite exec_version. split; [|split].
  - intros major minor patch pre. split.
    + intros H. now rewrite (parseVersion_complete H).
    + destruct (parseVersion s) as [[[[a b] c] p]|] eqn:E; [|discriminate].
      intros [= H]. apply versionCaptures_inj in H.
      injection H as <- <- <- <-. now apply parseVersion_sound.
  - split.
    + destruct (parseVersion s) as [[[[a b] c] p]|] eqn:E; [discriminate|].
      intros _. now apply not_grammar.
    + intros H. destruct (parseVersion s) as [[[[a b] c] p]|] eqn:E;
        [|reflexivity].
      apply parseVersion_sound in E. now apply H in E.
  - intros a b c pre a' b' c' pre' H H'.
    apply parseVersion_complete in H, H'. congruence.
Qed.

(** Every way [bumpVersion] can end: it returns the version it has stored
    in the record, or an exception escapes with nothing done, or the
    process exits with status 1 after one error line. *)
Lemma bumpVersion_cases bumpType w :
  (exists props next,
      projectVersionJson w = Some (Parsed (VObj props))
      /\ bumpVersion bumpType w
         = (Returned next,
            World (Some (Parsed (jsonValue
                     (VObj (assign (str "version") (VStr next) props)))))
                  (packageJson w) (cargoToml w) (gitRevParseHead w)
                  (binDir w) (console w)))
  \/ (exists e, bumpVersion bumpType w = (Thrown e, w))
  \/ (exists msg,
        bumpVersion bumpType w
        = (Exited 1,
           World (projectVersionJson w) (packageJson w) (cargoToml w)
                 (gitRevParseHead w) (binDir w)
                 (console w ++ [(LogError, msg)]))).
Proof.
  unfold bumpVersion, bind, readJson.
  destruct (projectVersionJson w) as [[d|]|] eqn:Hf;
    [|right; left; eexists; reflexivity ..].
  destruct d as [| |b|n|s|items|props]; cbn [getProp throw ret js_match];
    try (right; left; eexists; reflexivity).
  destruct (lookup (str "version") props) as [[| |b|n|v|items|props']|];
    cbn [js_match throw ret];
    try (right; left; eexists; reflexivity).
  rewrite exec_version.
  destruct (parseVersion v) as [[[[major minor] patch] pre]|];
    [|right; left; eexists; reflexivity].
  unfold log, process_exit, ret.
  destruct bumpType as [|c t].
  { right; right. eexists. rewrite <- Hf. reflexivity. }
  destruct (jsstr_eqb (c :: t) (str "major")).
  { left. do 2 eexists. split; [reflexivity|]. reflexivity. }
  destruct (jsstr_eqb (c :: t) (str "minor")).
  { left. do 2 eexists. split; [reflexivity|]. reflexivity. }
  destruct (jsstr_eqb (c :: t) (str "patch")).
  { left. do 2 eexists. split; [reflexivity|]. reflexivity. }
  right; right. eexists. rewrite <- Hf. reflexivity.
Qed.

(** X2: [bumpVersion] is all or nothing on the record: whatever the bump
    kind and the project tree, it never touches package.json, Cargo.toml
    or the binaries; when it returns a version, that version is the one
    the record then holds; and when it does not return (an exception, or
    an exit), the record file is as it was. *)
Theorem bumpVersion_all_or_nothing bumpType w :
  (packageJson (snd (bumpVersion bumpType w)) = packageJson w
   /\ cargoToml (snd (bumpVersion bumpType w)) = cargoToml w
   /\ binDir (snd (bumpVersion bumpType w)) = binDir w)
  /\ (forall next,
        fst (bumpVersion bumpType w) = Returned next ->
        recordVersion (snd (bumpVersion bumpType w)) = Some next)
  /\ ((forall next, fst (bumpVersion bumpType w) <> Returned next) ->
      projectVersionJson (snd (bumpVersion bumpType w))
      = projectVersionJson w).
Proof.
  destruct (bumpVersion_cases bumpType w)
    as [(props & next & Hf & ->)|[[e ->]|[msg ->]]]; cbn [fst snd].
  - split; [repeat split|]. split.
    + intros next' [= <-]. unfold recordVersion.
      rewrite recordField_written.
      rewrite (@lookup_jsonValue (str "version") (VStr next));
        [reflexivity|apply lookup_assign_same|discriminate].
    + intros H. now destruct (H next).
  - split; [repeat split|]. split; [discriminate|reflexivity].
  - split; [repeat split|]. split; [discriminate|reflexivity].
Qed.

(** X3: with a valid version in the record, a bump kind that is none of
    [major], [minor], [patch] (the empty string included) ends the
    process with status 1 after one error line; no file is written. *)
Theorem bumpVersion_unknown_kind w v major minor patch pre bumpType :
  recordVersion w = Some v ->
  VersionGrammar v major minor patch pre ->
  (forall kind, bumpType <> kindName kind) ->
  exists msg,
    bumpVersion bumpType w
    = (Exited 1,
       World (projectVersionJson w) (packageJson w) (cargoToml w)
             (gitRevParseHead w) (binDir w)
             (console w ++ [(LogError, msg)])).
Proof.
  intros Hv Hg Hk.
  unfold recordVersion, recordField in Hv.
  destruct (projectVersionJson w) as [[[]| ]|] eqn:Hf; try discriminate.
  destruct (lookup (str "version") props) as [[]|] eqn:Hl; try discriminate.
  injection Hv as ->.
  apply parseVersion_complete in Hg.
  unfold bumpVersion, bind, readJson. rewrite Hf.
  cbn [getProp ret]. rewrite Hl. cbn [js_match ret].
  rewrite exec_version, Hg.
  unfold log, process_exit, ret.
  destruct bumpType as [|c t]; [eexists; rewrite <- Hf; reflexivity|].
  assert (E : forall kind, jsstr_eqb (c :: t) (kindName kind) = false).
  { intros kind. apply neq_jsstr_eqb, Hk. }
  pose proof (E Major) as E1. pose proof (E Minor) as E2.
  pose proof (E Patch) as E3. cbn [kindName] in E1, E2, E3.
  rewrite E1, E2, E3. eexists. rewrite <- Hf. reflexivity.
Qed.

Lemma bumpVersion_unknown_kind_witness :
  fst (bumpVersion (str "build")
         (recordWith [(str "version", VStr (str "1.2.3"))]))
  = Exited 1.
Proof.
  destruct (@bumpVersion_unknown_kind
              (recordWith [(str "version", VStr (str "1.2.3"))])
              (str "1.2.3") (str "1") (str "2") (str "3") None (str "build")
              eq_refl
              (parseVersion_sound (str "1.2.3") eq_refl)
              (fun kind =>
                 match kind return str "build" <> kindName kind with
                 | Major => ltac:(discriminate)
                 | Minor => ltac:(discriminate)
                 | Patch => ltac:(discriminate)
                 end)) as [msg ->].
  reflexivity.
Defined.

(** X4: when the record file parses but holds no string under [version]
    (the key is missing, its value is a number, null, ..., or the document
    is not an object), [bumpVersion] throws a TypeError, not the
    invalid-version-format error, and writes and prints nothing. *)
Theorem bumpVersion_requires_string_version bumpType w d :
  projectVersionJson w = Some (Parsed d) ->
  recordVersion w = None ->
  bumpVersion bumpType w = (Thrown TypeError, w).
Proof.
  intros Hf Hv. unfold recordVersion, recordField in Hv. rewrite Hf in Hv.
  unfold bumpVersion, bind, readJson. rewrite Hf.
  destruct d as [| |b|n|s|items|props]; try reflexivity.
  cbn [getProp ret].
  destruct (lookup (str "version") props) as [[]|];
    try reflexivity; discriminate.
Qed.

Lemma bumpVersion_requires_string_version_witness :
  bumpVersion (str "patch") (recordWith [(str "build", VNum (Fin 5))])
  = (Thrown TypeError, recordWith [(str "build", VNum (Fin 5))]).
Proof.
  apply (@bumpVersion_requires_string_version (str "patch")
           (recordWith [(str "build", VNum (Fin 5))])
           (VObj [(str "build", VNum (Fin 5))]) eq_refl eq_refl).
Defined.

(** X5: a bump that returns changes nothing of the record but its
    [version]: every other field reads as before (a field that was absent
    stays absent), and nothing is printed. *)
Theorem bumpVersion_keeps_other_fields bumpType w props next :
  projectVersionJson w = Some (Parsed (VObj props)) ->
  isJson (VObj props) = true ->
  fst (bumpVersion bumpType w) = Returned next ->
  (forall k, k <> str "version" ->
      recordField k (snd (bumpVersion bumpType w)) = recordField k w)
  /\ console (snd (bumpVersion bumpType w)) = console w.
Proof.
  intros Hf Hj Hr.
  destruct (bumpVersion_cases bumpType w)
    as [(props' & next' & Hf' & E)|[[e E]|[msg E]]];
    rewrite E in *; cbn [fst snd] in *; try discriminate.
  injection Hr as ->. rewrite Hf in Hf'. injection Hf' as <-.
  rewrite jsonValue_isJson by (apply isJson_assign; [assumption|reflexivity]).
  split; [|reflexivity].
  intros k Hk. unfold recordField. cbn [projectVersionJson]. rewrite Hf.
  apply lookup_assign_other. now apply neq_jsstr_eqb.
Qed.

Lemma bumpVersion_keeps_other_fields_witness :
  recordField (str "build")
    (snd (bumpVersion (str "minor")
            (recordWith [(str "version", VStr (str "1.2.3-rc.1"));
                         (str "build", VNum (Fin 5))])))
  = Some (VNum (Fin 5)).
Proof.
  apply (proj1 (@bumpVersion_keeps_other_fields (str "minor")
           (recordWith [(str "version", VStr (str "1.2.3-rc.1"));
                        (str "build", VNum (Fin 5))])
           [(str "version", VStr (str "1.2.3-rc.1"));
            (str "build", VNum (Fin 5))]
           (str "1.3.0") eq_refl eq_refl eq_refl) (str "build")).
  discriminate.
Defined.

Lemma nextRelease_components kind major minor patch :
  numeral major -> numeral minor -> numeral patch ->
  exists a b c,
    VersionGrammar (nextRelease kind major minor patch) a b c None
    /\ components a b c
       = bumpedComponents kind (components major minor patch).
Proof.
  intros Ha Hb Hc.
  assert (H0 : numeral (str "0")) by (split; [discriminate|reflexivity]).
  assert (Hs : forall s, numeral s ->
                 digitsValue (successor s) = digitsValue s + 1).
  { intros s [_ Hd]. unfold successor. apply digitsValue_decimal.
    apply digitsValue_nonneg in Hd. lia. }
  unfold components, bumpedComponents.
  destruct kind; cbn [nextRelease].
  - exists (successor major), (str "0"), (str "0"). split.
    + split; [apply decimal_numeral|]. split; [exact H0|].
      split; [exact H0|]. split; [exact I|]. reflexivity.
    + now rewrite Hs.
  - exists major, (successor minor), (str "0"). split.
    + split; [exact Ha|]. split; [apply decimal_numeral|].
      split; [exact H0|]. split; [exact I|]. reflexivity.
    + now rewrite Hs.
  - exists major, minor, (successor patch). split.
    + split; [exact Ha|]. split; [exact Hb|].
      split; [apply decimal_numeral|]. split; [exact I|].
      cbn [suffixOf]. now rewrite app_nil_r.
    + now rewrite Hs.
Qed.

(** X6: a bump increases the version.  For a record whose version reads
    (major, minor, patch) and whose component to be incremented is a safe
    integer, the version returned is a release version whose components,
    read as numbers, are (major+1, 0, 0), (major, minor+1, 0) or
    (major, minor, patch+1); it comes strictly after the old one in the
    order that compares major, then minor, then patch. *)
Theorem bumpVersion_increases w v major minor patch pre kind :
  recordVersion w = Some v ->
  VersionGrammar v major minor patch pre ->
  digitsValue (bumped kind major minor patch) <= MAX_SAFE_INTEGER ->
  exists next a b c,
    fst (bumpVersion (kindName kind) w) = Returned next
    /\ VersionGrammar next a b c None
    /\ components a b c
       = bumpedComponents kind (components major minor patch)
    /\ precedes (components major minor patch) (components a b c).
Proof.
  intros Hv Hg Hsafe.
  unfold recordVersion, recordField in Hv.
  destruct (projectVersionJson w) as [[[]| ]|] eqn:Hf; try discriminate.
  destruct (lookup (str "version") props) as [[]|] eqn:Hl; try discriminate.
  injection Hv as ->.
  rewrite (bumpVersion_run w kind Hf Hl Hg Hsafe). cbn [fst].
  destruct Hg as (Ha & Hb & Hc & _).
  destruct (nextRelease_components kind Ha Hb Hc) as (a & b & c & Hn & Hcomp).
  exists (nextRelease kind major minor patch), a, b, c.
  split; [reflexivity|]. split; [exact Hn|]. split; [exact Hcomp|].
  rewrite Hcomp. unfold components, bumpedComponents, precedes.
  destruct kind; lia.
Qed.

Lemma bumpVersion_increases_witness :
  exists next a b c,
    fst (bumpVersion (str "minor")
           (recordWith [(str "version", VStr (str "1.2.3-rc.1"))]))
    = Returned next
    /\ VersionGrammar next a b c None
    /\ components a b c = (1, 3, 0)
    /\ precedes (1, 2, 3) (components a b c).
Proof.
  refine (@bumpVersion_increases
            (recordWith [(str "version", VStr (str "1.2.3-rc.1"))])
            (str "1.2.3-rc.1") (str "1") (str "2") (str "3")
            (Some (str "rc.1")) Minor eq_refl _ _).
  - apply parseVersion_sound. reflexivity.
  - vm_compute. discriminate.
Defined.

(** ** fetch.ts *)

Lemma forallb_rev_all (p : codeunit -> bool) s :
  forallb p s = true -> forallb p (rev s) = true.
Proof.
  intros H. apply forallb_forall. intros x Hx. apply in_rev in Hx.
  revert x Hx. now apply forallb_forall.
Qed.

(** [trim] removes the white space around a trimmed core. *)
Lemma trim_strips ws1 core ws2 :
  forallb isWhiteSpace ws1 = true -> forallb isWhiteSpace ws2 = true ->
  trimmed core ->
  trim (ws1 ++ core ++ ws2) = core.
Proof.
  intros H1 H2 [Hc Hr]. unfold trim, trimStart.
  destruct core as [|c t].
  - cbn [app]. rewrite (@span_whole isWhiteSpace (ws1 ++ ws2)).
    + reflexivity.
    + rewrite forallb_app. now rewrite H1, H2.
  - rewrite span_eq; [|assumption|exact Hc]. cbn [snd].
    rewrite rev_app_distr.
    rewrite span_eq; [|now apply forallb_rev_all|exact Hr]. cbn [snd].
    apply rev_involutive.
Qed.

(** What stamping writes, with and without an answer of git. *)
Lemma fetchVersion_run w props :
  projectVersionJson w = Some (Parsed (VObj props)) ->
  fetchVersion w
  = let stamped :=
      assign (str "build")
        (stampedBuild (fieldOrUndefined (lookup (str "build") props)))
        props in
    match gitRevParseHead w with
    | Some out =>
        (Returned tt,
         World (Some (Parsed (jsonValue
                  (VObj (assign (str "lastCommit") (VStr (trim out))
                           stamped)))))
               (packageJson w) (cargoToml w) (gitRevParseHead w) (binDir w)
               (console w))
    | None =>
        (Returned tt,
         World (Some (Parsed (jsonValue (VObj stamped))))
               (packageJson w) (cargoToml w) (gitRevParseHead w) (binDir w)
               (console w ++ [(LogWarn, gitWarning)]))
    end.
Proof.
  intros Hf. unfold fetchVersion, bind, readJson. rewrite Hf.
  cbn [getProp setProp ret].
  fold (fieldOrUndefined (lookup (str "build") props)).
  fold (stampedBuild (fieldOrUndefined (lookup (str "build") props))).
  cbv zeta.
  unfold try_catch, bind, execGitRevParseHead.
  destruct (gitRevParseHead w) as [out|] eqn:Hg;
    cbn [setProp ret log fst snd writeProjectVersion gitRevParseHead
         packageJson cargoToml binDir console projectVersionJson].
  - rewrite <- Hg. reflexivity.
  - rewrite <- Hg. reflexivity.
Qed.

Lemma fetchVersion_no_exit w code : fst (fetchVersion w) <> Exited code.
Proof.
  unfold fetchVersion, bind, readJson.
  destruct (projectVersionJson w) as [[d|]|]; try discriminate.
  destruct d as [| |b|n|s|items|props]; cbn [getProp setProp throw ret];
    try discriminate;
    unfold try_catch, bind, execGitRevParseHead;
    destruct (gitRevParseHead w); cbn; discriminate.
Qed.

(** X7: when git answers, stamping stores under [lastCommit] what git
    printed without the white space around it (the final newline of the
    hash, for one), and prints nothing. *)
Theorem fetchVersion_records_commit w props ws1 commit ws2 :
  projectVersionJson w = Some (Parsed (VObj props)) ->
  gitRevParseHead w = Some (ws1 ++ commit ++ ws2) ->
  forallb isWhiteSpace ws1 = true ->
  forallb isWhiteSpace ws2 = true ->
  trimmed commit ->
  fst (fetchVersion w) = Returned tt
  /\ recordField (str "lastCommit") (snd (fetchVersion w))
     = Some (VStr commit)
  /\ console (snd (fetchVersion w)) = console w.
Proof.
  intros Hf Hg H1 H2 Hc.
  rewrite (fetchVersion_run _ Hf), Hg. cbv zeta. cbn [fst snd console].
  split; [reflexivity|]. split; [|reflexivity].
  rewrite recordField_written.
  rewrite (@lookup_jsonValue (str "lastCommit")
             (VStr (trim (ws1 ++ commit ++ ws2))));
    [|apply lookup_assign_same|discriminate].
  cbn [jsonValue]. now rewrite trim_strips.
Qed.

Lemma fetchVersion_records_commit_witness :
  recordField (str "lastCommit")
    (snd (fetchVersion
            (World (Some (Parsed (VObj [(str "version",
                                         VStr (str "1.3.0"))])))
                   None None (Some (str "4f2a9c1e" ++ [10%N])) [] [])))
  = Some (VStr (str "4f2a9c1e")).
Proof.
  apply (@fetchVersion_records_commit
           (World (Some (Parsed (VObj [(str "version",
                                        VStr (str "1.3.0"))])))
                  None None (Some (str "4f2a9c1e" ++ [10%N])) [] [])
           [(str "version", VStr (str "1.3.0"))]
           [] (str "4f2a9c1e") [10%N] eq_refl eq_refl eq_refl eq_refl).
  split; reflexivity.
Defined.



(** X9: stamping changes nothing of the record but [build] and
    [lastCommit]: every other field, the version among them, reads as
    before; package.json and Cargo.toml are not touched. *)
Theorem fetchVersion_keeps_other_fields w props k :
  projectVersionJson w = Some (Parsed (VObj props)) ->
  isJson (VObj props) = true ->
  k <> str "build" -> k <> str "lastCommit" ->
  recordField k (snd (fetchVersion w)) = recordField k w
  /\ packageJson (snd (fetchVersion w)) = packageJson w
  /\ cargoToml (snd (fetchVersion w)) = cargoToml w.
Proof.
  intros Hf Hj Hb Hc. apply neq_jsstr_eqb in Hb, Hc.
  rewrite (fetchVersion_run _ Hf). cbv zeta.
  unfold recordField at 2. rewrite Hf.
  destruct (gitRevParseHead w) as [out|]; cbn [fst snd packageJson cargoToml];
    (split; [|split; reflexivity]);
    rewrite recordField_written, lookup_written.
  - now rewrite !lookup_assign_other.
  - intros x. rewrite !lookup_assign_other by assumption.
    now apply isJson_lookup.
  - now rewrite lookup_assign_other.
  - intros x. rewrite lookup_assign_other by assumption.
    now apply isJson_lookup.
Qed.

Lemma fetchVersion_keeps_other_fields_witness :
  recordField (str "version")
    (snd (fetchVersion (recordWith [(str "version", VStr (str "1.3.0"));
                                    (str "build", VNum (Fin 5))])))
  = Some (VStr (str "1.3.0")).
Proof.
  apply (@fetchVersion_keeps_other_fields
           (recordWith [(str "version", VStr (str "1.3.0"));
                        (str "build", VNum (Fin 5))])
           [(str "version", VStr (str "1.3.0")); (str "build", VNum (Fin 5))]
           (str "version") eq_refl eq_refl);
    discriminate.
Defined.

(** X10: a build field that is falsy (absent, null, false, 0, the empty
    string) counts as 0: stamping stores build 1. *)
Theorem fetchVersion_restarts_falsy_build w props :
  projectVersionJson w = Some (Parsed (VObj props)) ->
  truthy (fieldOrUndefined (lookup (str "build") props)) = false ->
  recordField (str "build") (snd (fetchVersion w)) = Some (VNum (Fin 1)).
Proof.
  intros Hf Ht. destruct (fetchVersion_build _ Hf) as [_ ->].
  unfold stampedBuild, js_or. now rewrite Ht.
Qed.

Lemma fetchVersion_restarts_falsy_build_witness :
  recordField (str "build")
    (snd (fetchVersion (recordWith [(str "version", VStr (str "1.3.0"));
                                    (str "build", VNull)])))
  = Some (VNum (Fin 1)).
Proof.
  apply (@fetchVersion_restarts_falsy_build
           (recordWith [(str "version", VStr (str "1.3.0"));
                        (str "build", VNull)])
           [(str "version", VStr (str "1.3.0")); (str "build", VNull)]
           eq_refl eq_refl).
Defined.

(** X11: a build field holding a non-empty string is not read as a
    number: stamping appends the character 1 to it and stores the
    string. *)
Theorem fetchVersion_appends_to_string_build w props c s :
  projectVersionJson w = Some (Parsed (VObj props)) ->
  lookup (str "build") props = Some (VStr (c :: s)) ->
  recordField (str "build") (snd (fetchVersion w))
  = Some (VStr ((c :: s) ++ str "1")).
Proof.
  intros Hf Hb. destruct (fetchVersion_build _ Hf) as [_ ->].
  rewrite Hb. reflexivity.
Qed.

Lemma fetchVersion_appends_to_string_build_witness :
  recordField (str "build")
    (snd (fetchVersion (recordWith [(str "build", VStr (str "41"))])))
  = Some (VStr (str "411")).
Proof.
  apply (@fetchVersion_appends_to_string_build
           (recordWith [(str "build", VStr (str "41"))])
           [(str "build", VStr (str "41"))] 52%N (str "1") eq_refl eq_refl).
Defined.

Lemma fetchVersion_step w props b :
  projectVersionJson w = Some (Parsed (VObj props)) ->
  priorBuild (lookup (str "build") props) = Some b ->
  0 <= b <= MAX_SAFE_INTEGER ->
  exists props',
    projectVersionJson (snd (fetchVersion w)) = Some (Parsed (VObj props'))
    /\ lookup (str "build") props' = Some (VNum (Fin (b + 1))).
Proof.
  intros Hf Hb Hb01.
  destruct (fetchVersion_build w Hf) as [_ Hbuild].
  rewrite (stampedBuild_number _ Hb), add_one_safe in Hbuild by assumption.
  cbn [jsonValue] in Hbuild.
  rewrite (fetchVersion_run _ Hf) in *. cbv zeta in *.
  destruct (gitRevParseHead w); cbn [snd projectVersionJson] in *;
    eexists; (split; [reflexivity|]);
    rewrite recordField_written in Hbuild; exact Hbuild.
Qed.

(** X30: stampings add up: starting from a build counter [b] (an absent
    field counting as 0), [n + 1] successive stampings leave the counter
    at [b + n + 1], as long as the counter stays within the safe
    integers up to the last increment. *)
Theorem fetchVersion_repeated n w props b :
  projectVersionJson w = Some (Parsed (VObj props)) ->
  priorBuild (lookup (str "build") props) = Some b ->
  0 <= b ->
  b + Z.of_nat n <= MAX_SAFE_INTEGER ->
  recordField (str "build") (stampings (S n) w)
  = Some (VNum (Fin (b + Z.of_nat (S n)))).
Proof.
  intros Hf Hb Hb0 Hsafe.
  assert (Hinv : forall m, (m <= n)%nat ->
            exists props',
              projectVersionJson (stampings m w) = Some (Parsed (VObj props'))
              /\ priorBuild (lookup (str "build") props')
                 = Some (b + Z.of_nat m)).
  { induction m as [|m IH]; intros Hm.
    - exists props. split; [exact Hf|]. now rewrite Z.add_0_r.
    - destruct IH as (p & Hp & Hpb); [lia|].
      destruct (@fetchVersion_step (stampings m w) p (b + Z.of_nat m) Hp Hpb)
        as (p' & Hp' & Hl'); [lia|].
      exists p'. split; [exact Hp'|]. rewrite Hl'. cbn [priorBuild].
      f_equal. lia. }
  destruct (Hinv n (le_n n)) as (p & Hp & Hpb).
  destruct (@fetchVersion_step (stampings n w) p (b + Z.of_nat n) Hp Hpb)
    as (p' & Hp' & Hl'); [lia|].
  change (stampings (S n) w) with (snd (fetchVersion (stampings n w))).
  unfold recordField. rewrite Hp', Hl'. do 3 f_equal. lia.
Qed.

Lemma fetchVersion_repeated_witness :
  recordField (str "build")
    (stampings 3 (recordWith [(str "version", VStr (str "1.3.0"));
                              (str "build", VNum (Fin 5))]))
  = Some (VNum (Fin 8)).
Proof.
  refine (@fetchVersion_repeated 2
            (recordWith [(str "version", VStr (str "1.3.0"));
                         (str "build", VNum (Fin 5))])
            [(str "version", VStr (str "1.3.0")); (str "build", VNum (Fin 5))]
            5 eq_refl eq_refl _ _).
  - lia.
  - vm_compute. discriminate.
Defined.

(** ** sync.ts *)

(** X12: the pattern of sync.ts finds the first version assignment: its
    match on a document is the assignment (place, head, value span, rest)
    if and only if that is the first assignment of the document, and it
    fails if and only if the document has none. *)
Theorem cargoVersionRegex_finds_the_first_assignment doc :
  (forall pre g1 val post,
      FirstAssignment doc pre g1 val post
      <-> exec cargoVersionRegex doc = Some (cargoMatch pre g1 val post))
  /\ (exec cargoVersionRegex doc = None <-> NoAssignment doc).
Proof.
  unfold exec. rewrite search_cargo. split.
  - intros pre g1 val post. split.
    + intros H. now rewrite (findAssignment_complete [] H).
    + destruct (findAssignment [] doc) as [[[[p g] v] q]|] eqn:E;
        [|discriminate].
      unfold cargoMatch. intros H. injection H as Hp Hm Hq Hg. subst.
      apply app_inv_head in Hm. apply app_inv_tail in Hm. subst.
      now apply findAssignment_first.
  - destruct (findAssignment [] doc) as [[[[p g] v] q]|] eqn:E.
    + split; [discriminate|]. intros H.
      apply (findAssignment_none doc []) in H. congruence.
    + split; [|reflexivity]. intros _.
      now apply (findAssignment_none doc []).
Qed.

Lemma updatedCargo_matched_value doc x before g1 old after :
  FirstAssignment doc before g1 old after ->
  dollarFree (toStringV x) ->
  updatedCargo doc x
  = before ++ g1 ++ toStringV x ++ [Char.quote] ++ after.
Proof.
  intros HF Hv.
  unfold updatedCargo. rewrite replace_cargo.
  rewrite (@findAssignment_complete before [] doc g1 old after HF).
  cbn [app]. unfold cargoTemplate.
  rewrite template_expands by assumption. now norm_app.
Qed.

Lemma updatedCargo_idempotent doc v :
  dollarFree v -> forallb isNotQuote v = true ->
  updatedCargo (updatedCargo doc (VStr v)) (VStr v)
  = updatedCargo doc (VStr v).
Proof.
  intros Hd Hq.
  destruct (findAssignment [] doc) as [[[[pre g1] old] post]|] eqn:E.
  - apply findAssignment_first in E.
    rewrite (updatedCargo_matched E Hd).
    apply updatedCargo_matched with (old := v); [|assumption].
    now apply FirstAssignment_update with (doc := doc) (old := old).
  - apply findAssignment_none in E.
    now rewrite !(updatedCargo_unmatched _ E).
Qed.

(** The same on the file: what a second run writes is what the first
    wrote, also when the version holds a surrogate that is written as
    U+FFFD. *)
Lemma rewritten_idempotent raw v :
  dollarFree v -> forallb isNotQuote v = true ->
  UTF8.encode
    (updatedCargo
       (UTF8.decode (UTF8.encode (updatedCargo (UTF8.decode raw) (VStr v))))
       (VStr v))
  = UTF8.encode (updatedCargo (UTF8.decode raw) (VStr v)).
Proof.
  intros Hd Hq. pose proof (wellFormed_decode raw) as Hwf.
  destruct (findAssignment [] (UTF8.decode raw))
    as [[[[pre g1] old] post]|] eqn:E.
  - apply findAssignment_first in E.
    rewrite (updatedCargo_matched E Hd).
    pose proof E as [(Hdoc & Hh & _) _]. rewrite Hdoc in Hwf.
    rewrite (@reread_frame pre g1 old v post Hh Hwf). f_equal.
    apply updatedCargo_matched
      with (old := UTF8.decode (UTF8.encode v)); [|assumption].
    apply FirstAssignment_update with (doc := UTF8.decode raw) (old := old);
      [assumption|].
    now apply notQuote_decode, notQuote_encode.
  - apply findAssignment_none in E.
    rewrite (updatedCargo_unmatched _ E).
    rewrite (decode_encode _ Hwf).
    now rewrite (updatedCargo_unmatched _ E).
Qed.

Lemma syncVersion_missing_package w v :
  recordVersion w = Some v -> packageJson w = None ->
  syncVersion w = (Thrown ENOENT, w).
Proof.
  intros Hv Hp. unfold recordVersion, recordField in Hv.
  destruct (projectVersionJson w) as [[[]| ]|] eqn:Hf; try discriminate.
  destruct (lookup (str "version") props) as [[]|] eqn:Hl; try discriminate.
  unfold syncVersion, bind, readJson. rewrite Hf.
  cbn [getProp ret]. now rewrite Hl, Hp.
Qed.

Lemma syncVersion_no_exit w code : fst (syncVersion w) <> Exited code.
Proof.
  unfold syncVersion, bind, readJson, readCargoToml.
  destruct (projectVersionJson w) as [[d|]|]; try discriminate.
  destruct d; cbn [getProp throw ret]; try discriminate;
    (destruct (packageJson w) as [[p|]|]; try discriminate;
     destruct p; cbn [setProp throw ret writePackageJson cargoToml];
     try discriminate; destruct (cargoToml w); discriminate).
Qed.

(** X13: synchronising twice is synchronising once: for a version
    without [$] and without double quote (every version of the grammar),
    a second run returns normally and leaves the project tree exactly as
    the first run left it. *)
Theorem syncVersion_idempotent w v pkg raw :
  recordVersion w = Some v ->
  dollarFree v -> forallb isNotQuote v = true ->
  packageJson w = Some (Parsed (VObj pkg)) ->
  cargoToml w = Some raw ->
  syncVersion (snd (syncVersion w)) = (Returned tt, snd (syncVersion w)).
Proof.
  intros Hv Hd Hq Hp Hc.
  rewrite (syncVersion_run w Hv Hp Hc). cbn [snd].
  set (pkg1 :=
         propsOf (jsonValue (VObj (assign (str "version") (VStr v) pkg)))).
  assert (E1 : jsonValue (VObj (assign (str "version") (VStr v) pkg))
               = VObj pkg1) by reflexivity.
  rewrite E1.
  erewrite syncVersion_run; [|exact Hv|reflexivity|reflexivity].
  cbn [projectVersionJson gitRevParseHead binDir console].
  rewrite rewritten_idempotent by assumption.
  rewrite assign_same.
  - rewrite <- E1. now rewrite jsonValue_idempotent.
  - unfold pkg1. rewrite (@lookup_jsonValue (str "version") (VStr v));
      [reflexivity|apply lookup_assign_same|discriminate].
Qed.

Lemma syncVersion_idempotent_witness :
  syncVersion (snd (syncVersion sampleTree))
  = (Returned tt, snd (syncVersion sampleTree)).
Proof.
  apply (@syncVersion_idempotent sampleTree (str "1.3.0")
           [(str "name", VStr (str "devapack"));
            (str "version", VStr (str "0.0.1"))]
           (UTF8.encode sampleCargo)
           eq_refl eq_refl eq_refl eq_refl eq_refl).
Defined.

(** X14: synchronising is not atomic.  If package.json is missing, an
    exception escapes and nothing is written; if package.json is there
    but Cargo.toml is missing, the exception escapes after package.json
    has been rewritten with the record's version. *)
Theorem syncVersion_missing_manifest w v :
  recordVersion w = Some v ->
  (packageJson w = None -> syncVersion w = (Thrown ENOENT, w))
  /\ (forall pkg,
        packageJson w = Some (Parsed (VObj pkg)) -> cargoToml w = None ->
        fst (syncVersion w) = Thrown ENOENT
        /\ packageVersion (snd (syncVersion w)) = Some (VStr v)
        /\ cargoToml (snd (syncVersion w)) = None).
Proof.
  intros Hv. split; [now apply syncVersion_missing_package with v|].
  unfold recordVersion, recordField in Hv.
  destruct (projectVersionJson w) as [[[]| ]|] eqn:Hf; try discriminate.
  destruct (lookup (str "version") props) as [[]|] eqn:Hl; try discriminate.
  injection Hv as ->.
  intros pkg Hp Hc. unfold syncVersion, bind, readJson. rewrite Hf.
  cbn [getProp ret]. rewrite Hl, Hp. cbn [setProp ret writePackageJson].
  unfold readCargoToml. cbn [cargoToml]. rewrite Hc. cbn [fst snd].
  split; [reflexivity|]. split; [|reflexivity].
  rewrite packageVersion_written.
  rewrite (@lookup_jsonValue (str "version") (VStr v));
    [reflexivity|apply lookup_assign_same|discriminate].
Qed.

Lemma syncVersion_missing_manifest_witness :
  let w := World (projectVersionJson sampleTree) (packageJson sampleTree)
             None None [] [] in
  fst (syncVersion w) = Thrown ENOENT
  /\ packageVersion (snd (syncVersion w)) = Some (VStr (str "1.3.0"))
  /\ cargoToml (snd (syncVersion w)) = None.
Proof.
  exact (proj2 (@syncVersion_missing_manifest
                  (World (projectVersionJson sampleTree)
                     (packageJson sampleTree) None None [] [])
                  (str "1.3.0") eq_refl)
           [(str "name", VStr (str "devapack"));
            (str "version", VStr (str "0.0.1"))] eq_refl eq_refl).
Defined.

(** X15: synchronising changes nothing of package.json but its
    [version]: every other field reads as before; and it does not touch
    the record. *)
Theorem syncVersion_keeps_other_fields w v pkg raw k :
  recordVersion w = Some v ->
  packageJson w = Some (Parsed (VObj pkg)) ->
  isJson (VObj pkg) = true ->
  cargoToml w = Some raw ->
  k <> str "version" ->
  packageField k (snd (syncVersion w)) = packageField k w
  /\ projectVersionJson (snd (syncVersion w)) = projectVersionJson w.
Proof.
  intros Hv Hp Hj Hc Hk.
  rewrite (syncVersion_run w Hv Hp Hc). cbn [snd projectVersionJson].
  split; [|reflexivity].
  unfold packageField. cbn [packageJson]. rewrite Hp.
  rewrite jsonValue_isJson by (apply isJson_assign; [assumption|reflexivity]).
  apply lookup_assign_other. now apply neq_jsstr_eqb.
Qed.

Lemma syncVersion_keeps_other_fields_witness :
  packageField (str "name") (snd (syncVersion sampleTree))
  = Some (VStr (str "devapack")).
Proof.
  apply (@syncVersion_keeps_other_fields sampleTree (str "1.3.0")
           [(str "name", VStr (str "devapack"));
            (str "version", VStr (str "0.0.1"))]
           (UTF8.encode sampleCargo) (str "name")
           eq_refl eq_refl eq_refl eq_refl).
  discriminate.
Defined.

(** X16: when the record has no [version] field, synchronising still
    returns normally: package.json is written without a [version]
    property, and the first version assignment of Cargo.toml gets the
    text [undefined] as its value (the file written is that text,
    encoded). *)
Theorem syncVersion_without_version w props pkg raw before g1 old after :
  projectVersionJson w = Some (Parsed (VObj props)) ->
  lookup (str "version") props = None ->
  packageJson w = Some (Parsed (VObj pkg)) ->
  uniqueKeys pkg ->
  cargoToml w = Some raw ->
  FirstAssignment (UTF8.decode raw) before g1 old after ->
  fst (syncVersion w) = Returned tt
  /\ packageVersion (snd (syncVersion w)) = None
  /\ cargoToml (snd (syncVersion w))
     = Some (UTF8.encode
               (before ++ g1 ++ str "undefined" ++ [Char.quote] ++ after)).
Proof.
  intros Hf Hl Hp Hu Hc HF.
  unfold syncVersion, bind, readJson. rewrite Hf. cbn [getProp ret].
  rewrite Hl, Hp. cbn [setProp ret writePackageJson].
  unfold readCargoToml. cbn [cargoToml]. rewrite Hc.
  cbn [writeCargoToml fst snd cargoToml packageJson].
  split; [reflexivity|]. split.
  - rewrite packageVersion_written. now apply lookup_dropped.
  - do 2 f_equal. now apply updatedCargo_matched_value with (old := old).
Qed.

Lemma syncVersion_without_version_witness :
  let w := World (Some (Parsed (VObj [(str "build", VNum (Fin 6))])))
             (packageJson sampleTree) (Some (UTF8.encode sampleCargo))
             None [] [] in
  fst (syncVersion w) = Returned tt
  /\ packageVersion (snd (syncVersion w)) = None
  /\ cargoToml (snd (syncVersion w))
     = Some (UTF8.encode (str "[package]
name = 'devapack'
version = " ++ [Char.quote] ++ str "undefined" ++ [Char.quote] ++ str "
edition = '2021'
")).
Proof.
  refine (@syncVersion_without_version
           (World (Some (Parsed (VObj [(str "build", VNum (Fin 6))])))
              (packageJson sampleTree) (Some (UTF8.encode sampleCargo))
              None [] [])
           [(str "build", VNum (Fin 6))]
           [(str "name", VStr (str "devapack"));
            (str "version", VStr (str "0.0.1"))]
           (UTF8.encode sampleCargo) _ _ _ _ eq_refl eq_refl eq_refl _
           eq_refl sampleCargo_first).
  unfold uniqueKeys. cbn [map fst].
  constructor; [|constructor; [|constructor]]; cbn [In].
  - intros [H|[]]. discriminate.
  - intros [].
Defined.

(** ** The release command *)

Lemma release_eq argv2 w :
  release argv2 w
  = match bumpVersion (bumpTypeOf argv2) w with
    | (Returned newVersion, w1) =>
        match fetchVersion w1 with
        | (Returned _, w2) =>
            match syncVersion w2 with
            | (Returned _, w3) => log LogInfo (releaseNotice newVersion) w3
            | (Thrown e, w3) =>
                (Exited 1, snd (log LogError (releaseFailure e) w3))
            | (Exited n, w3) => (Exited n, w3)
            end
        | (Thrown e, w2) =>
            (Exited 1, snd (log LogError (releaseFailure e) w2))
        | (Exited n, w2) => (Exited n, w2)
        end
    | (Thrown e, w1) => (Exited 1, snd (log LogError (releaseFailure e) w1))
    | (Exited n, w1) => (Exited n, w1)
    end.
Proof.
  unfold release. fold (bumpTypeOf argv2). unfold try_catch, bind.
  destruct (bumpVersion (bumpTypeOf argv2) w) as [[next|e|n] w1];
    try reflexivity.
  destruct (fetchVersion w1) as [[[]|e|n] w2]; try reflexivity.
  destruct (syncVersion w2) as [[[]|e|n] w3]; try reflexivity.
Qed.

Lemma requested_bumpType argv2 kind :
  requested argv2 kind -> bumpTypeOf argv2 = kindName kind.
Proof.
  intros [->|[-> [->| ->]]]; try reflexivity. now destruct kind.
Qed.

(** The record after bump and stamp. *)
Lemma bump_then_fetch w props v major minor patch pre kind b :
  projectVersionJson w = Some (Parsed (VObj props)) ->
  isJson (VObj props) = true ->
  lookup (str "version") props = Some (VStr v) ->
  VersionGrammar v major minor patch pre ->
  digitsValue (bumped kind major minor patch) <= MAX_SAFE_INTEGER ->
  priorBuild (lookup (str "build") props) = Some b ->
  0 <= b <= MAX_SAFE_INTEGER ->
  let next := nextRelease kind major minor patch in
  exists w1 w2,
    bumpVersion (kindName kind) w = (Returned next, w1)
    /\ fetchVersion w1 = (Returned tt, w2)
    /\ recordVersion w2 = Some next
    /\ recordField (str "build") w2 = Some (VNum (Fin (b + 1)))
    /\ packageJson w2 = packageJson w
    /\ cargoToml w2 = cargoToml w
    /\ binDir w2 = binDir w
    /\ console w2
       = console w ++ match gitRevParseHead w with
                      | Some _ => []
                      | None => [(LogWarn, gitWarning)]
                      end.
Proof.
  intros Hf Hj Hv Hg Hsafe Hb Hb01 next.
  rewrite (bumpVersion_run w kind Hf Hv Hg Hsafe). fold next.
  rewrite jsonValue_isJson by (apply isJson_assign; [assumption|reflexivity]).
  set (props1 := assign (str "version") (VStr next) props).
  set (w1 := World (Some (Parsed (VObj props1))) _ _ _ _ _).
  assert (Hf1 : projectVersionJson w1 = Some (Parsed (VObj props1)))
    by reflexivity.
  exists w1, (snd (fetchVersion w1)).
  split; [reflexivity|].
  destruct (fetchVersion_build w1 Hf1) as [Hr Hbuild].
  split; [rewrite <- Hr; now destruct (fetchVersion w1)|].
  split; [|split].
  - rewrite (fetchVersion_run w1 Hf1). cbv zeta. unfold recordVersion.
    assert (Hl1 : lookup (str "version") props1 = Some (VStr next))
      by apply lookup_assign_same.
    destruct (gitRevParseHead w1); cbn [snd];
      rewrite recordField_written;
      rewrite (@lookup_jsonValue (str "version") (VStr next));
      try reflexivity; try discriminate;
      rewrite ?lookup_assign_other by reflexivity; exact Hl1.
  - rewrite Hbuild. unfold props1.
    rewrite lookup_assign_other by reflexivity.
    rewrite (stampedBuild_number _ Hb), add_one_safe by assumption.
    reflexivity.
  - rewrite (fetchVersion_run w1 Hf1). cbv zeta.
    change (gitRevParseHead w1) with (gitRevParseHead w).
    destruct (gitRevParseHead w);
      cbn [snd packageJson cargoToml binDir console];
      repeat split; try reflexivity.
    now rewrite app_nil_r.
Qed.

(** X17: no exception escapes the release command, and it has two ways
    to end, whatever the command line and the project tree: it returns
    normally, its last line being the notice of the new version; or the
    process exits with status 1, the last line printed being an error. *)
Theorem release_never_throws argv2 w :
  (fst (release argv2 w) = Returned tt
   /\ exists rest newVersion,
        console (snd (release argv2 w))
        = rest ++ [(LogInfo, releaseNotice newVersion)])
  \/ (fst (release argv2 w) = Exited 1
      /\ exists rest msg,
           console (snd (release argv2 w)) = rest ++ [(LogError, msg)]).
Proof.
  rewrite release_eq.
  destruct (bumpVersion_cases (bumpTypeOf argv2) w)
    as [(props & next & _ & ->)|[[e ->]|[msg ->]]].
  - match goal with |- context [fetchVersion ?w1] =>
      pose proof (@fetchVersion_no_exit w1) as Hfe;
      destruct (fetchVersion w1) as [[[]|e|n] w2]
    end.
    + pose proof (@syncVersion_no_exit w2) as Hse.
      destruct (syncVersion w2) as [[[]|e|n] w3].
      * left. split; [reflexivity|]. now exists (console w3), next.
      * right. split; [reflexivity|].
        now exists (console w3), (releaseFailure e).
      * now destruct (Hse n).
    + right. split; [reflexivity|].
      now exists (console w2), (releaseFailure e).
    + now destruct (Hfe n).
  - right. split; [reflexivity|]. now exists (console w), (releaseFailure e).
  - right. split; [reflexivity|]. now exists (console w), msg.
Qed.

(** X18: the release command composes the three steps.  On a tree whose
    record holds a version of the grammar and a build counter [b] (both
    within the safe integers), with package.json and Cargo.toml in place,
    it returns normally; afterwards the record holds the next release
    version and build [b + 1], package.json holds the same version,
    Cargo.toml is the manifest updated to it and written back (its first
    version assignment, if any, carrying it), and the console shows the git
    warning, if git failed, followed by the notice of the new version.
    Without a bump kind on the command line the kind is [patch]. *)
Theorem release_updates_record_and_manifests
  w props v major minor patch pre kind b pkg raw argv2 :
  projectVersionJson w = Some (Parsed (VObj props)) ->
  isJson (VObj props) = true ->
  lookup (str "version") props = Some (VStr v) ->
  VersionGrammar v major minor patch pre ->
  digitsValue (bumped kind major minor patch) <= MAX_SAFE_INTEGER ->
  priorBuild (lookup (str "build") props) = Some b ->
  0 <= b <= MAX_SAFE_INTEGER ->
  packageJson w = Some (Parsed (VObj pkg)) ->
  cargoToml w = Some raw ->
  requested argv2 kind ->
  let next := nextRelease kind major minor patch in
  fst (release argv2 w) = Returned tt
  /\ recordVersion (snd (release argv2 w)) = Some next
  /\ recordField (str "build") (snd (release argv2 w))
     = Some (VNum (Fin (b + 1)))
  /\ packageVersion (snd (release argv2 w)) = Some (VStr next)
  /\ cargoToml (snd (release argv2 w))
     = Some (UTF8.encode (updatedCargo (UTF8.decode raw) (VStr next)))
  /\ (forall before g1 old after,
        FirstAssignment (UTF8.decode raw) before g1 old after ->
        FirstAssignment
          (UTF8.decode
             (UTF8.encode (updatedCargo (UTF8.decode raw) (VStr next))))
          before g1 next after)
  /\ console (snd (release argv2 w))
     = console w
       ++ match gitRevParseHead w with
          | Some _ => []
          | None => [(LogWarn, gitWarning)]
          end
       ++ [(LogInfo, releaseNotice next)].
Proof.
  intros Hf Hj Hv Hg Hsafe Hb Hb01 Hp Hc Hreq next.
  destruct (bump_then_fetch w kind Hf Hj Hv Hg Hsafe Hb Hb01)
    as (w1 & w2 & E1 & E2 & Hv2 & Hb2 & Hp2 & Hc2 & _ & Hout2).
  fold next in E1, Hv2.
  rewrite release_eq, (requested_bumpType Hreq), E1, E2.
  rewrite Hp in Hp2. rewrite Hc in Hc2.
  rewrite (syncVersion_run w2 Hv2 Hp2 Hc2).
  unfold log. cbn [fst snd projectVersionJson packageJson cargoToml console].
  split; [reflexivity|]. split.
  { unfold recordVersion, recordField in *. cbn [projectVersionJson].
    exact Hv2. }
  split.
  { unfold recordField in *. cbn [projectVersionJson]. exact Hb2. }
  split.
  { rewrite packageVersion_written.
    rewrite (@lookup_jsonValue (str "version") (VStr next));
      [reflexivity|apply lookup_assign_same|discriminate]. }
  split; [reflexivity|]. split.
  { intros before g1 old after HF.
    destruct Hg as (Ha & Hb' & Hc' & _).
    destruct (grammar_next_release kind Ha Hb' Hc') as (x & y & z & Hn).
    fold next in Hn.
    rewrite (updatedCargo_matched HF (grammar_dollarFree Hn)).
    pose proof (wellFormed_decode raw) as Hwf.
    pose proof HF as [(Hdoc & Hh & _) _]. rewrite Hdoc in Hwf.
    rewrite (@reread_frame before g1 old next after Hh Hwf),
      (grammar_roundtrip Hn).
    apply FirstAssignment_update with (doc := UTF8.decode raw) (old := old);
      [assumption|]. exact (grammar_quoteFree Hn). }
  rewrite Hout2. now rewrite <- app_assoc.
Qed.

Lemma release_updates_record_and_manifests_witness :
  fst (release None sampleTree) = Returned tt
  /\ recordVersion (snd (release None sampleTree)) = Some (str "1.3.1")
  /\ recordField (str "build") (snd (release None sampleTree))
     = Some (VNum (Fin 7))
  /\ packageVersion (snd (release None sampleTree))
     = Some (VStr (str "1.3.1")).
Proof.
  destruct (@release_updates_record_and_manifests sampleTree
              [(str "version", VStr (str "1.3.0"));
               (str "build", VNum (Fin 6))]
              (str "1.3.0") (str "1") (str "3") (str "0") None Patch 6
              [(str "name", VStr (str "devapack"));
               (str "version", VStr (str "0.0.1"))]
              (UTF8.encode sampleCargo) None eq_refl eq_refl eq_refl
              (parseVersion_sound (str "1.3.0") eq_refl)
              ltac:(vm_compute; discriminate) eq_refl
              ltac:(vm_compute; split; discriminate) eq_refl eq_refl
              (or_intror (conj eq_refl (or_introl eq_refl))))
    as (H1 & H2 & H3 & H4 & _).
  repeat split; assumption.
Defined.

(** X19: the release command is not atomic.  When package.json is
    missing, the process exits with status 1 after an error line, yet the
    record has already been bumped and stamped: it holds the next release
    version and build [b + 1]; Cargo.toml is as it was. *)
Theorem release_stops_after_the_record
  w props v major minor patch pre kind b argv2 :
  projectVersionJson w = Some (Parsed (VObj props)) ->
  isJson (VObj props) = true ->
  lookup (str "version") props = Some (VStr v) ->
  VersionGrammar v major minor patch pre ->
  digitsValue (bumped kind major minor patch) <= MAX_SAFE_INTEGER ->
  priorBuild (lookup (str "build") props) = Some b ->
  0 <= b <= MAX_SAFE_INTEGER ->
  packageJson w = None ->
  requested argv2 kind ->
  let next := nextRelease kind major minor patch in
  fst (release argv2 w) = Exited 1
  /\ recordVersion (snd (release argv2 w)) = Some next
  /\ recordField (str "build") (snd (release argv2 w))
     = Some (VNum (Fin (b + 1)))
  /\ cargoToml (snd (release argv2 w)) = cargoToml w
  /\ exists rest msg,
       console (snd (release argv2 w)) = rest ++ [(LogError, msg)].
Proof.
  intros Hf Hj Hv Hg Hsafe Hb Hb01 Hp Hreq next.
  destruct (bump_then_fetch w kind Hf Hj Hv Hg Hsafe Hb Hb01)
    as (w1 & w2 & E1 & E2 & Hv2 & Hb2 & Hp2 & Hc2 & _ & Hout2).
  fold next in E1, Hv2.
  rewrite release_eq, (requested_bumpType Hreq), E1, E2.
  rewrite Hp in Hp2.
  rewrite (syncVersion_missing_package w2 Hv2 Hp2).
  unfold log. cbn [fst snd cargoToml console].
  split; [reflexivity|]. split; [exact Hv2|]. split; [exact Hb2|].
  split; [exact Hc2|]. now exists (console w2), (releaseFailure ENOENT).
Qed.

Lemma release_stops_after_the_record_witness :
  fst (release (Some (str "minor")) released) = Exited 1
  /\ recordVersion (snd (release (Some (str "minor")) released))
     = Some (str "1.4.0").
Proof.
  destruct (@release_stops_after_the_record released
              [(str "version", VStr (str "1.3.0"));
               (str "build", VNum (Fin 6))]
              (str "1.3.0") (str "1") (str "3") (str "0") None Minor 6
              (Some (str "minor")) eq_refl eq_refl eq_refl
              (parseVersion_sound (str "1.3.0") eq_refl)
              ltac:(vm_compute; discriminate) eq_refl
              ltac:(vm_compute; split; discriminate) eq_refl
              (or_introl eq_refl))
    as (H1 & H2 & _).
  split; assumption.
Defined.

(** X20: on a record whose version is outside the grammar, the release
    command exits with status 1 whatever the bump kind; it writes no file
    and prints one line, the error carrying the message of the
    invalid-version-format exception. *)
Theorem release_rejects_invalid_version w v argv2 :
  recordVersion w = Some v ->
  (forall major minor patch pre, ~ VersionGrammar v major minor patch pre) ->
  release argv2 w
  = (Exited 1,
     World (projectVersionJson w) (packageJson w) (cargoToml w)
           (gitRevParseHead w) (binDir w)
           (console w ++ [(LogError, releaseFailure invalidVersionFormat)])).
Proof.
  intros Hv Hbad. rewrite release_eq.
  unfold recordVersion, recordField in Hv.
  destruct (projectVersionJson w) as [[[]| ]|] eqn:Hf; try discriminate.
  destruct (lookup (str "version") props) as [[]|] eqn:Hl; try discriminate.
  injection Hv as ->.
  unfold bumpVersion, bind, readJson. rewrite Hf.
  cbn [getProp ret]. rewrite Hl. cbn [js_match ret].
  rewrite exec_version.
  destruct (parseVersion v) as [[[[a b] c] pre]|] eqn:E.
  - apply parseVersion_sound in E. now apply Hbad in E.
  - cbn [throw]. unfold log. cbn [snd]. now rewrite Hf.
Qed.

Lemma release_rejects_invalid_version_witness :
  fst (release None (recordWith [(str "version", VStr (str "1.2"))]))
  = Exited 1.
Proof.
  rewrite (@release_rejects_invalid_version
             (recordWith [(str "version", VStr (str "1.2"))]) (str "1.2")
             None eq_refl (@not_grammar (str "1.2") eq_refl)).
  reflexivity.
Defined.

(** ** postinstall.ts *)

Lemma fileData_store n name data dir :
  fileData n (store name data dir)
  = if jsstr_eqb n name then Some data else fileData n dir.
Proof.
  induction dir as [|[[m mode] old] rest IH]; cbn [store fileData].
  - reflexivity.
  - destruct (jsstr_eqb name m) eqn:E; cbn [fileData].
    + apply jsstr_eqb_eq in E. subst m.
      now destruct (jsstr_eqb n name).
    + rewrite IH. destruct (jsstr_eqb n m) eqn:E2; [|reflexivity].
      apply jsstr_eqb_eq in E2. subst m.
      destruct (jsstr_eqb n name) eqn:E3; [|reflexivity].
      apply jsstr_eqb_eq in E3. subst n. rewrite jsstr_eqb_refl in E.
      discriminate.
Qed.

Lemma store_idempotent name data dir :
  store name data (store name data dir) = store name data dir.
Proof.
  induction dir as [|[[m mode] old] rest IH]; cbn [store].
  - now rewrite jsstr_eqb_refl.
  - destruct (jsstr_eqb name m) eqn:E; cbn [store]; rewrite E.
    + reflexivity.
    + now rewrite IH.
Qed.

(** The three ways an installation can end, decided by the record and the
    surroundings alone: an exception before anything is printed; a normal
    return with the destination directory as it was; a normal return
    with one artifact stored. *)
Lemma postinstall_cases e pv :
  (exists err, forall w,
      projectVersionJson w = pv -> postinstall e w = (Thrown err, w))
  \/ (exists out, forall w,
        projectVersionJson w = pv ->
        postinstall e w
        = (Returned tt,
           World pv (packageJson w) (cargoToml w) (gitRevParseHead w)
                 (binDir w) (console w ++ out)))
  \/ (exists name body out, forall w,
        projectVersionJson w = pv ->
        postinstall e w
        = (Returned tt,
           World pv (packageJson w) (cargoToml w) (gitRevParseHead w)
                 (store name body (binDir w)) (console w ++ out))).
Proof.
  assert (Hthrow : forall d err,
            getProp d (str "version") = throw err ->
            exists err, forall w,
              projectVersionJson w = Some (Parsed d) ->
              postinstall e w = (Thrown err, w)).
  { intros d err Hd. exists err. intros w Hw.
    unfold postinstall, bind, readJson. rewrite Hw, Hd. reflexivity. }
  assert (Hrest : forall d versionString,
            getProp d (str "version") = ret versionString ->
            (exists err, forall w,
                projectVersionJson w = Some (Parsed d) ->
                postinstall e w = (Thrown err, w))
            \/ (exists out, forall w,
                  projectVersionJson w = Some (Parsed d) ->
                  postinstall e w
                  = (Returned tt,
                     World (Some (Parsed d)) (packageJson w) (cargoToml w)
                           (gitRevParseHead w) (binDir w) (console w ++ out)))
            \/ (exists name body out, forall w,
                  projectVersionJson w = Some (Parsed d) ->
                  postinstall e w
                  = (Returned tt,
                     World (Some (Parsed d)) (packageJson w) (cargoToml w)
                           (gitRevParseHead w) (store name body (binDir w))
                           (console w ++ out)))).
  { intros d versionString Hd.
    assert (Hstart : forall w,
              projectVersionJson w = Some (Parsed d) ->
              postinstall e w
              = match binaryNameFor (platform e) with
                | [] =>
                    log LogError
                      (10060%N :: str " Unsupported platform: " ++ platform e)
                      w
                | c :: t =>
                    (mkdirSync e ;;;
                     log LogInfo
                       (11015%N :: 65039%N :: str "  Downloading " ++ (c :: t)
                        ++ str " from "
                        ++ downloadUrl versionString (c :: t)) ;;;
                     match httpsGet e (downloadUrl versionString (c :: t)) with
                     | Response statusCode body =>
                         onResponse e (c :: t) statusCode body true
                     | Truncated statusCode received =>
                         onResponse e (c :: t) statusCode received false
                     | RequestError message => onError message
                     end) w
                end).
    { intros w Hw. unfold postinstall. unfold bind at 1, readJson.
      rewrite Hw. unfold bind at 1. rewrite Hd. cbn [ret].
      now destruct (binaryNameFor (platform e)). }
    destruct (binaryNameFor (platform e)) as [|c t].
    { right; left. eexists. intros w Hw. rewrite (Hstart w Hw).
      unfold log. now rewrite Hw. }
    unfold bind, mkdirSync in Hstart.
    destruct (mkdirSucceeds e).
    2:{ left. eexists. intros w Hw. now rewrite (Hstart w Hw). }
    cbn [ret] in Hstart. unfold log at 1 in Hstart.
    assert (Hresp : forall statusCode body ended,
              (forall w,
                  projectVersionJson w = Some (Parsed d) ->
                  postinstall e w
                  = onResponse e (c :: t) statusCode body ended
                      (World (projectVersionJson w) (packageJson w)
                         (cargoToml w) (gitRevParseHead w) (binDir w)
                         (console w
                          ++ [(LogInfo,
                               11015%N :: 65039%N :: str "  Downloading "
                               ++ (c :: t) ++ str " from "
                               ++ downloadUrl versionString (c :: t))]))) ->
              (exists out, forall w,
                  projectVersionJson w = Some (Parsed d) ->
                  postinstall e w
                  = (Returned tt,
                     World (Some (Parsed d)) (packageJson w) (cargoToml w)
                           (gitRevParseHead w) (binDir w) (console w ++ out)))
              \/ (exists name body out, forall w,
                    projectVersionJson w = Some (Parsed d) ->
                    postinstall e w
                    = (Returned tt,
                       World (Some (Parsed d)) (packageJson w) (cargoToml w)
                             (gitRevParseHead w) (store name body (binDir w))
                             (console w ++ out)))).
    { intros statusCode body ended Hrun. unfold onResponse in Hrun.
      destruct (statusCode =? 404).
      { left. eexists. intros w Hw. rewrite (Hrun w Hw).
        unfold log. cbn [projectVersionJson packageJson cargoToml
          gitRevParseHead binDir console].
        rewrite Hw, <- app_assoc. reflexivity. }
      destruct (statusCode =? 200); cbn [negb] in Hrun.
      - right. exists (c :: t), body.
        destruct ended.
        + eexists. intros w Hw.
          rewrite (Hrun w Hw). unfold bind, pipeToFile, log.
          cbn [projectVersionJson packageJson cargoToml gitRevParseHead
               binDir console].
          rewrite Hw, <- !app_assoc. reflexivity.
        + eexists. intros w Hw.
          rewrite (Hrun w Hw). unfold bind, pipeToFile, ret.
          cbn [projectVersionJson packageJson cargoToml gitRevParseHead
               binDir console].
          rewrite Hw. reflexivity.
      - left. eexists. intros w Hw. rewrite (Hrun w Hw).
        unfold log. cbn [projectVersionJson packageJson cargoToml
          gitRevParseHead binDir console].
        rewrite Hw, <- app_assoc. reflexivity. }
    destruct (httpsGet e (downloadUrl versionString (c :: t)))
      as [statusCode body|statusCode received|message].
    - right. exact (Hresp statusCode body true Hstart).
    - right. exact (Hresp statusCode received false Hstart).
    - right; left. eexists. intros w Hw. rewrite (Hstart w Hw).
      unfold onError, log. cbn [projectVersionJson packageJson cargoToml
        gitRevParseHead binDir console].
      rewrite Hw, <- app_assoc. reflexivity. }
  destruct pv as [[d|]|].
  - destruct d as [| |b|n|s|items|props].
    + left. now apply (Hthrow VUndefined TypeError).
    + left. now apply (Hthrow VNull TypeError).
    + now apply (Hrest (VBool b) VUndefined).
    + now apply (Hrest (VNum n) VUndefined).
    + now apply (Hrest (VStr s) VUndefined).
    + now apply (Hrest (VArr items) VUndefined).
    + now apply (Hrest (VObj props)
                   (fieldOrUndefined (lookup (str "version") props))).
  - left. exists SyntaxError. intros w Hw.
    unfold postinstall, bind, readJson. now rewrite Hw.
  - left. exists ENOENT. intros w Hw.
    unfold postinstall, bind, readJson. now rewrite Hw.
Qed.

(** X21: after a response with status 200 whose body arrives in full and
    is written completely (the file's [finish] event), the destination
    directory holds the body of the response under the name of the
    platform's binary, and every other file of the directory reads as
    before; the script returns normally, its last line being the notice
    of the download. *)
Theorem postinstall_stores_download e w versionString c name body :
  recordField (str "version") w = Some versionString ->
  binaryNameFor (platform e) = c :: name ->
  mkdirSucceeds e = true ->
  httpsGet e (downloadUrl versionString (c :: name)) = Response 200 body ->
  fst (postinstall e w) = Returned tt
  /\ fileData (c :: name) (binDir (snd (postinstall e w))) = Some body
  /\ (forall other,
        other <> c :: name ->
        fileData other (binDir (snd (postinstall e w)))
        = fileData other (binDir w))
  /\ exists info,
       console (snd (postinstall e w))
       = console w ++ [(LogInfo, info);
                       (LogInfo, downloadNotice e (c :: name))].
Proof.
  intros Hv Hn Hm Hget.
  rewrite (postinstall_run e w Hv Hn Hm).
  unfold bind, log at 1. rewrite Hget. unfold onResponse.
  cbn [Z.eqb Pos.eqb negb]. unfold bind, pipeToFile, log.
  cbn [fst snd binDir console].
  split; [reflexivity|]. split; [|split].
  - rewrite fileData_store. now rewrite jsstr_eqb_refl.
  - intros other Ho. rewrite fileData_store.
    now rewrite neq_jsstr_eqb.
  - eexists. rewrite <- app_assoc. reflexivity.
Qed.

Lemma postinstall_stores_download_witness :
  fileData (str "devapack-x86_64-unknown-linux-gnu")
    (binDir (snd (postinstall (linux (Response 200 (str "ELF"))) released)))
  = Some (str "ELF").
Proof.
  apply (@postinstall_stores_download
           (linux (Response 200 (str "ELF"))) released (VStr (str "1.3.0"))
           100%N (str "evapack-x86_64-unknown-linux-gnu") (str "ELF")
           eq_refl eq_refl eq_refl eq_refl).
Defined.

(** X22: on a platform other than win32, darwin and linux, with a
    readable record, the script returns normally having printed one
    error that names the platform; it creates no directory, makes no
    request and writes no file (whether or not the directory could be
    created, and whatever the network would answer). *)
Theorem postinstall_unsupported_platform e w props :
  projectVersionJson w = Some (Parsed (VObj props)) ->
  platform e <> str "win32" ->
  platform e <> str "darwin" ->
  platform e <> str "linux" ->
  postinstall e w
  = (Returned tt,
     World (projectVersionJson w) (packageJson w) (cargoToml w)
           (gitRevParseHead w) (binDir w)
           (console w
            ++ [(LogError,
                 10060%N :: str " Unsupported platform: " ++ platform e)])).
Proof.
  intros Hf H1 H2 H3. apply neq_jsstr_eqb in H1, H2, H3.
  unfold postinstall, bind, readJson. rewrite Hf. cbn [getProp ret].
  unfold binaryNameFor. rewrite H1, H2, H3. unfold log. now rewrite Hf.
Qed.

Lemma postinstall_unsupported_platform_witness :
  binDir (snd (postinstall
                 (InstallEnv (str "freebsd") (fun name => name) false
                    (fun _ => Response 200 (str "ELF")))
                 released))
  = [].
Proof.
  rewrite (@postinstall_unsupported_platform
             (InstallEnv (str "freebsd") (fun name => name) false
                (fun _ => Response 200 (str "ELF")))
             released
             [(str "version", VStr (str "1.3.0"));
              (str "build", VNum (Fin 6))]
             eq_refl ltac:(discriminate) ltac:(discriminate)
             ltac:(discriminate)).
  reflexivity.
Defined.

(** X23: installing twice in the same surroundings leaves the
    destination directory as installing once does: a second download
    overwrites the file of the first, and a run that stores nothing
    stores nothing again. *)
Theorem postinstall_rerun e w :
  binDir (snd (postinstall e (snd (postinstall e w))))
  = binDir (snd (postinstall e w)).
Proof.
  destruct (postinstall_cases e (projectVersionJson w))
    as [[err H]|[[out H]|(name & body & out & H)]];
    rewrite (H w eq_refl); cbn [snd];
    rewrite H by reflexivity; cbn [snd binDir]; try reflexivity.
  apply store_idempotent.
Qed.

(** X24: the installation touches nothing but the destination directory
    and the console: the record, package.json and Cargo.toml are as they
    were; it never ends the process by an exit call; and when an
    exception escapes (unreadable record, directory that cannot be
    created), nothing has been printed or written. *)
Theorem postinstall_touches_only_the_bin_directory e w :
  projectVersionJson (snd (postinstall e w)) = projectVersionJson w
  /\ packageJson (snd (postinstall e w)) = packageJson w
  /\ cargoToml (snd (postinstall e w)) = cargoToml w
  /\ (forall code, fst (postinstall e w) <> Exited code)
  /\ (forall err, fst (postinstall e w) = Thrown err ->
                  snd (postinstall e w) = w).
Proof.
  destruct (postinstall_cases e (projectVersionJson w))
    as [[err H]|[[out H]|(name & body & out & H)]];
    rewrite (H w eq_refl);
    cbn [fst snd projectVersionJson packageJson cargoToml];
    repeat split; try discriminate.
Qed.

(** ** The launcher *)

(** X25: the launcher runs what the installation provides: on every
    platform for which postinstall downloads a binary, the launcher
    spawns the file of exactly that name, with the arguments of the
    command line, and the process ends with the child's exit code (1 when
    a signal ended the child); on every other platform it prints an error
    and exits with status 1 without spawning anything. *)
Theorem launcher_runs_the_provisioned_binary le args w :
  (forall c name,
      binaryNameFor (launchPlatform le) = c :: name ->
      launcher le args w
      = match spawn le (binaryPathOf le (c :: name)) args with
        | ChildExit (Some code) => (Exited code, w)
        | ChildExit None => (Exited 1, w)
        | ChildError err => (Thrown err, w)
        end)
  /\ (binaryNameFor (launchPlatform le) = [] ->
      launcher le args w
      = (Exited 1,
         World (projectVersionJson w) (packageJson w) (cargoToml w)
               (gitRevParseHead w) (binDir w)
               (console w
                ++ [(LogError,
                     str "Unsupported platform: " ++ launchPlatform le)]))).
Proof.
  unfold binaryNameFor, launcher, bind.
  destruct (jsstr_eqb (launchPlatform le) (str "win32")).
  { split; [|discriminate]. intros c name [= <- <-]. cbn [ret].
    now destruct (spawn le _ args) as [[code|]|err]. }
  destruct (jsstr_eqb (launchPlatform le) (str "darwin")).
  { split; [|discriminate]. intros c name [= <- <-]. cbn [ret].
    now destruct (spawn le _ args) as [[code|]|err]. }
  destruct (jsstr_eqb (launchPlatform le) (str "linux")).
  { split; [|discriminate]. intros c name [= <- <-]. cbn [ret].
    now destruct (spawn le _ args) as [[code|]|err]. }
  split; [discriminate|]. intros _. reflexivity.
Qed.

(** ** copy-to-binary.ts *)

(** X26: the flag loop reads the command line as flag/value pairs: after
    any number of pairs each flag variable holds the value of the last
    pair that names it (a value is never read as a flag, whatever it is);
    a flag left without value at the end of the line makes its variable
    undefined, a value given earlier being lost; [--help] or [-h] in flag
    position ends the process with status 0, and any other argument in
    flag position ends it with status 1, whatever follows. *)
Theorem parseArgs_pairs pairs f :
  parseArgs (commandLine pairs) f = inr (setFlags pairs f)
  /\ (forall n,
        parseArgs (commandLine pairs ++ [flagToken n]) f
        = inr (setFlag n None (setFlags pairs f)))
  /\ (forall a rest,
        a = str "--help" \/ a = str "-h" ->
        parseArgs (commandLine pairs ++ a :: rest) f = inl 0)
  /\ (forall a rest,
        knownArg a = false ->
        parseArgs (commandLine pairs ++ a :: rest) f = inl 1).
Proof.
  revert f. induction pairs as [|[n v] rest IH]; intros f.
  - split; [reflexivity|]. split; [intros []; reflexivity|]. split.
    + intros a r [-> | ->]; reflexivity.
    + intros a r Ha. unfold knownArg in Ha.
      repeat (apply orb_false_iff in Ha as [Ha ?]).
      cbn [commandLine app parseArgs].
      repeat match goal with H : jsstr_eqb a _ = false |- _ =>
               rewrite H; clear H end.
      reflexivity.
  - cbn [commandLine app]. unfold setFlags. cbn [fold_left fst snd].
    fold (setFlags rest (setFlag n (Some v) f)).
    destruct (IH (setFlag n (Some v) f)) as (IH1 & IH2 & IH3 & IH4).
    destruct n; cbn [parseArgs flagToken]; cbn -[parseArgs str];
      (split; [exact IH1|]); (split; [exact IH2|]);
      (split; [exact IH3|exact IH4]).
Qed.

Section RelocatorRuns.
Context {node : NodeEnv}.

(** X27: with no usable [--binary] (absent or empty) and a non-empty
    [--out-dir], the record is copied into the resolved output
    directory, which is created only if it does not exist: when the
    source exists and the copy succeeds, the script exits with status 0
    having copied the source to [project-version.json] in that
    directory. *)
Theorem relocate_into_out_dir argv f outDir :
  parseArgs argv noFlags = inr f ->
  binaryArg f = None \/ binaryArg f = Some [] ->
  outDirArg f = Some outDir ->
  outDir <> [] ->
  path_resolve outDir <> [] ->
  existsSync (sourcePathOf f) = true ->
  existsSync (path_resolve outDir) = true
  \/ mkdirSyncOk (path_resolve outDir) = true ->
  copyFileSyncOk (sourcePathOf f)
    (path_join (path_resolve outDir) recordFileName) = true ->
  relocate argv
  = (0, Some (sourcePathOf f,
              path_join (path_resolve outDir) recordFileName)).
Proof.
  intros Hp Hb Ho Hne Hres Hs Hdir Hcopy.
  unfold relocate. fold noFlags. rewrite Hp.
  assert (Hsrc : match given (sourceArg f) with
                 | Some s => path_resolve s
                 | None => defaultSource
                 end = sourcePathOf f).
  { unfold sourcePathOf. now destruct (sourceArg f) as [[|c t]|]. }
  rewrite Hsrc, Hs. cbn [negb].
  assert (Hd : destDirOf f = Some (path_resolve outDir)).
  { unfold destDirOf.
    replace (given (binaryArg f)) with (@None JSString)
      by (destruct Hb as [-> | ->]; reflexivity).
    rewrite Ho. destruct outDir; [congruence|reflexivity]. }
  rewrite Hd. destruct (path_resolve outDir) as [|c t] eqn:Hr; [congruence|].
  cbn [given]. fold recordFileName. rewrite Hcopy.
  destruct Hdir as [-> | ->]; cbn [negb andb]; [reflexivity|].
  now rewrite andb_false_r.
Qed.



(** X29: the relocator copies exactly when it succeeds.  A copy it made
    comes with exit status 0, was read from a source that exists, and
    went to [project-version.json] in the destination directory resolved
    from the flags; and exit status 0 without a copy is the answer to
    [--help] only. *)
Theorem relocate_copies_iff_success argv :
  (forall src dst,
      snd (relocate argv) = Some (src, dst) ->
      fst (relocate argv) = 0
      /\ existsSync src = true
      /\ exists f dir,
           parseArgs argv noFlags = inr f
           /\ src = sourcePathOf f
           /\ destDirOf f = Some dir
           /\ dst = path_join dir recordFileName)
  /\ (fst (relocate argv) = 0 ->
      snd (relocate argv) = None ->
      parseArgs argv noFlags = inl 0).
Proof.
  unfold relocate. fold noFlags.
  destruct (parseArgs argv noFlags) as [code|f] eqn:Hp.
  - cbn [fst snd]. split; [discriminate|]. now intros ->.
  - assert (Hsrc : match given (sourceArg f) with
                   | Some s => path_resolve s
                   | None => defaultSource
                   end = sourcePathOf f).
    { unfold sourcePathOf. now destruct (sourceArg f) as [[|c t]|]. }
    rewrite Hsrc.
    destruct (existsSync (sourcePathOf f)) eqn:Hs; cbn [negb fst snd];
      [|split; discriminate].
    destruct (destDirOf_some f) as [d Hd]. rewrite Hd.
    destruct d as [|c t]; cbn [given fst snd]; [split; discriminate|].
    destruct (negb (existsSync (c :: t)) && negb (mkdirSyncOk (c :: t)))%bool;
      cbn [fst snd]; [split; discriminate|].
    destruct (copyFileSyncOk _ _); cbn [fst snd]; [|split; discriminate].
    split; [|discriminate].
    intros src dst [= <- <-]. split; [reflexivity|]. split; [exact Hs|].
    exists f, (c :: t). now repeat split.
Qed.

End RelocatorRuns.

Lemma relocate_into_out_dir_witness :
  @relocate Sample.node [str "--out-dir"; str "/x"]
  = (0, Some (str "/repo/project-version.json",
              str "/x/project-version.json")).
Proof.
  apply (@relocate_into_out_dir Sample.node
           [str "--out-dir"; str "/x"] (Flags None None (Some (str "/x")))
           (str "/x") eq_refl (or_introl eq_refl) eq_refl);
    try discriminate; try reflexivity.
  right. reflexivity.
Defined.

